(** * ppafm: electrostatic force-field generation (ppafm/cli/generateElFF.py)

    A shallow embedding of [main] of [ppafm/cli/generateElFF.py] and of the
    correlation it delegates to [PPH.computeElFF].

    Conventions of the embedding.
    - numpy [float64] values are modelled by exact rationals ([Q]); the
      literals of the source ([0.1], [-0.045], ...) are the rationals they
      denote.  Division by zero gives [inf]/[nan] in numpy and [0] in [Q]:
      what is stated about a quotient is stated for a divisor that is not
      zero.
    - A 3D array is a nested list indexed [z][y][x] (numpy's first axis is
      the outer list); a vector field has a triple in every voxel.
    - [main] is a sequence of statements with side effects.  Its observable
      effects (files read, large computations started, files written) are
      logged as a list of events; exceptions end the run.  Printing to the
      terminal is not modelled.
    - The collaborators of [main] that live in other modules of the package
      ([ppafm.io], [ppafm.HighLevel], [ppafm.common]) are the fields of the
      record [World]: [main] is modelled for every behaviour they can have. *)

From Stdlib Require Import ZArith QArith Qfield List String Ascii Bool Lia Lqa.
From mathcomp Require boot order algebra algC cyclotomic.
Import ListNotations.
Local Open Scope string_scope.
Local Open Scope list_scope.
Local Open Scope Q_scope.

(** ** Python strings *)

Definition lower_ascii (c : ascii) : ascii :=
  let n := nat_of_ascii c in
  if ((65 <=? n) && (n <=? 90))%nat then ascii_of_nat (n + 32) else c.

(** [str.lower()] on ASCII text. *)
Fixpoint lower (s : string) : string :=
  match s with
  | EmptyString => EmptyString
  | String c s' => String (lower_ascii c) (lower s')
  end.

(** [s.endswith(suf)]. *)
Definition endswith (s suf : string) : bool :=
  ((String.length suf <=? String.length s)%nat
   && String.eqb (substring (String.length s - String.length suf)
                            (String.length suf) s) suf)%bool.

(** ** Arrays *)

Definition grid (A : Type) : Type := list (list (list A)).
Definition vec3 : Type := (Q * Q * Q)%type.
Definition sgrid : Type := grid Q.
Definition vgrid : Type := grid vec3.

Definition grid_map {A B : Type} (f : A -> B) (g : grid A) : grid B :=
  map (map (map f)) g.

(** Unary minus [-a]: a new array. *)
Definition arr_neg (a : sgrid) : sgrid := grid_map Qopp a.

(** [a *= c]: every element of [a] is replaced by its product with [c]. *)
Definition arr_imul (a : sgrid) (c : Q) : sgrid := grid_map (fun v => v * c) a.

Fixpoint zipM {A B C : Type} (f : A -> B -> option C)
         (la : list A) (lb : list B) : option (list C) :=
  match la, lb with
  | [], [] => Some []
  | x :: la', y :: lb' =>
      match f x y, zipM f la' lb' with
      | Some z, Some zs => Some (z :: zs)
      | _, _ => None
      end
  | _, _ => None
  end.

Fixpoint mapM {A B : Type} (f : A -> option B) (l : list A) : option (list B) :=
  match l with
  | [] => Some []
  | x :: l' =>
      match f x, mapM f l' with
      | Some y, Some ys => Some (y :: ys)
      | _, _ => None
      end
  end.

(** numpy broadcasting along one axis: an axis of length 1 is stretched to
    the length of the other operand's axis, equal lengths are paired, any
    other combination is refused.  An array with an empty axis is the list
    [[]] here and has lost its other dimensions: of such arrays only the
    empty axis is compared. *)
Definition broadcast {A B C : Type} (f : A -> B -> option C)
           (la : list A) (lb : list B) : option (list C) :=
  match la, lb with
  | [x], _ => mapM (f x) lb
  | _, [y] => mapM (fun a => f a y) la
  | _, _ => zipM f la lb
  end.

(** [a - b] on 3D arrays ([None]: shapes that numpy cannot broadcast). *)
Definition arr_sub (a b : sgrid) : option sgrid :=
  broadcast (broadcast (broadcast (fun x y => Some (x - y)))) a b.

Definition vec3_div (c : Q) (v : vec3) : vec3 :=
  let '(x, y, z) := v in (x / c, y / c, z / c).

(** [F[i,:,:] / c] for one slice of a vector field. *)
Definition slice_div (s : list (list vec3)) (c : Q) : list (list vec3) :=
  map (map (vec3_div c)) s.

(** [F[i,:,:] = s]. *)
Fixpoint set_slice {A : Type} (F : list A) (i : nat) (s : A) : list A :=
  match F, i with
  | [], _ => []
  | _ :: F', O => s :: F'
  | x :: F', S i' => x :: set_slice F' i' s
  end.

(** [np.linspace(start, stop, num)] with its default [endpoint=True]:
    [num] samples, the first is [start], the step is
    [(stop - start) / (num - 1)], and the last sample is set to [stop]. *)
Definition linspace (start stop : Q) (num : nat) : list Q :=
  match num with
  | O => []
  | S O => [start]
  | S (S _ as div) =>
      let step := (stop - start) / inject_Z (Z.of_nat div) in
      map (fun i => if (i =? div)%nat then stop
                    else inject_Z (Z.of_nat i) * step + start)
          (seq 0 num)
  end.

(** ** Data handled by the script *)

(** [lvec]: a 4x3 matrix, row 0 the origin and rows 1-3 the cell vectors. *)
Record lvec_t : Type := Lvec { lv0 : vec3; lv1 : vec3; lv2 : vec3; lv3 : vec3 }.

(** [v[2]]. *)
Definition vz (v : vec3) : Q := snd v.

Definition ndim_t : Type := (nat * nat * nat)%type.

(** [nDim[0]]. *)
Definition nd0 (n : ndim_t) : nat := fst (fst n).

Definition head_t : Type := list string.
Definition atoms_t : Type := list (Z * vec3 * Q).
Definition valdict_t : Type := list (Z * nat).

(** What [PPU.params['tip']] and the [tip] argument of [computeElFF] can
    hold: a token read from [params.ini] (['s'], ['pz'], ['.py'], ...), a
    dictionary of multipole coefficients, or a density array. *)
Inductive tipval : Type :=
| TipToken (s : string)
| TipMultipole (m : list (string * Q))
| TipDensity (rho : sgrid).

(** The result of a grid loader: [(data, lvec, nDim, head)]. *)
Definition loaded : Type := (sgrid * lvec_t * ndim_t * head_t)%type.

(** The command line, as [parser.parse_args()] returns it. *)
Record Args : Type := {
  input : string;
  output_format : string;
  Rcore : Q;
  energy : bool;
  tip_dens : option string;       (* default None *)
  doDensity : bool;
  tilt : Q;
  KPFM_tip : string;              (* default 'Fit' *)
  KPFM_sample : option string;    (* no default: None *)
  Vref : option Q;                (* no default: None *)
  z0 : Q;
  borh : option bool              (* [None]: the namespace has no such
                                     attribute; no [add_argument] of [main]
                                     declares it *)
}.

(** [PPU.params] after [loadParams] and [apply_options]. *)
Record Params : Type := {
  p_tip : tipval;
  p_sigma : Q;
  p_probeType : string
}.

(** The arguments of one call of [PPH.computeElFF]. *)
Record conv_call : Type := {
  cc_V : sgrid;
  cc_lvec : lvec_t;
  cc_nDim : ndim_t;
  cc_tip : tipval;
  cc_computeVpot : bool;
  cc_tilt : Q;
  cc_sigma : option Q             (* [None]: the keyword is not passed *)
}.

(** ** Exceptions and events *)

Inductive pyexc : Type :=
| PyException (msg : string)          (* [raise Exception(msg)] in [main] *)
| PyTypeError (what : string)
| PyValueError (what : string)
| PyIndexError (what : string)
| PyAttributeError (what : string)
| PyUnboundLocalError (name : string)
| PyExternal (msg : string).          (* raised inside a collaborator *)

Inductive event : Type :=
| EvLoadParams
| EvLoadValence
| EvAtomsPBC (path : string)
| EvLoadGeometry (path : string)
| EvLoadGrid (line : nat) (path : string)
| EvExecTipScript
| EvSubtractCore (rho : sgrid)
| EvComputeElFF (line : nat) (c : conv_call)
| EvSaveVec (name : string) (F : vgrid)
| EvSaveScal (name : string) (E : option sgrid).

(** The outcome of a call into another module: an error message or a value. *)
Definition outcome (A : Type) : Type := (string + A)%type.

(** The collaborators of [main].  [subtractCoreDensities] gives the content
    of the array it was handed as the call leaves it: the script discards
    the value the call returns (line 85).  [computeElFF] gives the force
    field, the energy (or [None]) and the state in which it leaves the
    kernel object it was handed. *)
Record World : Type := {
  loadParams : outcome Params;
  loadValenceElectronDict : outcome valdict_t;
  getAtomsWhichTouchPBCcell : string -> Q -> outcome (list vec3 * list Z);
  loadGeometry : string -> outcome (atoms_t * ndim_t * lvec_t);
  primcoords2Xsf : atoms_t -> lvec_t -> head_t;
  loadXSF : string -> outcome loaded;
  loadCUBE : string -> outcome loaded;
  loadCUBE_density : string -> bool -> outcome loaded;
  exec_tip_script : outcome tipval;
  subtractCoreDensities :
    sgrid -> lvec_t -> list Z -> list vec3 -> valdict_t -> Q -> head_t ->
    outcome sgrid;
  computeElFF : conv_call -> outcome (vgrid * option sgrid * tipval);
  save_vec_field : string -> vgrid -> lvec_t -> string -> head_t -> outcome unit;
  save_scal_field :
    string -> option sgrid -> lvec_t -> string -> head_t -> outcome unit
}.

(** ** The monad of the script: a result or an exception, and the events *)

Definition M (A : Type) : Type := ((pyexc + A) * list event)%type.

Definition ret {A : Type} (x : A) : M A := (inr x, []).

Definition raise {A : Type} (e : pyexc) : M A := (inl e, []).

Definition bind {A B : Type} (m : M A) (f : A -> M B) : M B :=
  match m with
  | (inl e, t) => (inl e, t)
  | (inr x, t) => let (r, t') := f x in (r, t ++ t')
  end.

Notation "x <- m ;; k" := (bind m (fun x => k))
  (at level 61, m at next level, right associativity).
Notation "' pat <- m ;; k" := (bind m (fun x => match x with pat => k end))
  (at level 61, pat pattern, m at next level, right associativity).
Notation "m ;;; k" := (bind m (fun _ => k))
  (at level 61, right associativity).

(** A computation of the script itself that may raise. *)
Definition lift {A : Type} (r : pyexc + A) : M A := (r, []).

(** A call that reads or computes: logged when it starts. *)
Definition call {A : Type} (ev : event) (r : outcome A) : M A :=
  match r with
  | inl msg => (inl (PyExternal msg), [ev])
  | inr x => (inr x, [ev])
  end.

(** A call that writes a file: logged when the file has been written. *)
Definition save (ev : event) (r : outcome unit) : M unit :=
  match r with
  | inl msg => (inl (PyExternal msg), [])
  | inr _ => (inr tt, [ev])
  end.

(** Reading a local variable that may not have been assigned. *)
Definition local {A : Type} (name : string) (v : option A) : M A :=
  match v with
  | Some x => ret x
  | None => raise (PyUnboundLocalError name)
  end.

(** ** [main], statement by statement *)

Module Pipeline.

(** [x > y] on floats. *)
Definition Qgt_bool (x y : Q) : bool := negb (Qle_bool x y).

Definition is_some {A : Type} (o : option A) : bool :=
  match o with Some _ => true | None => false end.

(** Line 51. *)
Definition bSubstractCore (a : Args) : bool :=
  (doDensity a && Qgt_bool (Rcore a) 0 && is_some (tip_dens a))%bool.

Definition core_msg : string := " Rcore>0 but no tip density provided ! ".

(** The locals [valElDict], [Rs_tip] and [elems_tip]: assigned only inside
    the [if] of line 52. *)
Definition core_t : Type := (valdict_t * (list vec3 * list Z))%type.

(** Lines 38-49: [params.ini] and the species table. *)
Definition load_params (w : World) : M Params :=
  call EvLoadParams (loadParams w).

(** Lines 51-55. *)
Definition core_prep (w : World) (a : Args) : M (option core_t) :=
  if bSubstractCore a then
    match tip_dens a with
    | None => raise (PyException core_msg)
    | Some td =>
        valElDict <- call EvLoadValence (loadValenceElectronDict w);;
        RsEl <- call (EvAtomsPBC td) (getAtomsWhichTouchPBCcell w td (Rcore a));;
        ret (Some (valElDict, RsEl))
    end
  else ret None.

(** The locals that describe the sample after line 69. *)
Record sample : Type := {
  s_V : sgrid;               (* [V], already multiplied by -1 *)
  s_lvec : lvec_t;           (* [lvec] *)
  s_nDim : ndim_t;           (* [nDim] *)
  s_head : head_t;           (* [head] *)
  s_atoms : atoms_t;         (* [atoms_samp] *)
  s_lvec_samp : lvec_t;      (* [lvec_samp] *)
  s_head_samp : head_t       (* [head_samp] *)
}.

(** The grid loader chosen by the extension of a path, as in lines 61-68
    and 96-106; [None] when neither branch is taken ([V] stays [None]). *)
Definition load_by_extension (w : World) (lx lc : nat) (path : string)
  : M (option loaded) :=
  if endswith (lower path) ".xsf" then
    x <- call (EvLoadGrid lx path) (loadXSF w path);; ret (Some x)
  else if endswith (lower path) ".cube" then
    x <- call (EvLoadGrid lc path) (loadCUBE w path);; ret (Some x)
  else ret None.

(** Lines 57-69. *)
Definition load_sample (w : World) (a : Args) : M sample :=
  '(atoms_samp, _, lvec_samp) <-
     call (EvLoadGeometry (input a)) (loadGeometry w (input a));;
  let head_samp := primcoords2Xsf w atoms_samp lvec_samp in
  ld <- load_by_extension w 64 68 (input a);;
  match ld with
  | None =>
      raise (PyTypeError "unsupported operand type(s) for *=: 'NoneType' and 'int'")
  | Some (V, lvec, nDim, head) =>
      ret {| s_V := arr_imul V (-1); s_lvec := lvec; s_nDim := nDim;
             s_head := head; s_atoms := atoms_samp;
             s_lvec_samp := lvec_samp; s_head_samp := head_samp |}
  end.

(** Lines 71-76: a tip given by the script [tip.py]. *)
Definition tip_script (w : World) (p : Params) : M tipval :=
  match p_tip p with
  | TipToken s =>
      if String.eqb s ".py" then call EvExecTipScript (exec_tip_script w)
      else ret (p_tip p)
  | t => ret t
  end.

(** Lines 78-87.  The result is the local [rho_tip] (unassigned when no
    density file is given) and the new value of [PPU.params['tip']]. *)
Definition tip_density (w : World) (a : Args) (core : option core_t)
           (tip : tipval) : M (option sgrid * tipval) :=
  match tip_dens a with
  | Some td =>
      '(rho_tip, lvec_tip, _, head_tip) <- call (EvLoadGrid 81 td) (loadXSF w td);;
      rho_tip' <-
        (if bSubstractCore a then
           '(valElDict, (Rs_tip, elems_tip)) <- local "valElDict" core;;
           call (EvSubtractCore rho_tip)
                (subtractCoreDensities w rho_tip lvec_tip elems_tip Rs_tip
                                       valElDict (Rcore a) head_tip)
         else ret rho_tip);;
      ret (Some rho_tip', TipDensity (arr_neg rho_tip'))
  | None => ret (None, tip)
  end.

(** Lines 90-108: the sample potential under bias and its difference to
    the zero-bias potential.  [Vref_s] is [args.Vref] in both branches. *)
Definition kpfm_sample (w : World) (ks : string) (V : sgrid)
  : M (sgrid * lvec_t * ndim_t * head_t) :=
  let V_v0_aux := V in
  ld <- load_by_extension w 100 106 ks;;
  match ld with
  | None =>
      raise (PyTypeError "unsupported operand type(s) for -: 'NoneType' and 'float'")
  | Some (V_kpfm, lvec, nDim, head) =>
      match arr_sub V_kpfm V_v0_aux with
      | None => raise (PyValueError "operands could not be broadcast together")
      | Some dV_kpfm => ret (dV_kpfm, lvec, nDim, head)
      end
  end.

(** Line 121. *)
Definition is_tip_token (s : string) : bool :=
  (String.eqb s "Fit" || String.eqb s "fit" || String.eqb s "dipole"
   || String.eqb s "pz")%bool.

(** The locals assigned by lines 110-134: [Vref_t], [drho_kpfm] (each
    possibly unassigned) and [sigma]. *)
Definition tipvars : Type := (option (option Q) * option tipval * Q)%type.

(** Lines 123-134: three independent [if]s on [PPU.params['probeType']]. *)
Definition probe_table (probeType : string) (sigma : Q) : option tipval * Q :=
  let '(d, s) :=
    if String.eqb probeType "8"
    then (Some (TipMultipole [("pz", -0.045)]), 0.48) else (None, sigma) in
  let '(d, s) :=
    if String.eqb probeType "47"
    then (Some (TipMultipole [("pz", -0.21875)]), 0.7) else (d, s) in
  if String.eqb probeType "54"
  then (Some (TipMultipole [("pz", -0.250)]), 0.67) else (d, s).

Definition diff_density (rho_tip_kpfm rho_tip_v0_aux : sgrid) : M tipval :=
  match arr_sub rho_tip_kpfm rho_tip_v0_aux with
  | None => raise (PyValueError "operands could not be broadcast together")
  | Some d => ret (TipDensity d)
  end.

(** Lines 110-134. *)
Definition kpfm_tip (w : World) (a : Args) (p : Params)
           (rho_tip : option sgrid) (sigma : Q) : M tipvars :=
  let kt := KPFM_tip a in
  if endswith (lower kt) ".xsf" then
    rho_tip_v0_aux <- local "rho_tip" rho_tip;;
    '(rho_tip_kpfm, _, _, _) <- call (EvLoadGrid 114 kt) (loadXSF w kt);;
    drho_kpfm <- diff_density rho_tip_kpfm rho_tip_v0_aux;;
    ret (Some (Vref a), Some drho_kpfm, sigma)
  else if endswith (lower kt) ".cube" then
    rho_tip_v0_aux <- local "rho_tip" rho_tip;;
    match borh a with
    | None => raise (PyAttributeError "'Namespace' object has no attribute 'borh'")
    | Some b =>
        '(rho_tip_kpfm, _, _, _) <-
           call (EvLoadGrid 119 kt) (loadCUBE_density w kt b);;
        drho_kpfm <- diff_density rho_tip_kpfm rho_tip_v0_aux;;
        ret (Some (Vref a), Some drho_kpfm, sigma)
    end
  else if is_tip_token kt then
    let '(drho_kpfm, sigma') := probe_table (p_probeType p) sigma in
    ret (Some (Some (-0.1)), drho_kpfm, sigma')
  else ret (None, None, sigma).

Definition none_times_float : pyexc :=
  PyTypeError "unsupported operand type(s) for *: 'NoneType' and 'float'".

(** Lines 145-147: the loop over [i in range(nDim[0])], here over the list
    [idx] of the indices still to do. *)
Fixpoint kpfm_normalize (Vref_s : option Q) (Vref_t : option (option Q))
         (zpos : list Q) (idx : list nat) (F1 F2 : vgrid)
  : pyexc + (vgrid * vgrid) :=
  match idx with
  | [] => inr (F1, F2)
  | i :: idx' =>
      match nth_error F1 i with
      | None => inl (PyIndexError "FFkpfm_t0sV")
      | Some s1 =>
          match Vref_s with
          | None => inl none_times_float
          | Some vs =>
              let F1' := set_slice F1 i (slice_div s1 (vs * (nth i zpos 0 + 0.1))) in
              match nth_error F2 i with
              | None => inl (PyIndexError "FFkpfm_tVs0")
              | Some s2 =>
                  match Vref_t with
                  | None => inl (PyUnboundLocalError "Vref_t")
                  | Some None => inl none_times_float
                  | Some (Some vt) =>
                      kpfm_normalize Vref_s Vref_t zpos idx' F1'
                        (set_slice F2 i
                           (slice_div s2 (vt * (nth i zpos 0 + 0.1))))
                  end
              end
          end
      end
  end.

(** Line 144. *)
Definition zpos_of (a : Args) (lvec : lvec_t) (nDim : ndim_t) : list Q :=
  linspace (vz (lv0 lvec) - z0 a) (vz (lv3 lvec) - z0 a) (nd0 nDim).

Definition conv (a : Args) (V : sgrid) (lvec : lvec_t) (nDim : ndim_t)
           (tip : tipval) (sigma : option Q) : conv_call :=
  {| cc_V := V; cc_lvec := lvec; cc_nDim := nDim; cc_tip := tip;
     cc_computeVpot := energy a; cc_tilt := tilt a; cc_sigma := sigma |}.

(** What a name that aliases the kernel object sees after [computeElFF] has
    worked on it: a Python string cannot change, an array or a dictionary
    is in the state the call left it in. *)
Definition after_call (tip tip_left : tipval) : tipval :=
  match tip with
  | TipToken _ => tip
  | _ => tip_left
  end.

(** Lines 136-141: the two KPFM convolutions.  [tip_aux_2] is a copy of
    the kernel when a density file was given and another name of
    [PPU.params['tip']] otherwise; the result carries the value
    [PPU.params['tip']] has after the calls. *)
Definition kpfm_convs (w : World) (a : Args) (smp : sample) (tip : tipval)
           (dV_kpfm : sgrid) (lvec : lvec_t) (nDim : ndim_t)
           (drho_kpfm : option tipval) (sigma : Q)
  : M (vgrid * vgrid * tipval) :=
  let V_v0_aux2 := s_V smp in
  let tip_aux_2 := tip in
  '(FFkpfm_t0sV, _, tip_left) <-
     call (EvComputeElFF 140 (conv a dV_kpfm lvec nDim tip_aux_2 None))
          (computeElFF w (conv a dV_kpfm lvec nDim tip_aux_2 None));;
  let tip' := if is_some (tip_dens a) then tip else after_call tip tip_left in
  drho <- local "drho_kpfm" drho_kpfm;;
  '(FFkpfm_tVs0, _, _) <-
     call (EvComputeElFF 141 (conv a V_v0_aux2 lvec nDim drho (Some sigma)))
          (computeElFF w (conv a V_v0_aux2 lvec nDim drho (Some sigma)));;
  ret (FFkpfm_t0sV, FFkpfm_tVs0, tip').

(** Lines 143-151: normalisation and output of the two KPFM maps. *)
Definition kpfm_emit (w : World) (a : Args) (smp : sample) (lvec : lvec_t)
           (nDim : ndim_t) (Vref_s : option Q) (Vref_t : option (option Q))
           (FFkpfm_t0sV FFkpfm_tVs0 : vgrid) : M unit :=
  let zpos := zpos_of a lvec nDim in
  '(F1, F2) <- lift (kpfm_normalize Vref_s Vref_t zpos (seq 0 (nd0 nDim))
                                    FFkpfm_t0sV FFkpfm_tVs0);;
  save (EvSaveVec "FFkpfm_t0sV" F1)
       (save_vec_field w "FFkpfm_t0sV" F1 (s_lvec_samp smp) (output_format a)
                       (s_head_samp smp));;;
  save (EvSaveVec "FFkpfm_tVs0" F2)
       (save_vec_field w "FFkpfm_tVs0" F2 (s_lvec_samp smp) (output_format a)
                       (s_head_samp smp)).

(** Lines 89-151, entered when [args.KPFM_sample] is given.  The result is
    [PPU.params['tip']] and the locals [lvec] and [nDim], which lines 100
    and 106 assign again. *)
Definition kpfm_branch (w : World) (a : Args) (p : Params) (smp : sample)
           (rho_tip : option sgrid) (tip : tipval) (ks : string)
  : M (tipval * lvec_t * ndim_t) :=
  let sigma := p_sigma p in
  let Vref_s := Vref a in
  '(dV_kpfm, lvec, nDim, _) <- kpfm_sample w ks (s_V smp);;
  '(Vref_t, drho_kpfm, sigma) <- kpfm_tip w a p rho_tip sigma;;
  '(FFkpfm_t0sV, FFkpfm_tVs0, tip') <-
     kpfm_convs w a smp tip dV_kpfm lvec nDim drho_kpfm sigma;;
  kpfm_emit w a smp lvec nDim Vref_s Vref_t FFkpfm_t0sV FFkpfm_tVs0;;;
  ret (tip', lvec, nDim).

(** Lines 153-161. *)
Definition final (w : World) (a : Args) (smp : sample) (lvec : lvec_t)
           (nDim : ndim_t) (tip : tipval) : M unit :=
  '(FFel, Eel, _) <-
     call (EvComputeElFF 154 (conv a (s_V smp) lvec nDim tip None))
          (computeElFF w (conv a (s_V smp) lvec nDim tip None));;
  save (EvSaveVec "FFel" FFel)
       (save_vec_field w "FFel" FFel (s_lvec_samp smp) (output_format a)
                       (s_head_samp smp));;;
  if energy a then
    save (EvSaveScal "Eel" Eel)
         (save_scal_field w "Eel" Eel (s_lvec_samp smp) (output_format a)
                          (s_head_samp smp))
  else ret tt.

(** Lines 89 and 152: the KPFM branch is optional. *)
Definition kpfm_stage (w : World) (a : Args) (p : Params) (smp : sample)
           (rho_tip : option sgrid) (tip : tipval)
  : M (tipval * lvec_t * ndim_t) :=
  match KPFM_sample a with
  | Some ks => kpfm_branch w a p smp rho_tip tip ks
  | None => ret (tip, s_lvec smp, s_nDim smp)
  end.

Definition main (w : World) (a : Args) : M unit :=
  p <- load_params w;;
  core <- core_prep w a;;
  smp <- load_sample w a;;
  tip0 <- tip_script w p;;
  '(rho_tip, tip1) <- tip_density w a core tip0;;
  '(tip2, lvec, nDim) <- kpfm_stage w a p smp rho_tip tip1;;
  final w a smp lvec nDim tip2.

End Pipeline.

(** ** A small world to run the script in *)

Module Demo.
Import Pipeline.

Definition lvec_demo : lvec_t :=
  {| lv0 := (0, 0, 0); lv1 := (4, 0, 0); lv2 := (0, 4, 0); lv3 := (0, 0, 3) |}.

Definition nDim_demo : ndim_t := (2%nat, 1%nat, 2%nat).

Definition V_file : sgrid := [[[1; 2]]; [[3; 4]]].
Definition V_narrow_file : sgrid := [[[1]]; [[3]]].
Definition V_bias_file : sgrid := [[[2; 2]]; [[5; 8]]].
Definition rho_file : sgrid := [[[1; 0]]; [[0; 2]]].
Definition rho_bias_file : sgrid := [[[2; 0]]; [[0; 2]]].

Definition files_xsf (path : string) : outcome loaded :=
  if String.eqb path "sample.xsf" then inr (V_file, lvec_demo, nDim_demo, ["sample"])
  else if String.eqb path "narrow.xsf"
  then inr (V_narrow_file, lvec_demo, (2%nat, 1%nat, 1%nat), ["one column"])
  else if String.eqb path "sample_bias.xsf"
  then inr (V_bias_file, lvec_demo, nDim_demo, ["sample under bias"])
  else if String.eqb path "tip.xsf" then inr (rho_file, lvec_demo, nDim_demo, ["tip"])
  else if String.eqb path "tip_bias.xsf"
  then inr (rho_bias_file, lvec_demo, nDim_demo, ["tip under bias"])
  else inl "No such file or directory".

Definition grid_sum (g : sgrid) : Q :=
  fold_right Qplus 0 (List.concat (List.concat g)).

(** The weight a stand-in convolution gives to a kernel. *)
Definition tip_weight (t : tipval) : Q :=
  match t with
  | TipToken _ => 1
  | TipMultipole m => fold_right Qplus 0 (map snd m)
  | TipDensity rho => grid_sum rho
  end.

(** A dense kernel is turned upside down in place, as the comment of
    line 136 says of [computeElFF]. *)
Definition tip_flipped (t : tipval) : tipval :=
  match t with
  | TipDensity rho => TipDensity (rev (map (fun s => rev (map (@rev Q) s)) rho))
  | _ => t
  end.

(** [a.shape] of a rectangular array. *)
Definition shape (a : sgrid) : nat * nat * nat :=
  (List.length a, List.length (hd [] a), List.length (hd [] (hd [] a))).

Definition same_shape (a b : sgrid) : bool :=
  let '(a0, a1, a2) := shape a in
  let '(b0, b1, b2) := shape b in
  ((a0 =? b0) && (a1 =? b1) && (a2 =? b2))%nat.

(** A stand-in for [computeElFF]: it refuses a dense kernel whose shape
    differs from that of the potential, scales the potential by the weight
    of the kernel and leaves a dense kernel flipped. *)
Definition conv_demo (c : conv_call) : outcome (vgrid * option sgrid * tipval) :=
  let ok := match cc_tip c with
            | TipDensity rho => same_shape (cc_V c) rho
            | _ => true
            end in
  if ok then
    let k := tip_weight (cc_tip c) in
    inr (grid_map (fun v => (0, 0, Qred (v * k))) (cc_V c),
         if cc_computeVpot c then Some (grid_map (fun v => Qred (v * k)) (cc_V c))
         else None,
         tip_flipped (cc_tip c))
  else inl "ShapeMismatch".

Definition world_demo : World :=
  {| loadParams := inr {| p_tip := TipToken "s"; p_sigma := 0.7; p_probeType := "8" |};
     loadValenceElectronDict := inr [(6%Z, 4%nat); (8%Z, 6%nat)];
     getAtomsWhichTouchPBCcell := fun _ _ => inr ([(0, 0, 0)], [6%Z]);
     loadGeometry := fun _ => inr ([(6%Z, (0, 0, 0), 0)], nDim_demo, lvec_demo);
     primcoords2Xsf := fun _ _ => ["geometry"];
     loadXSF := files_xsf;
     loadCUBE := fun _ => inl "No such file or directory";
     loadCUBE_density := fun _ _ => inl "No such file or directory";
     exec_tip_script := inl "name 'tipMultipole' is not defined";
     subtractCoreDensities :=
       fun rho _ _ _ _ _ _ => inr (grid_map (fun v => Qred (v - 1)) rho);
     computeElFF := conv_demo;
     save_vec_field := fun _ _ _ _ _ => inr tt;
     save_scal_field := fun _ _ _ _ _ => inr tt |}.

(** [ppafm-generate-elff -i sample.xsf] *)
Definition args_plain : Args :=
  {| input := "sample.xsf"; output_format := "xsf"; Rcore := 0.7;
     energy := false; tip_dens := None; doDensity := false; tilt := 0;
     KPFM_tip := "Fit"; KPFM_sample := None; Vref := None; z0 := 0;
     borh := None |}.

(** [ppafm-generate-elff -i sample.xsf --tip_dens tip.xsf --doDensity
    --energy --KPFM_sample sample_bias.xsf --Vref 1] *)
Definition args_kpfm : Args :=
  {| input := "sample.xsf"; output_format := "xsf"; Rcore := 0.7;
     energy := true; tip_dens := Some "tip.xsf"; doDensity := true; tilt := 0;
     KPFM_tip := "Fit"; KPFM_sample := Some "sample_bias.xsf";
     Vref := Some 1; z0 := 0; borh := None |}.

(** Core subtraction asked for, but no tip density given:
    [ppafm-generate-elff -i sample.xsf --doDensity --Rcore 0.7] *)
Definition args_core_no_density : Args :=
  {| input := "sample.xsf"; output_format := "xsf"; Rcore := 0.7;
     energy := false; tip_dens := None; doDensity := true; tilt := 0;
     KPFM_tip := "Fit"; KPFM_sample := None; Vref := None; z0 := 0;
     borh := None |}.

(** A KPFM run without [--Vref]. *)
Definition args_kpfm_no_vref : Args :=
  {| input := "sample.xsf"; output_format := "xsf"; Rcore := 0.7;
     energy := true; tip_dens := Some "tip.xsf"; doDensity := true; tilt := 0;
     KPFM_tip := "Fit"; KPFM_sample := Some "sample_bias.xsf";
     Vref := None; z0 := 0; borh := None |}.

(** A KPFM run on a sample grid that is narrower than the tip grid. *)
Definition args_kpfm_narrow : Args :=
  {| input := "narrow.xsf"; output_format := "xsf"; Rcore := 0.7;
     energy := true; tip_dens := Some "tip.xsf"; doDensity := false; tilt := 0;
     KPFM_tip := "Fit"; KPFM_sample := Some "sample_bias.xsf";
     Vref := Some 1; z0 := 0; borh := None |}.

(** A KPFM run with the tip under bias from a file, and no [--tip_dens]. *)
Definition args_kpfm_tip_file : Args :=
  {| input := "sample.xsf"; output_format := "xsf"; Rcore := 0.7;
     energy := false; tip_dens := None; doDensity := false; tilt := 0;
     KPFM_tip := "tip_bias.XSF"; KPFM_sample := Some "sample_bias.xsf";
     Vref := Some 1; z0 := 0; borh := None |}.

(** The potential of [sample.xsf] after line 69. *)
Definition V_demo : sgrid := [[[-1; -2]]; [[-3; -4]]].

(** The kernel built from [tip.xsf] by lines 78-87 with core subtraction. *)
Definition kernel_demo : tipval := TipDensity [[[0; 1]]; [[1; -1]]].

(** The vector fields a run has written, in order. *)
Definition saved_maps (t : list event) : list (string * vgrid) :=
  flat_map (fun e => match e with EvSaveVec n F => [(n, F)] | _ => [] end) t.

(** The two KPFM maps of the run [main world_demo args_kpfm]. *)
Definition F_t0sV_demo : vgrid :=
  Eval vm_compute in
    nth 0 (map snd (saved_maps (snd (Pipeline.main world_demo args_kpfm)))) [].

Definition F_tVs0_demo : vgrid :=
  Eval vm_compute in
    nth 1 (map snd (saved_maps (snd (Pipeline.main world_demo args_kpfm)))) [].

End Demo.

(** ** Reading the log of a run *)

Module Trace.

Definition is_conv (e : event) : bool :=
  match e with EvComputeElFF _ _ => true | _ => false end.

Definition is_save (e : event) : bool :=
  match e with EvSaveVec _ _ | EvSaveScal _ _ => true | _ => false end.

(** A stretch of the log with no convolution and no file written. *)
Definition quietb (t : list event) : bool :=
  forallb (fun e => negb (is_conv e || is_save e)) t.

(** The run was ended by a [raise] of the script itself: the only errors
    the script words on its own. *)
Definition raised_by_script {A : Type} (r : pyexc + A) : bool :=
  match r with
  | inl (PyException _) => true
  | _ => false
  end.

(** [x] is logged before [y]. *)
Definition before (x y : event) (t : list event) : Prop :=
  exists t1 t2 t3, t = t1 ++ x :: t2 ++ y :: t3.

(** What the KPFM branch can log from line 140 on: the two convolutions,
    the second only after the first has succeeded, then the two maps, only
    after both have. *)
Definition kpfm_shape (w : World) (t : list event) : Prop :=
  t = [] \/
  exists c1,
    t = [EvComputeElFF 140 c1] \/
    exists c2 o1,
      computeElFF w c1 = inr o1 /\
      (t = [EvComputeElFF 140 c1; EvComputeElFF 141 c2] \/
       exists o2 F1,
         computeElFF w c2 = inr o2 /\
         (t = [EvComputeElFF 140 c1; EvComputeElFF 141 c2;
               EvSaveVec "FFkpfm_t0sV" F1] \/
          exists F2,
            t = [EvComputeElFF 140 c1; EvComputeElFF 141 c2;
                 EvSaveVec "FFkpfm_t0sV" F1; EvSaveVec "FFkpfm_tVs0" F2])).

(** What lines 153-161 can log: the main convolution, then, after it has
    succeeded, the force field and the energy. *)
Definition final_shape (w : World) (t : list event) : Prop :=
  t = [] \/
  exists c,
    t = [EvComputeElFF 154 c] \/
    exists o F,
      computeElFF w c = inr o /\
      (t = [EvComputeElFF 154 c; EvSaveVec "FFel" F] \/
       exists E,
         t = [EvComputeElFF 154 c; EvSaveVec "FFel" F; EvSaveScal "Eel" E]).

(** The local variable a grid loader call assigns, by source line. *)
Definition grid_var (line : nat) : string :=
  if ((line =? 64) || (line =? 68))%nat then "V"
  else if (line =? 81)%nat then "rho_tip"
  else if ((line =? 100) || (line =? 106))%nat then "V_kpfm"
  else if ((line =? 114) || (line =? 119))%nat then "rho_tip_kpfm"
  else "".

(** The grids a run has read from files, in order. *)
Definition grid_loads (t : list event) : list string :=
  flat_map (fun e => match e with EvLoadGrid l _ => [grid_var l] | _ => [] end) t.

(** [l] is empty or holds [v] alone. *)
Definition at_most (v : string) (l : list string) : bool :=
  match l with
  | [] => true
  | [x] => String.eqb x v
  | _ => false
  end.

(** The array a grid loader delivered, if it was called and succeeded. *)
Definition loaded_data (m : M (option loaded)) : option sgrid :=
  match m with
  | (inr (Some (V, _, _, _)), _) => Some V
  | _ => None
  end.

(** Everything before line 89 went through: the values the stages
    returned and the events they logged. *)
Definition prefix_ok (w : World) (a : Args) (p : Params)
           (core : option Pipeline.core_t) (smp : Pipeline.sample)
           (tip0 : tipval) (rho_tip : option sgrid) (tip1 : tipval)
           (tpre : list event) : Prop :=
  exists t0 t1 t2 t3 t4,
    Pipeline.load_params w = (inr p, t0) /\
    Pipeline.core_prep w a = (inr core, t1) /\
    Pipeline.load_sample w a = (inr smp, t2) /\
    Pipeline.tip_script w p = (inr tip0, t3) /\
    Pipeline.tip_density w a core tip0 = (inr (rho_tip, tip1), t4) /\
    tpre = t0 ++ t1 ++ t2 ++ t3 ++ t4.

(** The KPFM branch reached line 149: the two convolutions [c1], [c2] it
    made, their raw outputs, the value of [Vref_t] and the two normalised
    maps. *)
Definition kpfm_done (w : World) (a : Args) (p : Params)
           (smp : Pipeline.sample) (rho_tip : option sgrid) (tip : tipval)
           (ks : string) (c1 : conv_call) (raw1 : vgrid) (c2 : conv_call)
           (raw2 : vgrid) (Vt : option (option Q)) (F1 F2 : vgrid) : Prop :=
  exists dV lv nd hd ts d sg tt E1 tl1 E2 tl2,
    Pipeline.kpfm_sample w ks (Pipeline.s_V smp) = (inr (dV, lv, nd, hd), ts) /\
    Pipeline.kpfm_tip w a p rho_tip (p_sigma p) = (inr (Vt, Some d, sg), tt) /\
    c1 = Pipeline.conv a dV lv nd tip None /\
    c2 = Pipeline.conv a (Pipeline.s_V smp) lv nd d (Some sg) /\
    computeElFF w c1 = inr (raw1, E1, tl1) /\
    computeElFF w c2 = inr (raw2, E2, tl2) /\
    Pipeline.kpfm_normalize (Vref a) Vt (Pipeline.zpos_of a lv nd)
                            (seq 0 (nd0 nd)) raw1 raw2
    = inr (F1, F2).

(** The table behind lines 123-134: the [pz] slope and the width [sigma]
    of the analytic tip models, by [probeType]. *)
Definition probe_entry (probeType : string) : option (Q * Q) :=
  if String.eqb probeType "8" then Some (-0.045, 0.48)
  else if String.eqb probeType "47" then Some (-0.21875, 0.7)
  else if String.eqb probeType "54" then Some (-0.250, 0.67)
  else None.

End Trace.

(** ** The correlation behind [PPH.computeElFF] *)

Module FFTConvolution.
Import mathcomp.boot.boot mathcomp.order.order mathcomp.algebra.algebra
       mathcomp.field.algC mathcomp.field.cyclotomic.
Import GRing.Theory Num.Theory.
Local Close Scope Q_scope.
Local Close Scope list_scope.
Local Close Scope string_scope.
Local Open Scope ring_scope.

(** The samples of a grid are rationals ([rat]); their transforms live in
    the algebraic complex numbers ([algC]), which hold every root of
    unity and have the conjugation and the real part of the complex
    numbers. *)

(** A primitive [(n+1)]-th root of unity.  numpy takes
    [exp(2 pi i / (n+1))]; the correlation does not depend on the choice. *)
Definition omega (n : nat) : algC := sval (C_prim_root_exists (ltn0Sn n)).

Section Grid.

(** The grid has [nz+1], [ny+1] and [nx+1] samples along its axes: no axis
    is empty. *)
Variables nz ny nx : nat.

(** The index of a voxel.  Indices add and subtract modulo the shape of the
    grid: the periodic boundary of the discrete transform. *)
Definition voxel : Type := ('I_nz.+1 * 'I_ny.+1 * 'I_nx.+1)%type.

Definition nvox : nat := (nz.+1 * ny.+1 * nx.+1)%N.

(** [exp(2 pi i (kz rz / (nz+1) + ky ry / (ny+1) + kx rx / (nx+1)))]. *)
Definition phase (k r : voxel) : algC :=
  omega nz ^+ (k.1.1 * r.1.1) * omega ny ^+ (k.1.2 * r.1.2)
  * omega nx ^+ (k.2 * r.2).

(** [np.fft.fftn]. *)
Definition fftn (f : voxel -> algC) (k : voxel) : algC :=
  \sum_r f r * (phase k r)^-1.

(** [np.fft.ifftn]. *)
Definition ifftn (g : voxel -> algC) (r : voxel) : algC :=
  nvox%:R^-1 * \sum_k g k * phase k r.

(** Modelled from the spec: [PPH.computeElFF] and the module
    [ppafm.fieldFFT] it calls are not under src/.  Section 4.1 of the spec
    gives the energy as: forward-transform both fields, multiply one by the
    complex conjugate of the other element-wise, inverse-transform, and
    take the real part.  The transform that is conjugated is that of the
    kernel [rho]. *)
Definition correlate (V rho : voxel -> rat) (R : voxel) : algC :=
  'Re (ifftn (fun k => fftn (fun r => ratr (V r)) k
                       * (fftn (fun r => ratr (rho r)) k)^*) R).

(** The cross-correlation [Energy(R) = sum over r of rho(r - R) * V(r)]. *)
Definition cross_correlation (V rho : voxel -> rat) (R : voxel) : rat :=
  \sum_(r : voxel) rho (r - R) * V r.

(** The dot product [sum over r of rho(r) * V(r)]. *)
Definition dot_product (V rho : voxel -> rat) : rat :=
  \sum_(r : voxel) rho r * V r.

End Grid.

Arguments phase {nz ny nx} k r.
Arguments fftn {nz ny nx} f k.
Arguments ifftn {nz ny nx} g r.
Arguments correlate {nz ny nx} V rho R.
Arguments cross_correlation {nz ny nx} V rho R.
Arguments dot_product {nz ny nx} V rho.

End FFTConvolution.

(** ** More to read from the command line and the log *)

Module RunLog.

(** The source lines of the convolutions a run has started, in order. *)
Definition conv_lines (t : list event) : list nat :=
  flat_map (fun e => match e with EvComputeElFF l _ => [l] | _ => [] end) t.

(** The names of the files a run has written, in order. *)
Definition saved_names (t : list event) : list string :=
  flat_map (fun e => match e with
                     | EvSaveVec n _ | EvSaveScal n _ => [n]
                     | _ => []
                     end) t.

(** The same command line with other values of [--KPFM_tip], [--Vref],
    [--z0] and [borh]. *)
Definition with_kpfm_options (a : Args) (kt : string) (vr : option Q) (z : Q)
           (b : option bool) : Args :=
  {| input := input a; output_format := output_format a; Rcore := Rcore a;
     energy := energy a; tip_dens := tip_dens a; doDensity := doDensity a;
     tilt := tilt a; KPFM_tip := kt; KPFM_sample := KPFM_sample a;
     Vref := vr; z0 := z; borh := b |}.

(** The same command line with other values of [--doDensity] and
    [--Rcore]. *)
Definition with_core_options (a : Args) (dd : bool) (rc : Q) : Args :=
  {| input := input a; output_format := output_format a; Rcore := rc;
     energy := energy a; tip_dens := tip_dens a; doDensity := dd;
     tilt := tilt a; KPFM_tip := KPFM_tip a; KPFM_sample := KPFM_sample a;
     Vref := Vref a; z0 := z0 a; borh := borh a |}.

(** The call that wrote a file succeeded when it was given the lattice
    [lvec], the format [fmt] and the header [head]. *)
Definition written_with (w : World) (e : event) (lvec : lvec_t) (fmt : string)
           (head : head_t) : Prop :=
  match e with
  | EvSaveVec n F => save_vec_field w n F lvec fmt head = inr tt
  | EvSaveScal n E => save_scal_field w n E lvec fmt head = inr tt
  | _ => True
  end.

End RunLog.

(** ** More runs in the small world *)

Module Scenarios.
Import Pipeline Demo.

(** [ppafm-generate-elff -i sample.txt] *)
Definition args_input_txt : Args :=
  {| input := "sample.txt"; output_format := "xsf"; Rcore := 0.7;
     energy := false; tip_dens := None; doDensity := false; tilt := 0;
     KPFM_tip := "Fit"; KPFM_sample := None; Vref := None; z0 := 0;
     borh := None |}.

(** A KPFM run whose sample under bias is not an [.xsf] or [.cube] file. *)
Definition args_kpfm_sample_txt : Args :=
  {| input := "sample.xsf"; output_format := "xsf"; Rcore := 0.7;
     energy := true; tip_dens := Some "tip.xsf"; doDensity := true; tilt := 0;
     KPFM_tip := "Fit"; KPFM_sample := Some "sample_bias.txt";
     Vref := Some 1; z0 := 0; borh := None |}.

(** A KPFM run with [--KPFM_tip quadrupole]: no file and no known token. *)
Definition args_kpfm_unknown_tip : Args :=
  {| input := "sample.xsf"; output_format := "xsf"; Rcore := 0.7;
     energy := true; tip_dens := Some "tip.xsf"; doDensity := true; tilt := 0;
     KPFM_tip := "quadrupole"; KPFM_sample := Some "sample_bias.xsf";
     Vref := Some 1; z0 := 0; borh := None |}.

(** A KPFM run with the tip density under bias in a [.cube] file. *)
Definition args_kpfm_tip_cube : Args :=
  {| input := "sample.xsf"; output_format := "xsf"; Rcore := 0.7;
     energy := true; tip_dens := Some "tip.xsf"; doDensity := true; tilt := 0;
     KPFM_tip := "tip_bias.cube"; KPFM_sample := Some "sample_bias.xsf";
     Vref := Some 1; z0 := 0; borh := None |}.

End Scenarios.

(** ** KPFM runs with both densities from files, and on a raised grid *)

Module BiasRuns.
Import Pipeline Demo.

(** A KPFM run with the tip density and the tip density under bias from
    files: [ppafm-generate-elff -i sample.xsf --tip_dens tip.xsf --doDensity
    --KPFM_sample sample_bias.xsf --KPFM_tip tip_bias.xsf --Vref 1] *)
Definition args_kpfm_densities : Args :=
  {| input := "sample.xsf"; output_format := "xsf"; Rcore := 0.7;
     energy := false; tip_dens := Some "tip.xsf"; doDensity := true; tilt := 0;
     KPFM_tip := "tip_bias.xsf"; KPFM_sample := Some "sample_bias.xsf";
     Vref := Some 1; z0 := 0; borh := None |}.

(** A grid of three slices whose origin is at height 2 and whose cell is 1
    high: its slices lie between the heights 2 and 3. *)
Definition lvec_raised : lvec_t :=
  {| lv0 := (0, 0, 2); lv1 := (4, 0, 0); lv2 := (0, 4, 0); lv3 := (0, 0, 1) |}.

Definition nDim_raised : ndim_t := (3%nat, 1%nat, 1%nat).

Definition V_raised_file : sgrid := [[[1]]; [[2]]; [[3]]].
Definition V_raised_bias_file : sgrid := [[[2]]; [[4]]; [[7]]].

Definition files_raised (path : string) : outcome loaded :=
  if String.eqb path "sample.xsf"
  then inr (V_raised_file, lvec_raised, nDim_raised, ["sample"])
  else if String.eqb path "sample_bias.xsf"
  then inr (V_raised_bias_file, lvec_raised, nDim_raised, ["sample under bias"])
  else inl "No such file or directory".

(** The small world with the two sample files on the raised grid. *)
Definition world_raised : World :=
  {| loadParams := loadParams world_demo;
     loadValenceElectronDict := loadValenceElectronDict world_demo;
     getAtomsWhichTouchPBCcell := getAtomsWhichTouchPBCcell world_demo;
     loadGeometry := fun _ => inr ([(6%Z, (0, 0, 0), 0)], nDim_raised, lvec_raised);
     primcoords2Xsf := primcoords2Xsf world_demo;
     loadXSF := files_raised;
     loadCUBE := loadCUBE world_demo;
     loadCUBE_density := loadCUBE_density world_demo;
     exec_tip_script := exec_tip_script world_demo;
     subtractCoreDensities := subtractCoreDensities world_demo;
     computeElFF := conv_demo;
     save_vec_field := save_vec_field world_demo;
     save_scal_field := save_scal_field world_demo |}.

(** [ppafm-generate-elff -i sample.xsf --KPFM_sample sample_bias.xsf
    --Vref 1] *)
Definition args_raised : Args :=
  {| input := "sample.xsf"; output_format := "xsf"; Rcore := 0.7;
     energy := false; tip_dens := None; doDensity := false; tilt := 0;
     KPFM_tip := "Fit"; KPFM_sample := Some "sample_bias.xsf";
     Vref := Some 1; z0 := 0; borh := None |}.

End BiasRuns.

(** ** The charge-ring GUI (tests/ChargeRings/CombinedChargeRingsGUI.py) *)

Module ChargeRingsGUI.

(** [a * b] on 3D arrays, with numpy's broadcasting ([None]: shapes that
    cannot be broadcast). *)
Definition arr_mul (a b : grid Q) : option (grid Q) :=
  broadcast (broadcast (broadcast (fun x y => Some (x * y)))) a b.

(** [np.sum(a, axis=-1)] on a 3D array.  The order in which numpy adds the
    terms does not matter for exact numbers. *)
Definition sum_last (a : grid Q) : list (list Q) :=
  map (map (fold_right Qplus 0)) a.

(** Lines 336-339.  [Qsite] is the argument [Q], of shape
    [(npix, npix, nsite)] like [T]. *)
Definition getSTM_map (Qsite T : grid Q) (dQ : Q) : option (list (list Q)) :=
  let Q_perturbed := grid_map (fun q => q * (1 + dQ)) Qsite in
  option_map sum_last (arr_mul Q_perturbed T).

(** Lines 145-152.  [filename] is what the file dialog returned (the empty
    string when it was cancelled) and [values] what [get_param_values]
    returns; the result is the file opened for writing and what is dumped
    into it. *)
Definition save_parameters {P : Type} (values : P) (filename : string)
  : option (string * P) :=
  if String.eqb filename "" then None
  else
    let filename :=
      if negb (endswith filename ".json") then (filename ++ ".json")%string
      else filename in
    Some (filename, values).

End ChargeRingsGUI.

(** * Properties *)

Module ArrayFacts.

Lemma Qmul_m1 (v : Q) : v * (-1) = - v.
Proof.
  destruct v as [n d]. unfold Qmult, Qopp. cbn [Qnum Qden].
  f_equal; [lia | apply Pos.mul_1_r].
Qed.

Lemma arr_imul_m1 (V : sgrid) : arr_imul V (-1) = arr_neg V.
Proof.
  unfold arr_imul, arr_neg, grid_map.
  apply map_ext; intro s. apply map_ext; intro l. apply map_ext; intro v.
  apply Qmul_m1.
Qed.

Lemma nth_error_set_slice_same {A : Type} (F : list A) (i : nat) (s s0 : A) :
  nth_error F i = Some s0 -> nth_error (set_slice F i s) i = Some s.
Proof.
  revert i. induction F as [|x F IH]; intros [|i] H; simpl in *;
    try discriminate; auto.
Qed.

Lemma nth_error_set_slice_other {A : Type} (F : list A) (i j : nat) (s : A) :
  i <> j -> nth_error (set_slice F i s) j = nth_error F j.
Proof.
  revert i j. induction F as [|x F IH]; intros [|i] [|j] H; simpl;
    try reflexivity; try (exfalso; apply H; reflexivity).
  apply IH. intro E. apply H. now f_equal.
Qed.

Lemma nth_map_seq (f : nat -> Q) (n i : nat) :
  (i < n)%nat -> nth i (map f (seq 0 n)) 0 = f i.
Proof.
  intro H. rewrite (nth_indep _ 0 (f 0%nat)) by (rewrite length_map, length_seq; exact H).
  rewrite map_nth, seq_nth by exact H. reflexivity.
Qed.

(** The samples of [linspace] move with its end points. *)
Lemma linspace_shift (a b z : Q) (n i : nat) :
  (i < n)%nat ->
  nth i (linspace (a - z) (b - z) n) 0 == nth i (linspace a b n) 0 - z.
Proof.
  intro H. destruct n as [|[|n]]; [lia| |].
  - assert (i = 0%nat) by lia. subst. reflexivity.
  - unfold linspace. rewrite !nth_map_seq by exact H.
    destruct (i =? S n)%nat; [reflexivity|].
    assert (Hd : ~ inject_Z (Z.of_nat (S n)) == 0).
    { unfold Qeq. cbn [Qnum Qden inject_Z]. lia. }
    field. exact Hd.
Qed.

(** The samples of [linspace]: with one sample, the start; with more, the
    start plus the fraction [i / (num - 1)] of the way to the stop. *)
Lemma linspace_sample (a b : Q) (n i : nat) :
  (i < n)%nat ->
  (n = 1%nat -> nth i (linspace a b n) 0 == a) /\
  ((1 < n)%nat ->
   nth i (linspace a b n) 0
   == a + inject_Z (Z.of_nat i) / inject_Z (Z.of_nat (n - 1)) * (b - a)).
Proof.
  intro H. split.
  - intros ->. assert (i = 0%nat) by lia. subst. reflexivity.
  - intro Hn. destruct n as [|[|n]]; [lia|lia|].
    unfold linspace. rewrite nth_map_seq by exact H.
    replace (S (S n) - 1)%nat with (S n) by lia.
    assert (Hd : ~ inject_Z (Z.of_nat (S n)) == 0).
    { unfold Qeq. cbn [Qnum Qden inject_Z]. lia. }
    destruct (i =? S n)%nat eqn:E.
    + apply Nat.eqb_eq in E. subst i. field. exact Hd.
    + field. exact Hd.
Qed.

(** Dividing a slice divides the three components of every voxel. *)
Lemma slice_div_voxels (s : list (list vec3)) (c : Q) :
  slice_div s c = map (map (fun '(x, y, z) => (x / c, y / c, z / c))) s.
Proof.
  unfold slice_div. apply map_ext; intro row. apply map_ext; intros [[x y] z].
  reflexivity.
Qed.

End ArrayFacts.

Module MonadFacts.

Lemma bind_cases {A B : Type} (m : M A) (f : A -> M B) r tr :
  bind m f = (r, tr) ->
  (exists e, m = (inl e, tr) /\ r = inl e) \/
  (exists x t1 t2, m = (inr x, t1) /\ f x = (r, t2) /\ tr = t1 ++ t2).
Proof.
  unfold bind. destruct m as [[e|x] t]; intro H.
  - inversion H; subst. left. eauto.
  - destruct (f x) as [r' t'] eqn:E. inversion H; subst. right. eauto 6.
Qed.

Lemma bind_inl {A B : Type} (m : M A) (f : A -> M B) e t :
  m = (inl e, t) -> bind m f = (inl e, t).
Proof. intros ->. reflexivity. Qed.

Lemma bind_inr {A B : Type} (m : M A) (f : A -> M B) x t r t' :
  m = (inr x, t) -> f x = (r, t') -> bind m f = (r, t ++ t').
Proof. intros -> H. unfold bind. now rewrite H. Qed.

Lemma bind_ok {A B : Type} (m : M A) (f : A -> M B) y tr :
  bind m f = (inr y, tr) ->
  exists x t1 t2, m = (inr x, t1) /\ f x = (inr y, t2) /\ tr = t1 ++ t2.
Proof.
  intro H. apply bind_cases in H.
  destruct H as [(e & _ & H) | H]; [discriminate | exact H].
Qed.

End MonadFacts.

Import MonadFacts.

(** Splits a hypothesis [bind m f = (r, t)] into the case where [m] raised
    and the case where it returned. *)
Ltac inv_bind H :=
  let e := fresh "e" in
  let x := fresh "x" in
  let t1 := fresh "t" in
  let t2 := fresh "t" in
  let Hm := fresh "Hm" in
  apply bind_cases in H;
  destruct H as [(e & Hm & ->) | (x & t1 & t2 & Hm & H & ->)];
  [ | cbv beta in H ].

Tactic Notation "inv_bind" hyp(H) "as" ident(x) ident(t1) ident(Hm) :=
  let e := fresh "e" in
  let t2 := fresh "rest" in
  apply bind_cases in H;
  destruct H as [(e & Hm & ->) | (x & t1 & t2 & Hm & H & ->)];
  [ | cbv beta in H ].

(** The same for a [bind] that returned. *)
Tactic Notation "inv_ok" hyp(H) "as" ident(x) ident(t1) ident(Hm) :=
  let t2 := fresh "rest" in
  apply bind_ok in H;
  destruct H as (x & t1 & t2 & Hm & H & ->);
  cbv beta in H.

(** Opens a hypothesis about one of the primitive actions of the monad. *)
Ltac inv_prim H :=
  match type of H with
  | call _ ?o = _ =>
      unfold call in H; destruct o eqn:?; inversion H; subst; clear H
  | save _ ?o = _ =>
      unfold save in H; destruct o eqn:?; inversion H; subst; clear H
  | lift _ = _ => unfold lift in H; inversion H; subst; clear H
  | local _ ?v = _ =>
      unfold local, ret, raise in H; destruct v eqn:?; inversion H; subst; clear H
  | ret _ = _ => unfold ret in H; inversion H; subst; clear H
  | raise _ = _ => unfold raise in H; inversion H; subst; clear H
  end.

Ltac break_match :=
  match goal with
  | |- context [match ?x with _ => _ end] =>
      lazymatch x with
      | context [match _ with _ => _ end] => fail
      | _ => destruct x eqn:?
      end
  end.

Module StageFacts.
Import Pipeline Trace ArrayFacts.

Ltac quiet_tac :=
  cbv beta delta [call save lift local ret raise bind] ;
  repeat (break_match; cbn [fst snd app]); reflexivity.

Lemma load_params_quiet w : quietb (snd (load_params w)) = true.
Proof. unfold load_params. quiet_tac. Qed.

Lemma core_prep_quiet w a : quietb (snd (core_prep w a)) = true.
Proof. unfold core_prep. quiet_tac. Qed.

Lemma load_by_extension_quiet w lx lc path :
  quietb (snd (load_by_extension w lx lc path)) = true.
Proof. unfold load_by_extension. quiet_tac. Qed.

Lemma load_sample_quiet w a : quietb (snd (load_sample w a)) = true.
Proof. unfold load_sample, load_by_extension. quiet_tac. Qed.

Lemma tip_script_quiet w p : quietb (snd (tip_script w p)) = true.
Proof. unfold tip_script. quiet_tac. Qed.

Lemma tip_density_quiet w a core tip : quietb (snd (tip_density w a core tip)) = true.
Proof. unfold tip_density. quiet_tac. Qed.

Lemma kpfm_sample_quiet w ks V : quietb (snd (kpfm_sample w ks V)) = true.
Proof. unfold kpfm_sample, load_by_extension. quiet_tac. Qed.

Lemma kpfm_tip_quiet w a p rho sg : quietb (snd (kpfm_tip w a p rho sg)) = true.
Proof. unfold kpfm_tip, diff_density. quiet_tac. Qed.

End StageFacts.

Module RunFacts.
Import Pipeline Trace ArrayFacts StageFacts.

Lemma quietb_app t1 t2 : quietb (t1 ++ t2) = (quietb t1 && quietb t2)%bool.
Proof. apply forallb_app. Qed.

Lemma quiet_in t e :
  quietb t = true -> In e t -> is_conv e = false /\ is_save e = false.
Proof.
  unfold quietb. rewrite forallb_forall. intros H Hin.
  specialize (H e Hin). destruct (is_conv e), (is_save e); auto; discriminate.
Qed.

Lemma stage_quiet {A : Type} (m : M A) r t :
  quietb (snd m) = true -> m = (r, t) -> quietb t = true.
Proof. intros H ->. exact H. Qed.

(** A run either stops before line 89 without a convolution or a file
    written, or goes through the optional KPFM branch and, if that
    returns, through lines 153-161. *)
Lemma main_run w a r tr :
  main w a = (r, tr) ->
  (exists e, r = inl e /\ quietb tr = true) \/
  exists p core smp tip0 rho_tip tip1 tpre rk tk,
    prefix_ok w a p core smp tip0 rho_tip tip1 tpre /\
    quietb tpre = true /\
    kpfm_stage w a p smp rho_tip tip1 = (rk, tk) /\
    ((exists e, rk = inl e /\ r = inl e /\ tr = tpre ++ tk) \/
     (exists tip2 lv nd tf,
         rk = inr (tip2, lv, nd) /\
         final w a smp lv nd tip2 = (r, tf) /\
         tr = tpre ++ tk ++ tf)).
Proof.
  intro H. unfold main in H.
  inv_bind H as p t0 H0.
  { left. eexists; split; eauto. eapply stage_quiet; [apply load_params_quiet|eauto]. }
  pose proof (stage_quiet _ _ _ (load_params_quiet w) H0) as Q0.
  inv_bind H as core t1 H1.
  { left. eexists; split; eauto. rewrite quietb_app, Q0.
    eapply stage_quiet; [apply core_prep_quiet|eauto]. }
  pose proof (stage_quiet _ _ _ (core_prep_quiet w a) H1) as Q1.
  inv_bind H as smp t2 H2.
  { left. eexists; split; eauto. rewrite !quietb_app, Q0, Q1.
    eapply stage_quiet; [apply load_sample_quiet|eauto]. }
  pose proof (stage_quiet _ _ _ (load_sample_quiet w a) H2) as Q2.
  inv_bind H as tip0 t3 H3.
  { left. eexists; split; eauto. rewrite !quietb_app, Q0, Q1, Q2.
    eapply stage_quiet; [apply tip_script_quiet|eauto]. }
  pose proof (stage_quiet _ _ _ (tip_script_quiet w p) H3) as Q3.
  inv_bind H as rt t4 H4.
  { left. eexists; split; eauto. rewrite !quietb_app, Q0, Q1, Q2, Q3.
    eapply stage_quiet; [apply tip_density_quiet|eauto]. }
  pose proof (stage_quiet _ _ _ (tip_density_quiet w a core tip0) H4) as Q4.
  destruct rt as [rho_tip tip1].
  assert (Qpre : quietb (t0 ++ t1 ++ t2 ++ t3 ++ t4) = true)
    by (rewrite !quietb_app, Q0, Q1, Q2, Q3, Q4; reflexivity).
  assert (Hpre : prefix_ok w a p core smp tip0 rho_tip tip1
                           (t0 ++ t1 ++ t2 ++ t3 ++ t4))
    by (exists t0, t1, t2, t3, t4; auto 10).
  right. exists p, core, smp, tip0, rho_tip, tip1, (t0 ++ t1 ++ t2 ++ t3 ++ t4).
  inv_bind H as rk tk Hk.
  - exists (inl e). eexists. split; [exact Hpre|]. split; [exact Qpre|].
    split; [exact Hk|]. left. exists e. repeat split.
    now rewrite <- !app_assoc.
  - destruct rk as [[tip2 lv] nd].
    exists (inr (tip2, lv, nd)), tk. split; [exact Hpre|]. split; [exact Qpre|].
    split; [exact Hk|]. right. exists tip2, lv, nd. eexists.
    split; [reflexivity|]. split; [exact H|]. now rewrite <- !app_assoc.
Qed.

End RunFacts.

Module BranchFacts.
Import Pipeline Trace ArrayFacts StageFacts RunFacts.

Lemma load_sample_ok w a smp t :
  load_sample w a = (inr smp, t) ->
  exists V0,
    loaded_data (load_by_extension w 64 68 (input a)) = Some V0 /\
    s_V smp = arr_neg V0.
Proof.
  intro H. unfold load_sample in H.
  inv_ok H as g tg Hg. destruct g as [[atoms nd] lv].
  inv_ok H as ld tl Hl.
  destruct ld as [[[[V lv'] nd'] hd]|]; inv_prim H.
  exists V. rewrite Hl. split; [reflexivity|]. apply arr_imul_m1.
Qed.

Lemma kpfm_sample_ok w ks V dV lv nd hd t :
  kpfm_sample w ks V = (inr (dV, lv, nd, hd), t) ->
  exists Vk,
    loaded_data (load_by_extension w 100 106 ks) = Some Vk /\
    arr_sub Vk V = Some dV.
Proof.
  intro H. unfold kpfm_sample in H.
  inv_ok H as ld tl Hl.
  destruct ld as [[[[Vk lv'] nd'] hd']|]; [|inv_prim H].
  destruct (arr_sub Vk V) as [d|] eqn:E; inv_prim H.
  exists Vk. rewrite Hl. auto.
Qed.

(** The two KPFM convolutions, case by case. *)
Lemma kpfm_convs_eq w a smp tip dV lv nd drho sg :
  kpfm_convs w a smp tip dV lv nd drho sg =
  let c1 := conv a dV lv nd tip None in
  match computeElFF w c1 with
  | inl msg => (inl (PyExternal msg), [EvComputeElFF 140 c1])
  | inr (raw1, _, tip_left) =>
      match drho with
      | None => (inl (PyUnboundLocalError "drho_kpfm"), [EvComputeElFF 140 c1])
      | Some d =>
          let c2 := conv a (s_V smp) lv nd d (Some sg) in
          match computeElFF w c2 with
          | inl msg =>
              (inl (PyExternal msg), [EvComputeElFF 140 c1; EvComputeElFF 141 c2])
          | inr (raw2, _, _) =>
              (inr (raw1, raw2,
                    if is_some (tip_dens a) then tip else after_call tip tip_left),
               [EvComputeElFF 140 c1; EvComputeElFF 141 c2])
          end
      end
  end.
Proof.
  unfold kpfm_convs, call, local, bind, ret, raise. cbv zeta.
  destruct (computeElFF w (conv a dV lv nd tip None)) as [msg|[[raw1 E1] tl]];
    [reflexivity|].
  destruct drho as [d|]; [|reflexivity].
  destruct (computeElFF w (conv a (s_V smp) lv nd d (Some sg)))
    as [msg|[[raw2 E2] tl2]]; reflexivity.
Qed.

(** Normalisation and output of the KPFM maps, case by case. *)
Lemma kpfm_emit_eq w a smp lv nd Vs Vt raw1 raw2 :
  kpfm_emit w a smp lv nd Vs Vt raw1 raw2 =
  match kpfm_normalize Vs Vt (zpos_of a lv nd) (seq 0 (nd0 nd)) raw1 raw2 with
  | inl e => (inl e, [])
  | inr (F1, F2) =>
      match save_vec_field w "FFkpfm_t0sV" F1 (s_lvec_samp smp)
                           (output_format a) (s_head_samp smp) with
      | inl msg => (inl (PyExternal msg), [])
      | inr _ =>
          match save_vec_field w "FFkpfm_tVs0" F2 (s_lvec_samp smp)
                               (output_format a) (s_head_samp smp) with
          | inl msg => (inl (PyExternal msg), [EvSaveVec "FFkpfm_t0sV" F1])
          | inr _ =>
              (inr tt, [EvSaveVec "FFkpfm_t0sV" F1; EvSaveVec "FFkpfm_tVs0" F2])
          end
      end
  end.
Proof.
  unfold kpfm_emit, save, lift, bind. cbv zeta.
  destruct (kpfm_normalize Vs Vt (zpos_of a lv nd) (seq 0 (nd0 nd)) raw1 raw2)
    as [e|[F1 F2]]; [reflexivity|].
  destruct (save_vec_field w "FFkpfm_t0sV" F1 _ _ _); [reflexivity|].
  destruct (save_vec_field w "FFkpfm_tVs0" F2 _ _ _); reflexivity.
Qed.

(** Lines 153-161, case by case. *)
Lemma final_eq w a smp lv nd tip :
  final w a smp lv nd tip =
  let c := conv a (s_V smp) lv nd tip None in
  match computeElFF w c with
  | inl msg => (inl (PyExternal msg), [EvComputeElFF 154 c])
  | inr (FFel, Eel, _) =>
      match save_vec_field w "FFel" FFel (s_lvec_samp smp) (output_format a)
                           (s_head_samp smp) with
      | inl msg => (inl (PyExternal msg), [EvComputeElFF 154 c])
      | inr _ =>
          if energy a then
            match save_scal_field w "Eel" Eel (s_lvec_samp smp)
                                  (output_format a) (s_head_samp smp) with
            | inl msg =>
                (inl (PyExternal msg), [EvComputeElFF 154 c; EvSaveVec "FFel" FFel])
            | inr _ =>
                (inr tt, [EvComputeElFF 154 c; EvSaveVec "FFel" FFel;
                          EvSaveScal "Eel" Eel])
            end
          else (inr tt, [EvComputeElFF 154 c; EvSaveVec "FFel" FFel])
      end
  end.
Proof.
  unfold final, call, save, bind, ret. cbv zeta.
  destruct (computeElFF w (conv a (s_V smp) lv nd tip None))
    as [msg|[[FFel Eel] tl]]; [reflexivity|].
  destruct (save_vec_field w "FFel" FFel _ _ _); [reflexivity|].
  destruct (energy a); [|reflexivity].
  destruct (save_scal_field w "Eel" Eel _ _ _); reflexivity.
Qed.

(** The KPFM branch, stage by stage. *)
Lemma kpfm_branch_run w a p smp rho_tip tip ks r t :
  kpfm_branch w a p smp rho_tip tip ks = (r, t) ->
  exists rs ts,
    kpfm_sample w ks (s_V smp) = (rs, ts) /\ quietb ts = true /\
    match rs with
    | inl e => r = inl e /\ t = ts
    | inr (dV, lv, nd, _) =>
        exists rt tt,
          kpfm_tip w a p rho_tip (p_sigma p) = (rt, tt) /\ quietb tt = true /\
          match rt with
          | inl e => r = inl e /\ t = ts ++ tt
          | inr (Vt, drho, sg) =>
              exists rc tc,
                kpfm_convs w a smp tip dV lv nd drho sg = (rc, tc) /\
                match rc with
                | inl e => r = inl e /\ t = ts ++ tt ++ tc
                | inr (raw1, raw2, tip') =>
                    exists re te,
                      kpfm_emit w a smp lv nd (Vref a) Vt raw1 raw2 = (re, te) /\
                      t = ts ++ tt ++ tc ++ te /\
                      match re with
                      | inl e => r = inl e
                      | inr _ => r = inr (tip', lv, nd)
                      end
                end
          end
    end.
Proof.
  intro H. unfold kpfm_branch in H. cbv zeta in H.
  destruct (kpfm_sample w ks (s_V smp)) as [rs ts] eqn:Es.
  pose proof (stage_quiet _ _ _ (kpfm_sample_quiet w ks (s_V smp)) Es) as Qs.
  exists rs, ts. split; [reflexivity|]. split; [exact Qs|].
  destruct rs as [e|[[[dV lv] nd] hd]]; cbn [bind] in H.
  { inversion H; auto. }
  destruct (kpfm_tip w a p rho_tip (p_sigma p)) as [rt tt] eqn:Et.
  pose proof (stage_quiet _ _ _ (kpfm_tip_quiet w a p rho_tip (p_sigma p)) Et) as Qt.
  exists rt, tt. split; [reflexivity|]. split; [exact Qt|].
  destruct rt as [e|[[Vt drho] sg]]; cbn [bind] in H.
  { inversion H; auto. }
  destruct (kpfm_convs w a smp tip dV lv nd drho sg) as [rc tc] eqn:Ec.
  exists rc, tc. split; [reflexivity|].
  destruct rc as [e|[[raw1 raw2] tip']]; cbn [bind] in H.
  { inversion H; auto. }
  destruct (kpfm_emit w a smp lv nd (Vref a) Vt raw1 raw2) as [re te] eqn:Ee.
  exists re, te. split; [reflexivity|].
  destruct re as [e|u]; cbn [bind ret] in H; inversion H; subst.
  - auto.
  - rewrite app_nil_r. auto.
Qed.

End BranchFacts.

Module EventFacts.
Import Pipeline Trace ArrayFacts StageFacts RunFacts BranchFacts.

Lemma conv_not_quiet t line c :
  quietb t = true -> In (EvComputeElFF line c) t -> False.
Proof. intros Q Hin. destruct (quiet_in _ _ Q Hin) as [H _]. discriminate. Qed.

Lemma save_not_quiet t e :
  quietb t = true -> In e t -> is_save e = true -> False.
Proof. intros Q Hin Hs. destruct (quiet_in _ _ Q Hin) as [_ H]. congruence. Qed.

Ltac in_cases H :=
  repeat (rewrite in_app_iff in H); cbn [In] in H;
  repeat match type of H with
         | _ \/ _ => destruct H as [H|H]
         | False => contradiction
         end.

(** The convolutions of the KPFM branch and what they are given. *)
Lemma kpfm_branch_conv w a p smp rho_tip tip ks r t line c :
  kpfm_branch w a p smp rho_tip tip ks = (r, t) ->
  In (EvComputeElFF line c) t ->
  exists dV lv nd hd ts Vt drho sg tt,
    kpfm_sample w ks (s_V smp) = (inr (dV, lv, nd, hd), ts) /\
    kpfm_tip w a p rho_tip (p_sigma p) = (inr (Vt, drho, sg), tt) /\
    ((line = 140%nat /\ c = conv a dV lv nd tip None) \/
     (line = 141%nat /\
      exists d, drho = Some d /\ c = conv a (s_V smp) lv nd d (Some sg))).
Proof.
  intros H Hin.
  destruct (kpfm_branch_run _ _ _ _ _ _ _ _ _ H) as (rs & ts & Es & Qs & R).
  destruct rs as [e|[[[dV lv] nd] hd]].
  { destruct R as [_ ->]. destruct (conv_not_quiet _ _ _ Qs Hin). }
  destruct R as (rt & tt & Et & Qt & R).
  destruct rt as [e|[[Vt drho] sg]].
  { destruct R as [_ ->]. apply in_app_or in Hin.
    destruct Hin as [Hin|Hin]; [destruct (conv_not_quiet _ _ _ Qs Hin)
                               |destruct (conv_not_quiet _ _ _ Qt Hin)]. }
  destruct R as (rc & tc & Ec & R).
  exists dV, lv, nd, hd, ts, Vt, drho, sg, tt.
  split; [exact Es|]. split; [exact Et|].
  assert (Hc : forall te, In (EvComputeElFF line c) (ts ++ tt ++ tc ++ te) ->
               (forall e, In e te -> is_conv e = false) ->
               (line = 140%nat /\ c = conv a dV lv nd tip None) \/
               (line = 141%nat /\
                exists d, drho = Some d /\ c = conv a (s_V smp) lv nd d (Some sg))).
  { intros te Hi Hte. rewrite kpfm_convs_eq in Ec. cbv zeta in Ec.
    apply in_app_or in Hi. destruct Hi as [Hi|Hi];
      [destruct (conv_not_quiet _ _ _ Qs Hi)|].
    apply in_app_or in Hi. destruct Hi as [Hi|Hi];
      [destruct (conv_not_quiet _ _ _ Qt Hi)|].
    apply in_app_or in Hi. destruct Hi as [Hi|Hi];
      [|specialize (Hte _ Hi); discriminate].
    destruct (computeElFF w (conv a dV lv nd tip None)) as [msg|[[raw1 E1] tl]].
    { inversion Ec; subst. in_cases Hi. inversion Hi; auto. }
    destruct drho as [d|].
    2:{ inversion Ec; subst. in_cases Hi. inversion Hi; auto. }
    destruct (computeElFF w (conv a (s_V smp) lv nd d (Some sg)))
      as [msg|[[raw2 E2] tl2]]; inversion Ec; subst; in_cases Hi;
      inversion Hi; subst; eauto. }
  destruct rc as [e|[[raw1 raw2] tip']].
  { destruct R as [_ ->]. apply (Hc []).
    - now rewrite app_nil_r.
    - intros e0 []. }
  destruct R as (re & te & Ee & -> & _).
  apply (Hc te Hin). intros e0 Hi.
  rewrite kpfm_emit_eq in Ee.
  destruct (kpfm_normalize _ _ _ _ _ _) as [e1|[F1 F2]];
    [inversion Ee; subst; destruct Hi|].
  destruct (save_vec_field w "FFkpfm_t0sV" _ _ _ _);
    [inversion Ee; subst; destruct Hi|].
  destruct (save_vec_field w "FFkpfm_tVs0" _ _ _ _);
    inversion Ee; subst; in_cases Hi; subst; reflexivity.
Qed.

Lemma final_conv w a smp lv nd tip r t line c :
  final w a smp lv nd tip = (r, t) ->
  In (EvComputeElFF line c) t ->
  line = 154%nat /\ c = conv a (s_V smp) lv nd tip None.
Proof.
  intros H Hin. rewrite final_eq in H. cbv zeta in H.
  destruct (computeElFF w _) as [msg|[[FFel Eel] tl]].
  { inversion H; subst. in_cases Hin. inversion Hin; auto. }
  destruct (save_vec_field w "FFel" _ _ _ _).
  { inversion H; subst. in_cases Hin. inversion Hin; auto. }
  destruct (energy a).
  - destruct (save_scal_field w "Eel" _ _ _ _); inversion H; subst;
      in_cases Hin; inversion Hin; auto.
  - inversion H; subst. in_cases Hin; inversion Hin; auto.
Qed.

(** With a density file the KPFM branch leaves [PPU.params['tip']] as it
    found it. *)
Lemma kpfm_stage_tip w a p smp rho_tip tip tip2 lv nd t :
  kpfm_stage w a p smp rho_tip tip = (inr (tip2, lv, nd), t) ->
  is_some (tip_dens a) = true -> tip2 = tip.
Proof.
  unfold kpfm_stage. intros H Hd.
  destruct (KPFM_sample a) as [ks|]; [|inv_prim H; reflexivity].
  destruct (kpfm_branch_run _ _ _ _ _ _ _ _ _ H) as (rs & ts & Es & Qs & R).
  destruct rs as [e|[[[dV lv'] nd'] hd]]; [destruct R; discriminate|].
  destruct R as (rt & tt & Et & Qt & R).
  destruct rt as [e|[[Vt drho] sg]]; [destruct R; discriminate|].
  destruct R as (rc & tc & Ec & R).
  destruct rc as [e|[[raw1 raw2] tip']]; [destruct R; discriminate|].
  destruct R as (re & te & Ee & _ & R).
  destruct re as [e|u]; [discriminate|]. inversion R; subst.
  rewrite kpfm_convs_eq in Ec. cbv zeta in Ec.
  destruct (computeElFF w _) as [msg|[[r1 E1] tl]]; [discriminate|].
  destruct drho as [d|]; [|discriminate].
  destruct (computeElFF w _) as [msg|[[r2 E2] tl2]]; [discriminate|].
  inversion Ec; subst. now rewrite Hd.
Qed.

(** Every convolution of a run and what it is given. *)
Lemma main_conv w a r tr line c :
  main w a = (r, tr) ->
  In (EvComputeElFF line c) tr ->
  exists p core smp tip0 rho_tip tip1 tpre,
    prefix_ok w a p core smp tip0 rho_tip tip1 tpre /\
    ((exists ks dV lv nd hd ts Vt drho sg tt,
         KPFM_sample a = Some ks /\
         kpfm_sample w ks (s_V smp) = (inr (dV, lv, nd, hd), ts) /\
         kpfm_tip w a p rho_tip (p_sigma p) = (inr (Vt, drho, sg), tt) /\
         ((line = 140%nat /\ c = conv a dV lv nd tip1 None) \/
          (line = 141%nat /\
           exists d, drho = Some d /\ c = conv a (s_V smp) lv nd d (Some sg)))) \/
     (line = 154%nat /\
      exists tip2 lv nd tk,
        kpfm_stage w a p smp rho_tip tip1 = (inr (tip2, lv, nd), tk) /\
        c = conv a (s_V smp) lv nd tip2 None)).
Proof.
  intros H Hin.
  destruct (main_run _ _ _ _ H) as [(e & _ & Q) | R];
    [destruct (conv_not_quiet _ _ _ Q Hin)|].
  destruct R as (p & core & smp & tip0 & rho_tip & tip1 & tpre & rk & tk
                 & Hpre & Qpre & Hk & R).
  exists p, core, smp, tip0, rho_tip, tip1, tpre. split; [exact Hpre|].
  assert (HK : In (EvComputeElFF line c) tk ->
               exists ks dV lv nd hd ts Vt drho sg tt,
                 KPFM_sample a = Some ks /\
                 kpfm_sample w ks (s_V smp) = (inr (dV, lv, nd, hd), ts) /\
                 kpfm_tip w a p rho_tip (p_sigma p) = (inr (Vt, drho, sg), tt) /\
                 ((line = 140%nat /\ c = conv a dV lv nd tip1 None) \/
                  (line = 141%nat /\
                   exists d, drho = Some d /\
                             c = conv a (s_V smp) lv nd d (Some sg)))).
  { intro Hi. unfold kpfm_stage in Hk.
    destruct (KPFM_sample a) as [ks|]; [|inv_prim Hk; destruct Hi].
    destruct (kpfm_branch_conv _ _ _ _ _ _ _ _ _ _ _ Hk Hi)
      as (dV & lv & nd & hd & ts & Vt & drho & sg & tt & E1 & E2 & E3).
    exists ks, dV, lv, nd, hd, ts, Vt, drho, sg, tt. auto. }
  destruct R as [(e & -> & -> & ->) | (tip2 & lv & nd & tf & -> & Hf & ->)].
  - apply in_app_or in Hin. destruct Hin as [Hin|Hin];
      [destruct (conv_not_quiet _ _ _ Qpre Hin)|]. left. auto.
  - apply in_app_or in Hin. destruct Hin as [Hin|Hin];
      [destruct (conv_not_quiet _ _ _ Qpre Hin)|].
    apply in_app_or in Hin. destruct Hin as [Hin|Hin]; [left; auto|].
    right. destruct (final_conv _ _ _ _ _ _ _ _ _ _ Hf Hin) as [-> ->].
    split; [reflexivity|]. exists tip2, lv, nd, tk. auto.
Qed.

End EventFacts.

Module StageResults.
Import Pipeline Trace ArrayFacts StageFacts RunFacts BranchFacts.

Lemma core_prep_ok w a core t :
  core_prep w a = (inr core, t) ->
  bSubstractCore a = true ->
  exists td v RsEl,
    tip_dens a = Some td /\
    loadValenceElectronDict w = inr v /\
    getAtomsWhichTouchPBCcell w td (Rcore a) = inr RsEl /\
    core = Some (v, RsEl).
Proof.
  unfold core_prep. intros H Hb. rewrite Hb in H.
  destruct (tip_dens a) as [td|]; [|inv_prim H].
  inv_ok H as v tv Hv. inv_ok H as RsEl tr Hr. inv_prim H.
  inv_prim Hv. inv_prim Hr. exists td, v, RsEl. auto.
Qed.

Lemma tip_density_ok w a core tip rho_tip tip1 t td :
  tip_density w a core tip = (inr (rho_tip, tip1), t) ->
  tip_dens a = Some td ->
  exists rho0 lv nd hd rho',
    loadXSF w td = inr (rho0, lv, nd, hd) /\
    rho_tip = Some rho' /\
    tip1 = TipDensity (arr_neg rho') /\
    ((bSubstractCore a = false /\ rho' = rho0) \/
     (bSubstractCore a = true /\
      exists v Rs el,
        core = Some (v, (Rs, el)) /\
        subtractCoreDensities w rho0 lv el Rs v (Rcore a) hd = inr rho')).
Proof.
  unfold tip_density. intros H Hd. rewrite Hd in H.
  inv_ok H as ld tl Hl. destruct ld as [[[rho0 lv] nd] hd].
  inv_ok H as rho' ts Hs. inv_prim H. inv_prim Hl.
  exists rho0, lv, nd, hd, rho'. repeat split; auto.
  destruct (bSubstractCore a).
  - right. split; [reflexivity|].
    inv_ok Hs as cr tc Hc. destruct cr as [v [Rs el]].
    inv_prim Hc. inv_prim Hs. exists v, Rs, el. auto.
  - left. inv_prim Hs. auto.
Qed.

Lemma tip_density_none w a core tip :
  tip_dens a = None -> tip_density w a core tip = (inr (None, tip), []).
Proof. unfold tip_density. intros ->. reflexivity. Qed.

End StageResults.

Module NormalizeFacts.
Import Pipeline Trace ArrayFacts.

(** The loop of lines 145-147 over the indices [k, k+1, ..., k+m-1]:
    every slice in that range is replaced by its quotient, the slices
    below [k] are left alone. *)
Lemma kpfm_normalize_seq (Vs : option Q) (Vt : option (option Q)) (zpos : list Q) :
  forall (m k : nat) (F1 F2 F1' F2' : vgrid),
    kpfm_normalize Vs Vt zpos (seq k m) F1 F2 = inr (F1', F2') ->
    forall i : nat,
      ((k <= i < k + m)%nat ->
       exists vs vt s1 s2,
         Vs = Some vs /\ Vt = Some (Some vt) /\
         nth_error F1 i = Some s1 /\ nth_error F2 i = Some s2 /\
         nth_error F1' i = Some (slice_div s1 (vs * (nth i zpos 0 + 0.1))) /\
         nth_error F2' i = Some (slice_div s2 (vt * (nth i zpos 0 + 0.1)))) /\
      ((i < k)%nat ->
       nth_error F1' i = nth_error F1 i /\ nth_error F2' i = nth_error F2 i).
Proof.
  induction m as [|m IH]; intros k F1 F2 F1' F2' H i.
  - cbn in H. inversion H; subst. split; [lia | auto].
  - cbn [seq kpfm_normalize] in H.
    destruct (nth_error F1 k) as [s1|] eqn:E1; [|discriminate].
    destruct Vs as [vs|] eqn:EVs; [|discriminate].
    destruct (nth_error F2 k) as [s2|] eqn:E2; [|discriminate].
    destruct Vt as [[vt|]|] eqn:EVt; try discriminate.
    specialize (IH _ _ _ _ _ H).
    split.
    + intros [Hk Hi]. destruct (Nat.eq_dec i k) as [->|Hne].
      * destruct (IH k) as [_ Hlow].
        destruct Hlow as [L1 L2]; [lia|].
        exists vs, vt, s1, s2. repeat split; auto.
        -- rewrite L1. eapply nth_error_set_slice_same; eauto.
        -- rewrite L2. eapply nth_error_set_slice_same; eauto.
      * destruct (IH i) as [Hin _].
        destruct Hin as (vs' & vt' & s1' & s2' & Evs & Evt & N1 & N2 & R1 & R2);
          [lia|].
        inversion Evs; subst vs'. inversion Evt; subst vt'.
        rewrite nth_error_set_slice_other in N1 by congruence.
        rewrite nth_error_set_slice_other in N2 by congruence.
        exists vs, vt, s1', s2'. repeat split; auto.
    + intro Hi. destruct (IH i) as [_ Hlow].
      destruct Hlow as [L1 L2]; [lia|].
      rewrite L1, L2.
      rewrite !nth_error_set_slice_other by lia. auto.
Qed.

(** The loop leaves every slice from the end of its range on as it was. *)
Lemma kpfm_normalize_above (Vs : option Q) (Vt : option (option Q)) (zpos : list Q) :
  forall (m k : nat) (F1 F2 F1' F2' : vgrid),
    kpfm_normalize Vs Vt zpos (seq k m) F1 F2 = inr (F1', F2') ->
    forall i : nat,
      (k + m <= i)%nat ->
      nth_error F1' i = nth_error F1 i /\ nth_error F2' i = nth_error F2 i.
Proof.
  induction m as [|m IH]; intros k F1 F2 F1' F2' H i Hi.
  - cbn in H. inversion H; subst. auto.
  - cbn [seq kpfm_normalize] in H.
    destruct (nth_error F1 k) as [s1|]; [|discriminate].
    destruct Vs as [vs|]; [|discriminate].
    destruct (nth_error F2 k) as [s2|]; [|discriminate].
    destruct Vt as [[vt|]|]; try discriminate.
    destruct (IH _ _ _ _ _ H i) as [L1 L2]; [lia|].
    rewrite L1, L2. rewrite !nth_error_set_slice_other by lia. auto.
Qed.

(** The heights of line 144, sample by sample: [z0] below the [i]-th of
    [nDim[0]] evenly spaced values from [lvec[0,2]] to [lvec[3,2]]. *)
Lemma zpos_sample (a : Args) (lv : lvec_t) (nd : ndim_t) (i : nat) :
  (i < nd0 nd)%nat ->
  exists zi : Q,
    nth i (zpos_of a lv nd) 0 == zi - z0 a /\
    ((nd0 nd = 1)%nat -> zi == vz (lv0 lv)) /\
    ((1 < nd0 nd)%nat ->
     zi == vz (lv0 lv)
           + inject_Z (Z.of_nat i) / inject_Z (Z.of_nat (nd0 nd - 1))
             * (vz (lv3 lv) - vz (lv0 lv))).
Proof.
  intro Hi. exists (nth i (linspace (vz (lv0 lv)) (vz (lv3 lv)) (nd0 nd)) 0).
  split; [apply linspace_shift; exact Hi|].
  apply linspace_sample. exact Hi.
Qed.

(** What the loop of lines 145-147 makes of the two raw outputs: every
    slice below [nDim[0]] is divided, component by component, and every
    later slice is left as it was. *)
Lemma kpfm_normalize_slices (a : Args) (lv : lvec_t) (nd : ndim_t)
      (Vs : option Q) (Vt : option (option Q)) (raw1 raw2 F1 F2 : vgrid) :
  kpfm_normalize Vs Vt (zpos_of a lv nd) (seq 0 (nd0 nd)) raw1 raw2 = inr (F1, F2) ->
  (forall i : nat,
      (i < nd0 nd)%nat ->
      exists vs vt s1 s2 zi,
        Vs = Some vs /\ Vt = Some (Some vt) /\
        nth_error raw1 i = Some s1 /\ nth_error raw2 i = Some s2 /\
        ((nd0 nd = 1)%nat -> zi == vz (lv0 lv)) /\
        ((1 < nd0 nd)%nat ->
         zi == vz (lv0 lv)
               + inject_Z (Z.of_nat i) / inject_Z (Z.of_nat (nd0 nd - 1))
                 * (vz (lv3 lv) - vz (lv0 lv))) /\
        (exists D,
            D == vs * (zi - z0 a + 0.1) /\
            nth_error F1 i
            = Some (map (map (fun '(x, y, z) => (x / D, y / D, z / D))) s1)) /\
        (exists D,
            D == vt * (zi - z0 a + 0.1) /\
            nth_error F2 i
            = Some (map (map (fun '(x, y, z) => (x / D, y / D, z / D))) s2))) /\
  (forall i : nat,
      (nd0 nd <= i)%nat ->
      nth_error F1 i = nth_error raw1 i /\ nth_error F2 i = nth_error raw2 i).
Proof.
  intro N. split.
  - intros i Hi.
    destruct (kpfm_normalize_seq _ _ _ _ _ _ _ _ _ N i) as [Hr _].
    destruct Hr as (vs & vt & s1 & s2 & Evs & Evt & N1 & N2 & R1 & R2); [lia|].
    destruct (zpos_sample a lv nd i Hi) as (zi & Ez & Z1 & Zn).
    exists vs, vt, s1, s2, zi.
    split; [exact Evs|]. split; [exact Evt|]. split; [exact N1|].
    split; [exact N2|]. split; [exact Z1|]. split; [exact Zn|]. split.
    + exists (vs * (nth i (zpos_of a lv nd) 0 + 0.1)). split.
      * rewrite Ez. reflexivity.
      * rewrite R1, slice_div_voxels. reflexivity.
    + exists (vt * (nth i (zpos_of a lv nd) 0 + 0.1)). split.
      * rewrite Ez. reflexivity.
      * rewrite R2, slice_div_voxels. reflexivity.
  - intros i Hi. apply (kpfm_normalize_above _ _ _ _ _ _ _ _ _ N). lia.
Qed.

Lemma tip_token_not_file (kt : string) :
  is_tip_token kt = true ->
  endswith (lower kt) ".xsf" = false /\ endswith (lower kt) ".cube" = false.
Proof.
  unfold is_tip_token. rewrite !orb_true_iff, !String.eqb_eq.
  intros [[[-> | ->] | ->] | ->]; split; reflexivity.
Qed.

(** What lines 110-134 assign when they return. *)
Lemma kpfm_tip_ok w a p rho_tip sg Vt drho sg' t :
  kpfm_tip w a p rho_tip sg = (inr (Vt, drho, sg'), t) ->
  (is_tip_token (KPFM_tip a) = true /\
   Vt = Some (Some (-0.1)) /\ (drho, sg') = probe_table (p_probeType p) sg) \/
  (is_tip_token (KPFM_tip a) = false /\
   ((Vt = Some (Vref a) /\ sg' = sg /\ exists d, drho = Some (TipDensity d)) \/
    (Vt = None /\ drho = None /\ sg' = sg))).
Proof.
  unfold kpfm_tip. cbv zeta. intro H.
  destruct (is_tip_token (KPFM_tip a)) eqn:Etok.
  - destruct (tip_token_not_file _ Etok) as [E1 E2]. rewrite E1, E2 in H.
    destruct (probe_table (p_probeType p) sg) as [d s'] eqn:Ep.
    inv_prim H. left. auto.
  - right. split; [reflexivity|].
    destruct (endswith (lower (KPFM_tip a)) ".xsf").
    { inv_ok H as rho0 t0 H0. inv_ok H as ld tl Hl.
      destruct ld as [[[rk lv] nd] hd].
      inv_ok H as d td Hd. inv_prim H.
      unfold diff_density in Hd. destruct (arr_sub rk rho0); inv_prim Hd.
      left. eauto. }
    destruct (endswith (lower (KPFM_tip a)) ".cube").
    { inv_ok H as rho0 t0 H0. destruct (borh a) as [b|]; [|inv_prim H].
      inv_ok H as ld tl Hl. destruct ld as [[[rk lv] nd] hd].
      inv_ok H as d td Hd. inv_prim H.
      unfold diff_density in Hd. destruct (arr_sub rk rho0); inv_prim Hd.
      left. eauto. }
    inv_prim H. right. auto.
Qed.

End NormalizeFacts.

Module SaveFacts.
Import Pipeline Trace ArrayFacts StageFacts RunFacts BranchFacts EventFacts
       NormalizeFacts.

(** The files the KPFM branch writes hold the normalised outputs of its two
    convolutions. *)
Ltac save_contra Hin Hs :=
  exfalso; in_cases Hin;
  first [ apply (fun Q => save_not_quiet _ _ Q Hin Hs); assumption
        | subst; cbn in Hs; discriminate Hs ].

Lemma kpfm_branch_saved w a p smp rho_tip tip ks r t e :
  kpfm_branch w a p smp rho_tip tip ks = (r, t) ->
  In e t -> is_save e = true ->
  exists c1 raw1 c2 raw2 Vt F1 F2,
    kpfm_done w a p smp rho_tip tip ks c1 raw1 c2 raw2 Vt F1 F2 /\
    In (EvComputeElFF 140 c1) t /\ In (EvComputeElFF 141 c2) t /\
    (e = EvSaveVec "FFkpfm_t0sV" F1 \/ e = EvSaveVec "FFkpfm_tVs0" F2).
Proof.
  intros H Hin Hs.
  destruct (kpfm_branch_run _ _ _ _ _ _ _ _ _ H) as (rs & ts & Es & Qs & R).
  destruct rs as [e0|[[[dV lv] nd] hd]].
  { destruct R as [_ ->]. destruct (save_not_quiet _ _ Qs Hin Hs). }
  destruct R as (rt & tt & Et & Qt & R).
  destruct rt as [e0|[[Vt drho] sg]].
  { destruct R as [_ ->]. apply in_app_or in Hin.
    destruct Hin as [Hin|Hin]; [destruct (save_not_quiet _ _ Qs Hin Hs)
                               |destruct (save_not_quiet _ _ Qt Hin Hs)]. }
  destruct R as (rc & tc & Ec & R).
  rewrite kpfm_convs_eq in Ec. cbv zeta in Ec.
  destruct (computeElFF w (conv a dV lv nd tip None))
    as [msg|[[raw1 E1] tl1]] eqn:C1.
  { inversion Ec; subst. destruct R as [_ ->]. save_contra Hin Hs. }
  destruct drho as [d|].
  2:{ inversion Ec; subst. destruct R as [_ ->]. save_contra Hin Hs. }
  destruct (computeElFF w (conv a (s_V smp) lv nd d (Some sg)))
    as [msg|[[raw2 E2] tl2]] eqn:C2.
  { inversion Ec; subst. destruct R as [_ ->]. save_contra Hin Hs. }
  inversion Ec; subst rc tc. destruct R as (re & te & Ee & -> & _).
  rewrite kpfm_emit_eq in Ee.
  destruct (kpfm_normalize (Vref a) Vt (zpos_of a lv nd) (seq 0 (nd0 nd)) raw1 raw2)
    as [e1|[F1 F2]] eqn:EN.
  { inversion Ee; subst. save_contra Hin Hs. }
  exists (conv a dV lv nd tip None), raw1,
         (conv a (s_V smp) lv nd d (Some sg)), raw2, Vt, F1, F2.
  split.
  { exists dV, lv, nd, hd, ts, d, sg, tt, E1, tl1, E2, tl2. auto 10. }
  split; [rewrite !in_app_iff; cbn [In]; auto 10|].
  split; [rewrite !in_app_iff; cbn [In]; auto 10|].
  destruct (save_vec_field w "FFkpfm_t0sV" _ _ _ _).
  { inversion Ee; subst. save_contra Hin Hs. }
  destruct (save_vec_field w "FFkpfm_tVs0" _ _ _ _); inversion Ee; subst;
    in_cases Hin; auto;
    first [ exfalso; apply (fun Q => save_not_quiet _ _ Q Hin Hs); assumption
          | subst; cbn in Hs; discriminate Hs ].
Qed.

Lemma final_saved w a smp lv nd tip r t e :
  final w a smp lv nd tip = (r, t) ->
  In e t -> is_save e = true ->
  (exists F, e = EvSaveVec "FFel" F) \/ (exists E, e = EvSaveScal "Eel" E).
Proof.
  intros H Hin Hs. rewrite final_eq in H. cbv zeta in H.
  destruct (computeElFF w _) as [msg|[[FFel Eel] tl]].
  { inversion H; subst. in_cases Hin. subst; discriminate Hs. }
  destruct (save_vec_field w "FFel" _ _ _ _).
  { inversion H; subst. in_cases Hin. subst; discriminate Hs. }
  destruct (energy a).
  - destruct (save_scal_field w "Eel" _ _ _ _); inversion H; subst;
      in_cases Hin; subst; try discriminate Hs; eauto.
  - inversion H; subst. in_cases Hin; subst; try discriminate Hs; eauto.
Qed.

(** Every file a run writes. *)
Lemma main_saved w a r tr e :
  main w a = (r, tr) ->
  In e tr -> is_save e = true ->
  (exists p core smp tip0 rho_tip tip1 tpre ks c1 raw1 c2 raw2 Vt F1 F2,
      prefix_ok w a p core smp tip0 rho_tip tip1 tpre /\
      KPFM_sample a = Some ks /\
      kpfm_done w a p smp rho_tip tip1 ks c1 raw1 c2 raw2 Vt F1 F2 /\
      In (EvComputeElFF 140 c1) tr /\ In (EvComputeElFF 141 c2) tr /\
      (e = EvSaveVec "FFkpfm_t0sV" F1 \/ e = EvSaveVec "FFkpfm_tVs0" F2)) \/
  ((exists F, e = EvSaveVec "FFel" F) \/ (exists E, e = EvSaveScal "Eel" E)).
Proof.
  intros H Hin Hs.
  destruct (main_run _ _ _ _ H) as [(e0 & _ & Q) | R];
    [destruct (save_not_quiet _ _ Q Hin Hs)|].
  destruct R as (p & core & smp & tip0 & rho_tip & tip1 & tpre & rk & tk
                 & Hpre & Qpre & Hk & R).
  assert (HK : In e tk ->
               exists ks c1 raw1 c2 raw2 Vt F1 F2,
                 KPFM_sample a = Some ks /\
                 kpfm_done w a p smp rho_tip tip1 ks c1 raw1 c2 raw2 Vt F1 F2 /\
                 In (EvComputeElFF 140 c1) tk /\ In (EvComputeElFF 141 c2) tk /\
                 (e = EvSaveVec "FFkpfm_t0sV" F1 \/ e = EvSaveVec "FFkpfm_tVs0" F2)).
  { intro Hi. unfold kpfm_stage in Hk.
    destruct (KPFM_sample a) as [ks|]; [|inv_prim Hk; destruct Hi].
    destruct (kpfm_branch_saved _ _ _ _ _ _ _ _ _ _ Hk Hi Hs)
      as (c1 & raw1 & c2 & raw2 & Vt & F1 & F2 & D & I1 & I2 & E).
    exists ks, c1, raw1, c2, raw2, Vt, F1, F2. auto 10. }
  destruct R as [(e0 & -> & -> & ->) | (tip2 & lv & nd & tf & -> & Hf & ->)].
  - apply in_app_or in Hin. destruct Hin as [Hin|Hin];
      [destruct (save_not_quiet _ _ Qpre Hin Hs)|].
    destruct (HK Hin) as (ks & c1 & raw1 & c2 & raw2 & Vt & F1 & F2
                          & E & D & I1 & I2 & Ee).
    left. exists p, core, smp, tip0, rho_tip, tip1, tpre, ks, c1, raw1, c2,
            raw2, Vt, F1, F2.
    rewrite !in_app_iff. auto 10.
  - apply in_app_or in Hin. destruct Hin as [Hin|Hin];
      [destruct (save_not_quiet _ _ Qpre Hin Hs)|].
    apply in_app_or in Hin. destruct Hin as [Hin|Hin].
    + destruct (HK Hin) as (ks & c1 & raw1 & c2 & raw2 & Vt & F1 & F2
                            & E & D & I1 & I2 & Ee).
      left. exists p, core, smp, tip0, rho_tip, tip1, tpre, ks, c1, raw1, c2,
              raw2, Vt, F1, F2.
      rewrite !in_app_iff. auto 10.
    + right. eapply final_saved; eauto.
Qed.

Lemma probe_table_entry (pt : string) (sg : Q) :
  probe_table pt sg =
  match probe_entry pt with
  | Some (slope, s) => (Some (TipMultipole [("pz", slope)]), s)
  | None => (None, sg)
  end.
Proof.
  unfold probe_table, probe_entry.
  destruct (String.eqb pt "8") eqn:E8.
  - apply String.eqb_eq in E8. subst. reflexivity.
  - destruct (String.eqb pt "47") eqn:E47.
    + apply String.eqb_eq in E47. subst. reflexivity.
    + destruct (String.eqb pt "54"); reflexivity.
Qed.



(** The two KPFM maps of any run: [FFkpfm_t0sV] is the output of the
    convolution of line 140, and [FFkpfm_tVs0] that of line 141, with every
    slice [i < nDim[0]] divided, component by component, by
    [Vref * (z_i - z0 + 0.1)] (whenever that number is not zero) and every
    later slice left as it was.  [z_i] is the [i]-th of [nDim[0]] evenly
    spaced values that start at [lvec[0,2]] and end at [lvec[3,2]].  [Vref]
    is [args.Vref], except for the second map with an analytic tip model,
    where it is -0.1. *)
Lemma kpfm_maps_divided w a r tr name F :
  main w a = (r, tr) ->
  In (EvSaveVec name F) tr ->
  name = "FFkpfm_t0sV" \/ name = "FFkpfm_tVs0" ->
  exists line c raw E tl,
    In (EvComputeElFF line c) tr /\
    computeElFF w c = inr (raw, E, tl) /\
    ((name = "FFkpfm_t0sV" /\ line = 140%nat) \/
     (name = "FFkpfm_tVs0" /\ line = 141%nat)) /\
    (forall i : nat,
        (i < nd0 (cc_nDim c))%nat ->
        exists vref s zi D,
          (if ((line =? 141)%nat && is_tip_token (KPFM_tip a))%bool
           then vref = -0.1 else Vref a = Some vref) /\
          nth_error raw i = Some s /\
          ((nd0 (cc_nDim c) = 1)%nat -> zi == vz (lv0 (cc_lvec c))) /\
          ((1 < nd0 (cc_nDim c))%nat ->
           zi == vz (lv0 (cc_lvec c))
                 + inject_Z (Z.of_nat i) / inject_Z (Z.of_nat (nd0 (cc_nDim c) - 1))
                   * (vz (lv3 (cc_lvec c)) - vz (lv0 (cc_lvec c)))) /\
          D == vref * (zi - z0 a + 0.1) /\
          (vref == 1 -> z0 a == 0 -> D == zi + 0.1) /\
          (~ D == 0 ->
           nth_error F i
           = Some (map (map (fun '(x, y, z) => (x / D, y / D, z / D))) s))) /\
    (forall i : nat,
        (nd0 (cc_nDim c) <= i)%nat -> nth_error F i = nth_error raw i).
Proof.
  intros H Hin Hname.
  destruct (main_saved _ _ _ _ _ H Hin eq_refl) as [K | [[F' E'] | [E0 E']]];
    [ | inversion E'; subst; destruct Hname; discriminate | discriminate ].
  destruct K as (p & core & smp & tip0 & rho_tip & tip1 & tpre & ks & c1 & raw1
                 & c2 & raw2 & Vt & F1 & F2 & _ & _ & D & I1 & I2 & E).
  destruct D as (dV & lv & nd & hd & ts & d & sg & tt & E1 & tl1 & E2 & tl2
                 & _ & Ht & -> & -> & C1 & C2 & N).
  assert (HV : Vt = Some (Some (-0.1)) /\ is_tip_token (KPFM_tip a) = true \/
               Vt = Some (Vref a) /\ is_tip_token (KPFM_tip a) = false).
  { destruct (kpfm_tip_ok _ _ _ _ _ _ _ _ _ Ht)
      as [(Tk & -> & _) | (Tk & [(-> & _) | (_ & Hn & _)])]; auto; discriminate. }
  destruct (kpfm_normalize_slices _ _ _ _ _ _ _ _ _ N) as [Hlow Hhigh].
  destruct E as [E | E]; inversion E; subst name F.
  - exists 140%nat, (conv a dV lv nd tip1 None), raw1, E1, tl1.
    cbn [conv cc_nDim cc_lvec Nat.eqb andb].
    repeat split; auto.
    + intros i Hi.
      destruct (Hlow i Hi)
        as (vs & vt & s1 & s2 & zi & Evs & _ & N1 & _ & Z1 & Zn & (D & ED & R1) & _).
      exists vs, s1, zi, D. repeat split; auto.
      intros Hv Hz. rewrite ED, Hv, Hz. ring.
    + intros i Hi. apply (Hhigh i Hi).
  - exists 141%nat, (conv a (s_V smp) lv nd d (Some sg)), raw2, E2, tl2.
    cbn [conv cc_nDim cc_lvec Nat.eqb andb].
    repeat split; auto.
    + intros i Hi.
      destruct (Hlow i Hi)
        as (vs & vt & s1 & s2 & zi & _ & Evt & _ & N2 & Z1 & Zn & _ & (D & ED & R2)).
      exists vt, s2, zi, D. repeat split; auto.
      * destruct HV as [[HVt ->] | [HVt ->]]; rewrite HVt in Evt;
          inversion Evt; reflexivity.
      * intros Hv Hz. rewrite ED, Hv, Hz. ring.
    + intros i Hi. apply (Hhigh i Hi).
Qed.

End SaveFacts.

Module ReachFacts.
Import Pipeline Trace ArrayFacts StageFacts RunFacts BranchFacts EventFacts
       NormalizeFacts SaveFacts.



End ReachFacts.

Module ErrorFacts.
Import Pipeline Trace ArrayFacts StageFacts RunFacts BranchFacts.

Ltac plain_tac :=
  cbv beta delta [call save lift local ret raise bind];
  repeat (break_match; cbn [fst snd raised_by_script]); reflexivity.

Lemma load_params_plain w : raised_by_script (fst (load_params w)) = false.
Proof. unfold load_params. plain_tac. Qed.

(** The [raise] of line 53 cannot be reached: line 51 has already asked
    for a tip density. *)
Lemma core_prep_plain w a : raised_by_script (fst (core_prep w a)) = false.
Proof.
  unfold core_prep, bSubstractCore.
  destruct (tip_dens a) as [td|]; cbn [is_some].
  - plain_tac.
  - rewrite andb_false_r. reflexivity.
Qed.

Lemma load_sample_plain w a : raised_by_script (fst (load_sample w a)) = false.
Proof. unfold load_sample, load_by_extension. plain_tac. Qed.

Lemma tip_script_plain w p : raised_by_script (fst (tip_script w p)) = false.
Proof. unfold tip_script. plain_tac. Qed.

Lemma tip_density_plain w a core tip :
  raised_by_script (fst (tip_density w a core tip)) = false.
Proof. unfold tip_density. plain_tac. Qed.

Lemma kpfm_sample_plain w ks V : raised_by_script (fst (kpfm_sample w ks V)) = false.
Proof. unfold kpfm_sample, load_by_extension. plain_tac. Qed.

Lemma kpfm_tip_plain w a p rho sg :
  raised_by_script (fst (kpfm_tip w a p rho sg)) = false.
Proof. unfold kpfm_tip, diff_density. plain_tac. Qed.

Lemma kpfm_normalize_plain Vs Vt zpos idx :
  forall F1 F2, raised_by_script (kpfm_normalize Vs Vt zpos idx F1 F2) = false.
Proof.
  induction idx as [|i idx IH]; intros F1 F2; cbn [kpfm_normalize].
  - reflexivity.
  - destruct (nth_error F1 i); [|reflexivity].
    destruct Vs; [|reflexivity].
    destruct (nth_error F2 i); [|reflexivity].
    destruct Vt as [[vt|]|]; try reflexivity. apply IH.
Qed.

Lemma kpfm_convs_plain w a smp tip dV lv nd drho sg :
  raised_by_script (fst (kpfm_convs w a smp tip dV lv nd drho sg)) = false.
Proof. rewrite kpfm_convs_eq. cbv zeta. repeat break_match; reflexivity. Qed.

Lemma kpfm_emit_plain w a smp lv nd Vs Vt raw1 raw2 :
  raised_by_script (fst (kpfm_emit w a smp lv nd Vs Vt raw1 raw2)) = false.
Proof.
  rewrite kpfm_emit_eq.
  pose proof (kpfm_normalize_plain Vs Vt (zpos_of a lv nd) (seq 0 (nd0 nd))
                                   raw1 raw2) as N.
  destruct (kpfm_normalize _ _ _ _ _ _) as [e|[F1 F2]]; [exact N|].
  repeat break_match; reflexivity.
Qed.

Lemma final_plain w a smp lv nd tip :
  raised_by_script (fst (final w a smp lv nd tip)) = false.
Proof. rewrite final_eq. cbv zeta. repeat break_match; reflexivity. Qed.

Lemma stage_plain {A B : Type} (m : M A) (e : pyexc) (t : list event) :
  raised_by_script (fst m) = false -> m = (inl e, t) ->
  raised_by_script (@inl pyexc B e) = false.
Proof. intros H ->. destruct e; auto. Qed.

Lemma kpfm_branch_plain w a p smp rho_tip tip ks :
  raised_by_script (fst (kpfm_branch w a p smp rho_tip tip ks)) = false.
Proof.
  destruct (kpfm_branch w a p smp rho_tip tip ks) as [r t] eqn:H.
  destruct (kpfm_branch_run _ _ _ _ _ _ _ _ _ H) as (rs & ts & Es & Qs & R).
  cbn [fst].
  destruct rs as [e|[[[dV lv] nd] hd]].
  { destruct R as [-> _]. eapply stage_plain; [apply kpfm_sample_plain|eauto]. }
  destruct R as (rt & tt & Et & Qt & R).
  destruct rt as [e|[[Vt drho] sg]].
  { destruct R as [-> _]. eapply stage_plain; [apply kpfm_tip_plain|eauto]. }
  destruct R as (rc & tc & Ec & R).
  destruct rc as [e|[[raw1 raw2] tip']].
  { destruct R as [-> _]. eapply stage_plain; [apply kpfm_convs_plain|eauto]. }
  destruct R as (re & te & Ee & _ & R).
  destruct re as [e|u]; subst r; [|reflexivity].
  eapply stage_plain; [apply kpfm_emit_plain|eauto].
Qed.

(** No run ends in an exception raised by the script itself. *)
Lemma main_plain w a : raised_by_script (fst (main w a)) = false.
Proof.
  destruct (main w a) as [r tr] eqn:H. cbn [fst].
  unfold main in H.
  inv_bind H as p t0 H0.
  { eapply stage_plain; [apply load_params_plain|eauto]. }
  inv_bind H as core t1 H1.
  { eapply stage_plain; [apply core_prep_plain|eauto]. }
  inv_bind H as smp t2 H2.
  { eapply stage_plain; [apply load_sample_plain|eauto]. }
  inv_bind H as tip0 t3 H3.
  { eapply stage_plain; [apply tip_script_plain|eauto]. }
  inv_bind H as rt t4 H4.
  { eapply stage_plain; [apply tip_density_plain|eauto]. }
  destruct rt as [rho_tip tip1].
  inv_bind H as rk tk Hk.
  { unfold kpfm_stage in Hk. destruct (KPFM_sample a) as [ks|];
      [|inv_prim Hk].
    eapply stage_plain; [apply kpfm_branch_plain|eauto]. }
  destruct rk as [[tip2 lv] nd].
  destruct r as [e|u]; [|reflexivity].
  eapply stage_plain; [apply final_plain|eauto].
Qed.

End ErrorFacts.

Module ShapeFacts.
Import Pipeline Trace ArrayFacts StageFacts RunFacts BranchFacts EventFacts.

Lemma kpfm_convs_emit_shape w a smp tip dV lv nd drho sg Vs Vt rc tc :
  kpfm_convs w a smp tip dV lv nd drho sg = (rc, tc) ->
  match rc with
  | inl _ => kpfm_shape w tc
  | inr (raw1, raw2, _) =>
      forall re te,
        kpfm_emit w a smp lv nd Vs Vt raw1 raw2 = (re, te) ->
        kpfm_shape w (tc ++ te)
  end.
Proof.
  intro Ec. rewrite kpfm_convs_eq in Ec. cbv zeta in Ec.
  destruct (computeElFF w (conv a dV lv nd tip None))
    as [msg|[[raw1 E1] tl1]] eqn:C1.
  { inversion Ec; subst. right. eexists. left. reflexivity. }
  destruct drho as [d|].
  2:{ inversion Ec; subst. right. eexists. left. reflexivity. }
  destruct (computeElFF w (conv a (s_V smp) lv nd d (Some sg)))
    as [msg|[[raw2 E2] tl2]] eqn:C2; inversion Ec; subst.
  { right. eexists. right. do 2 eexists. split; [exact C1|]. left. reflexivity. }
  intros re te Ee. rewrite kpfm_emit_eq in Ee.
  right. eexists. right. do 2 eexists. split; [exact C1|].
  destruct (kpfm_normalize _ _ _ _ _ _) as [e1|[F1 F2]].
  { inversion Ee; subst. left. reflexivity. }
  destruct (save_vec_field w "FFkpfm_t0sV" _ _ _ _).
  { inversion Ee; subst. left. reflexivity. }
  right. do 2 eexists. split; [exact C2|].
  destruct (save_vec_field w "FFkpfm_tVs0" _ _ _ _); inversion Ee; subst.
  - left. reflexivity.
  - right. eexists. reflexivity.
Qed.

Lemma kpfm_branch_shape w a p smp rho_tip tip ks r t :
  kpfm_branch w a p smp rho_tip tip ks = (r, t) ->
  exists tq tk, t = tq ++ tk /\ quietb tq = true /\ kpfm_shape w tk.
Proof.
  intro H.
  destruct (kpfm_branch_run _ _ _ _ _ _ _ _ _ H) as (rs & ts & Es & Qs & R).
  destruct rs as [e|[[[dV lv] nd] hd]].
  { destruct R as [_ ->]. exists ts, []. rewrite app_nil_r.
    repeat split; auto. left. reflexivity. }
  destruct R as (rt & tt & Et & Qt & R).
  assert (Q : quietb (ts ++ tt) = true) by (rewrite quietb_app, Qs, Qt; reflexivity).
  destruct rt as [e|[[Vt drho] sg]].
  { destruct R as [_ ->]. exists (ts ++ tt), []. rewrite app_nil_r.
    repeat split; auto. left. reflexivity. }
  destruct R as (rc & tc & Ec & R).
  pose proof (kpfm_convs_emit_shape _ _ _ _ _ _ _ _ _ (Vref a) Vt _ _ Ec) as S.
  destruct rc as [e|[[raw1 raw2] tip']].
  { destruct R as [_ ->]. exists (ts ++ tt), tc. rewrite app_assoc. auto. }
  destruct R as (re & te & Ee & -> & _).
  exists (ts ++ tt), (tc ++ te). rewrite <- !app_assoc. repeat split; auto.
  eapply S; eauto.
Qed.

Lemma final_shape_ok w a smp lv nd tip r t :
  final w a smp lv nd tip = (r, t) -> final_shape w t /\ t <> [].
Proof.
  intro H. rewrite final_eq in H. cbv zeta in H.
  destruct (computeElFF w _) as [msg|[[FFel Eel] tl]] eqn:C.
  { inversion H; subst. split; [|discriminate]. right. eexists. left. reflexivity. }
  destruct (save_vec_field w "FFel" _ _ _ _).
  { inversion H; subst. split; [|discriminate]. right. eexists. left. reflexivity. }
  destruct (energy a).
  - destruct (save_scal_field w "Eel" _ _ _ _); inversion H; subst;
      (split; [|discriminate]); right; eexists; right; do 2 eexists;
      (split; [exact C|]).
    + left. reflexivity.
    + right. eexists. reflexivity.
  - inversion H; subst. split; [|discriminate]. right. eexists. right.
    do 2 eexists. split; [exact C|]. left. reflexivity.
Qed.

(** The log of a run: a quiet stretch, then the KPFM branch from line 140
    on, then lines 153-161. *)
Lemma main_shape w a r tr :
  main w a = (r, tr) ->
  exists tq tk tf,
    tr = tq ++ tk ++ tf /\ quietb tq = true /\
    kpfm_shape w tk /\ final_shape w tf.
Proof.
  intro H.
  destruct (main_run _ _ _ _ H) as [(e & _ & Q) | R].
  { exists tr, [], []. rewrite !app_nil_r. repeat split; auto; left; reflexivity. }
  destruct R as (p & core & smp & tip0 & rho_tip & tip1 & tpre & rk & tk
                 & Hpre & Qpre & Hk & R).
  assert (K : exists tq tk', tk = tq ++ tk' /\ quietb tq = true /\ kpfm_shape w tk').
  { unfold kpfm_stage in Hk. destruct (KPFM_sample a) as [ks|].
    - eapply kpfm_branch_shape; eauto.
    - inv_prim Hk. exists [], []. repeat split; auto. left. reflexivity. }
  destruct K as (tq & tk' & -> & Qq & Sk).
  assert (Q : quietb (tpre ++ tq) = true)
    by (rewrite quietb_app, Qpre, Qq; reflexivity).
  destruct R as [(e & -> & -> & ->) | (tip2 & lv & nd & tf & -> & Hf & ->)].
  - exists (tpre ++ tq), tk', []. rewrite app_nil_r, <- app_assoc.
    repeat split; auto. left. reflexivity.
  - exists (tpre ++ tq), tk', tf. rewrite <- !app_assoc.
    repeat split; auto. eapply final_shape_ok; eauto.
Qed.

Lemma kpfm_shape_no_main w tk c :
  kpfm_shape w tk -> In (EvComputeElFF 154 c) tk -> False.
Proof.
  intros [-> | (c1 & [-> | (c2 & o1 & _ & [-> | (o2 & F1 & _ & [-> | (F2 & ->)])])])]
         Hin; in_cases Hin; discriminate.
Qed.

Lemma final_shape_main w tf c :
  final_shape w tf -> In (EvComputeElFF 154 c) tf ->
  exists rest, tf = EvComputeElFF 154 c :: rest.
Proof.
  intros [-> | (c' & [-> | (o & F & _ & [-> | (E & ->)])])] Hin;
    in_cases Hin; try discriminate; inversion Hin; subst; eauto.
Qed.

Lemma main_before_conv w tq tk tf e c :
  quietb tq = true -> kpfm_shape w tk -> final_shape w tf ->
  In (EvComputeElFF 154 c) (tq ++ tk ++ tf) ->
  forall t1 t2, tq ++ tk = t1 ++ e :: t2 ->
  before e (EvComputeElFF 154 c) (tq ++ tk ++ tf).
Proof.
  intros Q Sk Sf Hin t1 t2 E.
  apply in_app_or in Hin. destruct Hin as [Hin|Hin];
    [destruct (conv_not_quiet _ _ _ Q Hin)|].
  apply in_app_or in Hin. destruct Hin as [Hin|Hin];
    [destruct (kpfm_shape_no_main _ _ _ Sk Hin)|].
  destruct (final_shape_main _ _ _ Sf Hin) as (rest & ->).
  exists t1, t2, rest. rewrite app_assoc, E, <- app_assoc. reflexivity.
Qed.

End ShapeFacts.

Module LoadFacts.
Import Pipeline Trace ArrayFacts StageFacts RunFacts BranchFacts EventFacts
       ShapeFacts.

Ltac loads_tac :=
  cbv beta delta [call save lift local ret raise bind];
  repeat (break_match; cbn [fst snd app]); reflexivity.

Lemma grid_loads_app t1 t2 : grid_loads (t1 ++ t2) = grid_loads t1 ++ grid_loads t2.
Proof. apply flat_map_app. Qed.

Lemma load_params_loads w : grid_loads (snd (load_params w)) = [].
Proof. unfold load_params. loads_tac. Qed.

Lemma core_prep_loads w a : grid_loads (snd (core_prep w a)) = [].
Proof. unfold core_prep. loads_tac. Qed.

Lemma load_sample_loads w a :
  at_most "V" (grid_loads (snd (load_sample w a))) = true.
Proof. unfold load_sample, load_by_extension. loads_tac. Qed.

Lemma tip_script_loads w p : grid_loads (snd (tip_script w p)) = [].
Proof. unfold tip_script. loads_tac. Qed.

Lemma tip_density_loads w a core tip :
  at_most "rho_tip" (grid_loads (snd (tip_density w a core tip))) = true.
Proof. unfold tip_density. loads_tac. Qed.

Lemma kpfm_sample_loads w ks V :
  at_most "V_kpfm" (grid_loads (snd (kpfm_sample w ks V))) = true.
Proof. unfold kpfm_sample, load_by_extension. loads_tac. Qed.

Lemma kpfm_tip_loads w a p rho sg :
  at_most "rho_tip_kpfm" (grid_loads (snd (kpfm_tip w a p rho sg))) = true.
Proof. unfold kpfm_tip, diff_density. loads_tac. Qed.

Lemma kpfm_shape_loads w t : kpfm_shape w t -> grid_loads t = [].
Proof.
  intros [-> | (c1 & [-> | (c2 & o1 & _ & [-> | (o2 & F1 & _ & [-> | (F2 & ->)])])])];
    reflexivity.
Qed.

Lemma final_shape_loads w t : final_shape w t -> grid_loads t = [].
Proof.
  intros [-> | (c & [-> | (o & F & _ & [-> | (E & ->)])])]; reflexivity.
Qed.

Lemma stage_loads {A : Type} (P : list string -> Prop) (m : M A) r t :
  P (grid_loads (snd m)) -> m = (r, t) -> P (grid_loads t).
Proof. intros H ->. exact H. Qed.

Lemma kpfm_convs_loads w a smp tip dV lv nd drho sg :
  grid_loads (snd (kpfm_convs w a smp tip dV lv nd drho sg)) = [].
Proof. rewrite kpfm_convs_eq. cbv zeta. repeat break_match; reflexivity. Qed.

Lemma kpfm_emit_loads w a smp lv nd Vs Vt raw1 raw2 :
  grid_loads (snd (kpfm_emit w a smp lv nd Vs Vt raw1 raw2)) = [].
Proof. rewrite kpfm_emit_eq. repeat break_match; reflexivity. Qed.

Lemma final_loads w a smp lv nd tip :
  grid_loads (snd (final w a smp lv nd tip)) = [].
Proof. rewrite final_eq. cbv zeta. repeat break_match; reflexivity. Qed.

Lemma kpfm_branch_loads w a p smp rho_tip tip ks r t :
  kpfm_branch w a p smp rho_tip tip ks = (r, t) ->
  exists l3 l4,
    grid_loads t = l3 ++ l4 /\
    at_most "V_kpfm" l3 = true /\ at_most "rho_tip_kpfm" l4 = true.
Proof.
  intro H.
  destruct (kpfm_branch_run _ _ _ _ _ _ _ _ _ H) as (rs & ts & Es & Qs & R).
  pose proof (stage_loads (fun l => at_most "V_kpfm" l = true) _ _ _
                (kpfm_sample_loads w ks (s_V smp)) Es) as L3.
  destruct rs as [e|[[[dV lv] nd] hd]].
  { destruct R as [_ ->]. exists (grid_loads ts), []. rewrite app_nil_r. auto. }
  destruct R as (rt & tt & Et & Qt & R).
  pose proof (stage_loads (fun l => at_most "rho_tip_kpfm" l = true) _ _ _
                (kpfm_tip_loads w a p rho_tip (p_sigma p)) Et) as L4.
  exists (grid_loads ts), (grid_loads tt). split; [|auto].
  destruct rt as [e|[[Vt drho] sg]].
  { destruct R as [_ ->]. apply grid_loads_app. }
  destruct R as (rc & tc & Ec & R).
  pose proof (stage_loads (fun l => l = []) _ _ _
                (kpfm_convs_loads w a smp tip dV lv nd drho sg) Ec) as Lc.
  destruct rc as [e|[[raw1 raw2] tip']].
  { destruct R as [_ ->]. rewrite !grid_loads_app, Lc, app_nil_r. reflexivity. }
  destruct R as (re & te & Ee & -> & _).
  pose proof (stage_loads (fun l => l = []) _ _ _
                (kpfm_emit_loads w a smp lv nd (Vref a) Vt raw1 raw2) Ee) as Le.
  rewrite !grid_loads_app, Lc, Le, !app_nil_r. reflexivity.
Qed.

(** The grids a run reads: [V], [rho_tip], [V_kpfm], [rho_tip_kpfm], in
    this order, each at most once. *)
Lemma main_loads w a r tr :
  main w a = (r, tr) ->
  exists l1 l2 l3 l4,
    grid_loads tr = l1 ++ l2 ++ l3 ++ l4 /\
    at_most "V" l1 = true /\ at_most "rho_tip" l2 = true /\
    at_most "V_kpfm" l3 = true /\ at_most "rho_tip_kpfm" l4 = true.
Proof.
  intro H. unfold main in H.
  inv_bind H as p t0 H0.
  { exists [], [], [], []. repeat split; auto.
    apply (stage_loads (fun l => l = []) _ _ _ (load_params_loads w) H0). }
  pose proof (stage_loads (fun l => l = []) _ _ _ (load_params_loads w) H0) as L0.
  inv_bind H as core t1 H1.
  { exists [], [], [], []. repeat split; auto. rewrite grid_loads_app, L0.
    apply (stage_loads (fun l => l = []) _ _ _ (core_prep_loads w a) H1). }
  pose proof (stage_loads (fun l => l = []) _ _ _ (core_prep_loads w a) H1) as L1.
  inv_bind H as smp t2 H2.
  { match type of H2 with _ = (_, ?t) => exists (grid_loads t), [], [], [] end.
    rewrite !grid_loads_app, L0, L1, !app_nil_r. repeat split; auto.
    apply (stage_loads (fun l => at_most "V" l = true) _ _ _
             (load_sample_loads w a) H2). }
  pose proof (stage_loads (fun l => at_most "V" l = true) _ _ _
                (load_sample_loads w a) H2) as L2.
  inv_bind H as tip0 t3 H3.
  { exists (grid_loads t2), [], [], [].
    rewrite !grid_loads_app, L0, L1, !app_nil_r. repeat split; auto.
    rewrite (stage_loads (fun l => l = []) _ _ _ (tip_script_loads w p) H3).
    now rewrite app_nil_r. }
  pose proof (stage_loads (fun l => l = []) _ _ _ (tip_script_loads w p) H3) as L3.
  inv_bind H as rt t4 H4.
  { match type of H4 with _ = (_, ?t) =>
      exists (grid_loads t2), (grid_loads t), [], [] end.
    rewrite !grid_loads_app, L0, L1, L3, !app_nil_r. repeat split; auto.
    apply (stage_loads (fun l => at_most "rho_tip" l = true) _ _ _
             (tip_density_loads w a core tip0) H4). }
  pose proof (stage_loads (fun l => at_most "rho_tip" l = true) _ _ _
                (tip_density_loads w a core tip0) H4) as L4.
  destruct rt as [rho_tip tip1].
  assert (K : forall rk tk, kpfm_stage w a p smp rho_tip tip1 = (rk, tk) ->
              exists l3 l4, grid_loads tk = l3 ++ l4 /\
                at_most "V_kpfm" l3 = true /\ at_most "rho_tip_kpfm" l4 = true).
  { intros rk tk Hk. unfold kpfm_stage in Hk.
    destruct (KPFM_sample a) as [ks|].
    - eapply kpfm_branch_loads; eauto.
    - inv_prim Hk. exists [], []. auto. }
  inv_bind H as rk tk Hk.
  { destruct (K _ _ Hk) as (l3 & l4 & E & A3 & A4).
    exists (grid_loads t2), (grid_loads t4), l3, l4.
    rewrite !grid_loads_app, L0, L1, L3, E. cbn [app]. auto. }
  destruct (K _ _ Hk) as (l3 & l4 & E & A3 & A4).
  destruct rk as [[tip2 lv] nd].
  exists (grid_loads t2), (grid_loads t4), l3, l4.
  rewrite !grid_loads_app, L0, L1, L3, E.
  rewrite (stage_loads (fun l => l = []) _ _ _ (final_loads w a smp lv nd tip2) H).
  cbn [app]. rewrite !app_nil_r. auto.
Qed.

Lemma at_most_cases v l : at_most v l = true -> l = [] \/ l = [v].
Proof.
  destruct l as [|x [|y l]]; cbn; intro H; auto; [|discriminate].
  apply String.eqb_eq in H. subst. auto.
Qed.

Lemma main_loads_nodup w a r tr : main w a = (r, tr) -> NoDup (grid_loads tr).
Proof.
  intro H. destruct (main_loads _ _ _ _ H) as (l1 & l2 & l3 & l4 & -> & A1 & A2 & A3 & A4).
  destruct (at_most_cases _ _ A1) as [-> | ->];
    destruct (at_most_cases _ _ A2) as [-> | ->];
    destruct (at_most_cases _ _ A3) as [-> | ->];
    destruct (at_most_cases _ _ A4) as [-> | ->]; cbn [app];
    repeat (constructor; [cbn [In]; intuition discriminate|]); constructor.
Qed.

End LoadFacts.

Module KernelFacts.
Import Pipeline Trace ArrayFacts StageFacts RunFacts BranchFacts EventFacts
       StageResults.

(** The kernel built from a density file: the negation of the loaded
    array as line 85 leaves it. *)
Lemma density_kernel w a r tr td line c :
  main w a = (r, tr) ->
  tip_dens a = Some td ->
  In (EvComputeElFF line c) tr ->
  line <> 141%nat ->
  exists rho0 lv nd hd rho',
    loadXSF w td = inr (rho0, lv, nd, hd) /\
    cc_tip c = TipDensity (arr_neg rho') /\
    ((bSubstractCore a = false /\ rho' = rho0) \/
     (bSubstractCore a = true /\
      exists v Rs el,
        loadValenceElectronDict w = inr v /\
        getAtomsWhichTouchPBCcell w td (Rcore a) = inr (Rs, el) /\
        subtractCoreDensities w rho0 lv el Rs v (Rcore a) hd = inr rho')).
Proof.
  intros H Hd Hin Hline.
  destruct (main_conv _ _ _ _ _ _ H Hin)
    as (p & core & smp & tip0 & rho_tip & tip1 & tpre & Hpre & R).
  destruct Hpre as (t0 & t1 & t2 & t3 & t4 & _ & Hc & _ & _ & Ht & _).
  destruct (tip_density_ok _ _ _ _ _ _ _ _ Ht Hd)
    as (rho0 & lv0 & nd0 & hd0 & rho' & Hl & _ & Htip & Hsub).
  assert (Hk : cc_tip c = tip1).
  { destruct R as [(ks & dV & lv & nd & hd & ts & Vt & drho & sg & tt
                    & _ & _ & _ & [[_ ->] | [-> _]])
                  | (_ & tip2 & lv & nd & tk & Hst & ->)].
    - reflexivity.
    - contradiction Hline; reflexivity.
    - cbn [conv cc_tip]. eapply kpfm_stage_tip; [exact Hst|].
      rewrite Hd; reflexivity. }
  exists rho0, lv0, nd0, hd0, rho'. split; [exact Hl|].
  split; [now rewrite Hk|].
  destruct Hsub as [Hn | (Hb & v & Rs & el & -> & Hs)]; [left; exact Hn|].
  right. split; [exact Hb|].
  destruct (core_prep_ok _ _ _ _ Hc Hb) as (td' & v' & RsEl & Hd' & Hv & Hr & E).
  rewrite Hd in Hd'. inversion Hd'; subst td'.
  inversion E; subst v' RsEl.
  exists v, Rs, el. auto.
Qed.


Lemma pair_eq_inr {A B : Type} (x y : A) (t u : list B) (e : pyexc + A) :
  e = inr x -> (e, t) = (inr y, u) -> x = y /\ t = u.
Proof. intros -> H. inversion H. auto. Qed.

(** The stages before line 89 are functions of the world and the command
    line. *)
Lemma prefix_ok_det w a p core smp tip0 rho_tip tip1 tpre
      p' core' smp' tip0' rho_tip' tip1' tpre' :
  prefix_ok w a p core smp tip0 rho_tip tip1 tpre ->
  prefix_ok w a p' core' smp' tip0' rho_tip' tip1' tpre' ->
  p = p' /\ core = core' /\ smp = smp' /\ tip0 = tip0' /\
  rho_tip = rho_tip' /\ tip1 = tip1' /\ tpre = tpre'.
Proof.
  intros (t0 & t1 & t2 & t3 & t4 & Hp & Hc & Hs & Ht & Hr & ->)
         (u0 & u1 & u2 & u3 & u4 & Hp' & Hc' & Hs' & Ht' & Hr' & ->).
  rewrite Hp in Hp'. inversion Hp'; subst p' u0.
  rewrite Hc in Hc'. inversion Hc'; subst core' u1.
  rewrite Hs in Hs'. inversion Hs'; subst smp' u2.
  rewrite Ht in Ht'. inversion Ht'; subst tip0' u3.
  rewrite Hr in Hr'. inversion Hr'; subst rho_tip' tip1' u4.
  repeat split; reflexivity.
Qed.

(** What the KPFM stage hands on to line 154. *)
Lemma kpfm_stage_result w a p smp rho_tip tip tip2 lv nd t :
  kpfm_stage w a p smp rho_tip tip = (inr (tip2, lv, nd), t) ->
  (KPFM_sample a = None /\ tip2 = tip) \/
  (exists ks dV hd ts o1,
      KPFM_sample a = Some ks /\
      kpfm_sample w ks (s_V smp) = (inr (dV, lv, nd, hd), ts) /\
      computeElFF w (conv a dV lv nd tip None) = inr o1 /\
      tip2 = if is_some (tip_dens a) then tip else after_call tip (snd o1)).
Proof.
  unfold kpfm_stage. intro H.
  destruct (KPFM_sample a) as [ks|]; [|inv_prim H; left; auto].
  right.
  destruct (kpfm_branch_run _ _ _ _ _ _ _ _ _ H) as (rs & ts & Es & Qs & R).
  destruct rs as [e|[[[dV lv'] nd'] hd]]; [destruct R; discriminate|].
  destruct R as (rt & tt & Et & Qt & R).
  destruct rt as [e|[[Vt drho] sg]]; [destruct R; discriminate|].
  destruct R as (rc & tc & Ec & R).
  destruct rc as [e|[[raw1 raw2] tip']]; [destruct R; discriminate|].
  destruct R as (re & te & Ee & _ & R).
  destruct re as [e|u]; [discriminate|]. inversion R; subst tip' lv' nd'.
  rewrite kpfm_convs_eq in Ec. cbv zeta in Ec.
  destruct (computeElFF w (conv a dV lv nd tip None))
    as [msg|[[r1 E1] tl]] eqn:C1; [discriminate|].
  destruct drho as [d|]; [|discriminate].
  destruct (computeElFF w (conv a (s_V smp) lv nd d (Some sg)))
    as [msg|[[r2 E2] tl2]]; [discriminate|].
  inversion Ec; subst.
  exists ks, dV, hd, ts. eexists. split; [reflexivity|]. split; [exact Es|].
  split; [exact C1|]. reflexivity.
Qed.

End KernelFacts.

Module BiasFacts.
Import Pipeline Trace ArrayFacts StageFacts RunFacts BranchFacts EventFacts
       StageResults NormalizeFacts KernelFacts.

(** The potential every convolution of a run is given: the array of the
    input file, negated by line 69, at lines 141 and 154; at line 140 the
    array of [--KPFM_sample] as it was loaded, minus the negated array of the
    input file. *)
Lemma potential_of_convolution w a r tr line c :
  main w a = (r, tr) ->
  In (EvComputeElFF line c) tr ->
  exists V0,
    loaded_data (load_by_extension w 64 68 (input a)) = Some V0 /\
    (((line = 154 \/ line = 141)%nat /\ cc_V c = arr_neg V0) \/
     (line = 140%nat /\
      exists ks Vk,
        KPFM_sample a = Some ks /\
        loaded_data (load_by_extension w 100 106 ks) = Some Vk /\
        arr_sub Vk (arr_neg V0) = Some (cc_V c))).
Proof.
  intros H Hin.
  destruct (main_conv _ _ _ _ _ _ H Hin)
    as (p & core & smp & tip0 & rho_tip & tip1 & tpre & Hpre & R).
  destruct Hpre as (t0 & t1 & t2 & t3 & t4 & _ & _ & Hs & _).
  destruct (load_sample_ok _ _ _ _ Hs) as (V0 & HV0 & HV).
  exists V0. split; [exact HV0|]. rewrite <- HV.
  destruct R as [(ks & dV & lv & nd & hd & ts & Vt & drho & sg & tt
                  & Hks & Hsm & _ & [[-> ->] | [-> (d & _ & ->)]])
                | (-> & tip2 & lv & nd & tk & _ & ->)].
  - right. split; [reflexivity|].
    destruct (kpfm_sample_ok _ _ _ _ _ _ _ _ Hsm) as (Vk & HVk & Hsub).
    exists ks, Vk. auto.
  - left. auto.
  - left. auto.
Qed.

(** What lines 111-120 assign when the tip under bias is read from a file:
    the difference of the two densities as they are, without a change of
    sign, and [args.Vref]. *)
Lemma kpfm_tip_file w a p rho_tip sg Vt d sg' t :
  kpfm_tip w a p rho_tip sg = (inr (Vt, Some d, sg'), t) ->
  is_tip_token (KPFM_tip a) = false ->
  exists rho' rk lv nd hd dd,
    rho_tip = Some rho' /\
    ((endswith (lower (KPFM_tip a)) ".xsf" = true /\
      loadXSF w (KPFM_tip a) = inr (rk, lv, nd, hd)) \/
     (endswith (lower (KPFM_tip a)) ".xsf" = false /\
      endswith (lower (KPFM_tip a)) ".cube" = true /\
      exists b, borh a = Some b /\
                loadCUBE_density w (KPFM_tip a) b = inr (rk, lv, nd, hd))) /\
    arr_sub rk rho' = Some dd /\
    d = TipDensity dd /\ Vt = Some (Vref a) /\ sg' = sg.
Proof.
  unfold kpfm_tip. cbv zeta. intros H Htok. rewrite Htok in H.
  destruct (endswith (lower (KPFM_tip a)) ".xsf") eqn:Ex.
  { inv_ok H as rho0 t0 H0. inv_ok H as ld tl Hl.
    destruct ld as [[[rk lv] nd] hd].
    inv_ok H as d0 td Hd. inv_prim H. inv_prim H0. inv_prim Hl.
    unfold diff_density in Hd. destruct (arr_sub rk rho0) as [dd|] eqn:Es; inv_prim Hd.
    exists rho0, rk, lv, nd, hd, dd. auto 10. }
  destruct (endswith (lower (KPFM_tip a)) ".cube") eqn:Ec.
  { inv_ok H as rho0 t0 H0. destruct (borh a) as [b|] eqn:Eb; [|inv_prim H].
    inv_ok H as ld tl Hl. destruct ld as [[[rk lv] nd] hd].
    inv_ok H as d0 td Hd. inv_prim H. inv_prim H0. inv_prim Hl.
    unfold diff_density in Hd. destruct (arr_sub rk rho0) as [dd|] eqn:Es; inv_prim Hd.
    exists rho0, rk, lv, nd, hd, dd.
    split; [reflexivity|]. split; [right; eauto 10|]. auto. }
  inv_prim H.
Qed.

(** The kernel of the second KPFM convolution (line 141) when the tip
    under bias is read from a file: the density of [--KPFM_tip] as it was
    loaded, minus the density of [--tip_dens] as line 85 left it.  Neither
    array is negated, and only the second has had its core densities
    subtracted. *)
Lemma biased_density_kernel w a r tr c :
  main w a = (r, tr) ->
  In (EvComputeElFF 141 c) tr ->
  is_tip_token (KPFM_tip a) = false ->
  exists td rho0 lv nd hd rho' rk lvk ndk hdk d,
    tip_dens a = Some td /\
    loadXSF w td = inr (rho0, lv, nd, hd) /\
    ((bSubstractCore a = false /\ rho' = rho0) \/
     (bSubstractCore a = true /\
      exists v Rs el,
        loadValenceElectronDict w = inr v /\
        getAtomsWhichTouchPBCcell w td (Rcore a) = inr (Rs, el) /\
        subtractCoreDensities w rho0 lv el Rs v (Rcore a) hd = inr rho')) /\
    ((endswith (lower (KPFM_tip a)) ".xsf" = true /\
      loadXSF w (KPFM_tip a) = inr (rk, lvk, ndk, hdk)) \/
     (endswith (lower (KPFM_tip a)) ".xsf" = false /\
      endswith (lower (KPFM_tip a)) ".cube" = true /\
      exists b, borh a = Some b /\
                loadCUBE_density w (KPFM_tip a) b = inr (rk, lvk, ndk, hdk))) /\
    arr_sub rk rho' = Some d /\
    cc_tip c = TipDensity d.
Proof.
  intros H Hin Htok.
  destruct (main_conv _ _ _ _ _ _ H Hin)
    as (p & core & smp & tip0 & rho_tip & tip1 & tpre & Hpre & R).
  destruct Hpre as (t0 & t1 & t2 & t3 & t4 & _ & Hc & _ & _ & Ht & _).
  destruct R as [(ks & dV & lv & nd & hd & ts & Vt & drho & sg & tt
                  & _ & _ & Hk & [[Hl _] | [_ (d & -> & ->)]])
                | (Hl & _)]; try discriminate.
  destruct (kpfm_tip_file _ _ _ _ _ _ _ _ _ Hk Htok)
    as (rho' & rk & lvk & ndk & hdk & dd & -> & Hload & Hsub & -> & _ & _).
  destruct (tip_dens a) as [td|] eqn:Hd.
  2:{ rewrite (tip_density_none _ _ _ _ Hd) in Ht. discriminate. }
  destruct (tip_density_ok _ _ _ _ _ _ _ _ Ht Hd)
    as (rho0 & lv0 & nd0 & hd0 & rho1 & Hl & Er & _ & Hcore).
  inversion Er; subst rho1.
  exists td, rho0, lv0, nd0, hd0, rho', rk, lvk, ndk, hdk, dd.
  split; [reflexivity|]. split; [exact Hl|].
  split.
  { destruct Hcore as [Hn | (Hb & v & Rs & el & -> & Hs)]; [left; exact Hn|].
    right. split; [exact Hb|].
    destruct (core_prep_ok _ _ _ _ Hc Hb) as (td' & v' & RsEl & Hd' & Hv & Hr & E).
    rewrite Hd in Hd'. inversion Hd'; subst td'.
    inversion E; subst v' RsEl.
    exists v, Rs, el. auto. }
  split; [exact Hload|]. split; [exact Hsub|]. reflexivity.
Qed.

End BiasFacts.

Module Claims.
Import Pipeline Trace ArrayFacts StageFacts RunFacts BranchFacts EventFacts
       StageResults NormalizeFacts SaveFacts ReachFacts ErrorFacts ShapeFacts
       LoadFacts KernelFacts Demo BiasRuns.

Ltac in_list := repeat (first [left; reflexivity | right]).

(** C2 (as the script behaves).  In the run
    [ppafm-generate-elff -i sample.xsf --tip_dens tip.xsf --doDensity
    --energy --KPFM_sample sample_bias.xsf --Vref 1] the array of the input
    file reaches the convolutions of lines 141 and 154 multiplied by -1, as
    line 69 leaves it.  The array of [sample_bias.xsf], a Hartree potential
    read from a file by the same loader (line 100), is never multiplied by
    -1: the convolution of line 140 is given [V_kpfm - (-V)], the sum of
    the two loaded arrays, and not the difference [(-V_kpfm) - (-V)] of the
    two negated potentials. *)
Theorem bias_potential_not_negated :
  exists V0 Vk c140 c141 c154,
    loaded_data (load_by_extension world_demo 64 68 (input args_kpfm)) = Some V0 /\
    V0 = [[[1; 2]]; [[3; 4]]] /\
    KPFM_sample args_kpfm = Some "sample_bias.xsf" /\
    loaded_data (load_by_extension world_demo 100 106 "sample_bias.xsf") = Some Vk /\
    Vk = [[[2; 2]]; [[5; 8]]] /\
    In (EvComputeElFF 154 c154) (snd (main world_demo args_kpfm)) /\
    cc_V c154 = arr_neg V0 /\
    In (EvComputeElFF 141 c141) (snd (main world_demo args_kpfm)) /\
    cc_V c141 = arr_neg V0 /\
    In (EvComputeElFF 140 c140) (snd (main world_demo args_kpfm)) /\
    cc_V c140 = [[[3; 4]]; [[8; 12]]] /\
    arr_sub Vk (arr_neg V0) = Some (cc_V c140) /\
    arr_sub (arr_neg Vk) (arr_neg V0) = Some [[[-1; 0]]; [[-2; -4]]] /\
    cc_V c140 <> [[[-1; 0]]; [[-2; -4]]].
Proof.
  exists V_file, V_bias_file,
    (conv args_kpfm [[[3; 4]]; [[8; 12]]] lvec_demo nDim_demo kernel_demo None),
    (conv args_kpfm V_demo lvec_demo nDim_demo (TipMultipole [("pz", -0.045)])
          (Some 0.48)),
    (conv args_kpfm V_demo lvec_demo nDim_demo kernel_demo None).
  repeat split; try reflexivity; try solve [vm_compute; in_list].
  cbn. discriminate.
Qed.

(** C5 (as the script behaves).  In the run
    [ppafm-generate-elff -i sample.xsf --tip_dens tip.xsf --doDensity
    --KPFM_sample sample_bias.xsf --KPFM_tip tip_bias.xsf --Vref 1] the
    density of [tip.xsf] has its core densities subtracted and is negated
    (lines 85 and 87): that is the kernel of the convolutions of lines 140
    and 154.  The density of [tip_bias.xsf], read from a grid file by the
    same loader (line 114), is neither negated nor core-subtracted: the
    kernel of the convolution of line 141 is [rho_tip_kpfm - rho_tip], a
    difference of two densities as they are, and not the negated one. *)
Theorem bias_density_not_negated :
  exists rho0 rho' rhok lv nd hd hdk c140 c141 c154,
    tip_dens args_kpfm_densities = Some "tip.xsf" /\
    loadXSF world_demo "tip.xsf" = inr (rho0, lv, nd, hd) /\
    rho0 = [[[1; 0]]; [[0; 2]]] /\
    bSubstractCore args_kpfm_densities = true /\
    subtractCoreDensities world_demo rho0 lv [6%Z] [(0, 0, 0)]
                          [(6%Z, 4%nat); (8%Z, 6%nat)]
                          (Rcore args_kpfm_densities) hd = inr rho' /\
    rho' = [[[0; -1]]; [[-1; 1]]] /\
    KPFM_tip args_kpfm_densities = "tip_bias.xsf" /\
    loadXSF world_demo "tip_bias.xsf" = inr (rhok, lv, nd, hdk) /\
    rhok = [[[2; 0]]; [[0; 2]]] /\
    In (EvComputeElFF 140 c140) (snd (main world_demo args_kpfm_densities)) /\
    cc_tip c140 = TipDensity (arr_neg rho') /\
    In (EvComputeElFF 154 c154) (snd (main world_demo args_kpfm_densities)) /\
    cc_tip c154 = TipDensity (arr_neg rho') /\
    In (EvComputeElFF 141 c141) (snd (main world_demo args_kpfm_densities)) /\
    cc_tip c141 = TipDensity [[[2; 1]]; [[1; 1]]] /\
    arr_sub rhok rho' = Some [[[2; 1]]; [[1; 1]]] /\
    arr_sub (arr_neg rhok) (arr_neg rho') = Some [[[-2; -1]]; [[-1; -1]]] /\
    cc_tip c141 <> TipDensity [[[-2; -1]]; [[-1; -1]]] /\
    cc_tip c141 <> TipDensity (arr_neg rhok).
Proof.
  exists rho_file, [[[0; -1]]; [[-1; 1]]], rho_bias_file, lvec_demo, nDim_demo,
    ["tip"], ["tip under bias"],
    (conv args_kpfm_densities [[[3; 4]]; [[8; 12]]] lvec_demo nDim_demo
          kernel_demo None),
    (conv args_kpfm_densities V_demo lvec_demo nDim_demo
          (TipDensity [[[2; 1]]; [[1; 1]]]) (Some 0.7)),
    (conv args_kpfm_densities V_demo lvec_demo nDim_demo kernel_demo None).
  repeat split; try reflexivity; try solve [vm_compute; in_list];
    cbn; discriminate.
Qed.

(** C3 (as the script behaves).  In the run
    [ppafm-generate-elff -i sample.xsf --KPFM_sample sample_bias.xsf
    --Vref 1] on a grid of three slices whose origin is at height 2 and
    whose cell is 1 high, line 144 takes the heights from [lvec[0,2] = 2]
    to [lvec[3,2] = 1]: 2, 1.5 and 1.  The slices of [FFkpfm_t0sV] are the
    raw slices divided by [1 * (2 + 0.1)], [1 * (1.5 + 0.1)] and
    [1 * (1 + 0.1)].  The slices of the grid lie between the heights 2 and
    3: for the second and the third slice no height from 2 on gives the
    quotient that was written. *)
Theorem raised_grid_heights :
  exists c raw E tl F za zb zc,
    In (EvComputeElFF 140 c) (snd (main world_raised args_raised)) /\
    computeElFF world_raised c = inr (raw, E, tl) /\
    In (EvSaveVec "FFkpfm_t0sV" F) (snd (main world_raised args_raised)) /\
    Vref args_raised = Some 1 /\ z0 args_raised = 0 /\
    vz (lv0 (cc_lvec c)) = 2 /\ vz (lv3 (cc_lvec c)) = 1 /\
    nd0 (cc_nDim c) = 3%nat /\
    raw = [[[(0, 0, 3)]]; [[(0, 0, 6)]]; [[(0, 0, 10)]]] /\
    F = [[[(0 # 42, 0 # 42, za)]]; [[(0 # 32, 0 # 32, zb)]];
         [[(0 # 11, 0 # 11, zc)]]] /\
    za == 3 / (1 * (2 - 0 + 0.1)) /\
    zb == 6 / (1 * (1.5 - 0 + 0.1)) /\
    zc == 10 / (1 * (1 - 0 + 0.1)) /\
    (forall h : Q, 2 <= h -> ~ zb == 6 / (1 * (h - 0 + 0.1))) /\
    (forall h : Q, 2 <= h -> ~ zc == 10 / (1 * (h - 0 + 0.1))).
Proof.
  exists (conv args_raised [[[3]]; [[6]]; [[10]]] lvec_raised nDim_raised
               (TipToken "s") None),
    [[[(0, 0, 3)]]; [[(0, 0, 6)]]; [[(0, 0, 10)]]], None, (TipToken "s"),
    [[[(0 # 42, 0 # 42, 60 # 42)]]; [[(0 # 32, 0 # 32, 120 # 32)]];
     [[(0 # 11, 0 # 11, 100 # 11)]]],
    (60 # 42), (120 # 32), (100 # 11).
  repeat split; try reflexivity; try solve [vm_compute; in_list].
  - intros h Hh Hz.
    assert (H1 : (120 # 32) * (1 * (h - 0 + 0.1)) == 6).
    { rewrite Hz. field. intro E. lra. }
    lra.
  - intros h Hh Hz.
    assert (H1 : (100 # 11) * (1 * (h - 0 + 0.1)) == 10).
    { rewrite Hz. field. intro E. lra. }
    lra.
Qed.



(** C4 (as the script behaves).  With core subtraction asked for
    ([--doDensity], [Rcore = 0.7 > 0]) and no tip density, line 51 makes
    [bSubstractCore] false, the check of line 53 is skipped and the run
    completes. *)
Theorem core_check_skipped :
  doDensity args_core_no_density = true /\
  Qgt_bool (Rcore args_core_no_density) 0 = true /\
  tip_dens args_core_no_density = None /\
  core_prep world_demo args_core_no_density = (inr None, []) /\
  fst (main world_demo args_core_no_density) = inr tt.
Proof. repeat split; vm_compute; reflexivity. Qed.

(** C7, against the claim: the main convolution fails on a sample grid
    that is narrower than the tip grid, and both KPFM maps have been
    written before it started. *)
Lemma kpfm_files_before_main_failure :
  fst (main world_demo args_kpfm_narrow) = inl (PyExternal "ShapeMismatch") /\
  exists t c F1 F2,
    snd (main world_demo args_kpfm_narrow) =
    t ++ [EvSaveVec "FFkpfm_t0sV" F1; EvSaveVec "FFkpfm_tVs0" F2;
          EvComputeElFF 154 c] /\
    computeElFF world_demo c = inl "ShapeMismatch".
Proof.
  split; [vm_compute; reflexivity|].
  eexists (firstn 7 (snd (main world_demo args_kpfm_narrow))).
  do 3 eexists. split; vm_compute; reflexivity.
Qed.

(** C7, amended.  A file is written only after the convolutions that
    produce it have succeeded: the two KPFM maps after the convolutions of
    lines 140 and 141, [FFel] and [Eel] after the main convolution of line
    154.  The KPFM maps are written before the main convolution starts. *)
Theorem output_follows_its_convolutions w a r tr e :
  main w a = (r, tr) ->
  In e tr -> is_save e = true ->
  (exists F c1 c2 o1 o2,
      (e = EvSaveVec "FFkpfm_t0sV" F \/ e = EvSaveVec "FFkpfm_tVs0" F) /\
      before (EvComputeElFF 140 c1) e tr /\
      before (EvComputeElFF 141 c2) e tr /\
      computeElFF w c1 = inr o1 /\ computeElFF w c2 = inr o2 /\
      forall c, In (EvComputeElFF 154 c) tr ->
                before e (EvComputeElFF 154 c) tr) \/
  (exists c o,
      ((exists F, e = EvSaveVec "FFel" F) \/ (exists E, e = EvSaveScal "Eel" E)) /\
      before (EvComputeElFF 154 c) e tr /\
      computeElFF w c = inr o).
Proof.
  intros H Hin Hs.
  destruct (main_shape _ _ _ _ H) as (tq & tk & tf & -> & Q & Sk & Sf).
  apply in_app_or in Hin. destruct Hin as [Hin|Hin];
    [destruct (save_not_quiet _ _ Q Hin Hs)|].
  apply in_app_or in Hin. destruct Hin as [Hin|Hin].
  - left.
    destruct Sk as [-> | (c1 & [-> | (c2 & o1 & C1 & [-> | (o2 & F1 & C2 & S)])])];
      try (in_cases Hin; subst; discriminate Hs).
    destruct S as [E | (F2 & E)].
    + assert (Sk : kpfm_shape w tk).
      { right. exists c1. right. exists c2, o1. split; [exact C1|]. right.
        exists o2, F1. split; [exact C2|]. left. exact E. }
      subst tk. in_cases Hin; subst; try discriminate Hs.
      exists F1, c1, c2, o1, o2. split; [auto|].
      split; [exists tq, [EvComputeElFF 141 c2], tf; reflexivity|].
      split; [exists (tq ++ [EvComputeElFF 140 c1]), [], tf;
              rewrite <- app_assoc; reflexivity|].
      split; [exact C1|]. split; [exact C2|].
      intros c Hc.
      apply (main_before_conv _ _ _ _ _ _ Q Sk Sf Hc
               (tq ++ [EvComputeElFF 140 c1; EvComputeElFF 141 c2]) []).
      rewrite <- app_assoc. reflexivity.
    + assert (Sk : kpfm_shape w tk).
      { right. exists c1. right. exists c2, o1. split; [exact C1|]. right.
        exists o2, F1. split; [exact C2|]. right. exists F2. exact E. }
      subst tk. in_cases Hin; subst; try discriminate Hs.
      * exists F1, c1, c2, o1, o2. split; [auto|].
        split; [exists tq, [EvComputeElFF 141 c2],
                  (EvSaveVec "FFkpfm_tVs0" F2 :: tf); reflexivity|].
        split; [exists (tq ++ [EvComputeElFF 140 c1]), [],
                  (EvSaveVec "FFkpfm_tVs0" F2 :: tf);
                rewrite <- app_assoc; reflexivity|].
        split; [exact C1|]. split; [exact C2|].
        intros c Hc.
        apply (main_before_conv _ _ _ _ _ _ Q Sk Sf Hc
                 (tq ++ [EvComputeElFF 140 c1; EvComputeElFF 141 c2])
                 [EvSaveVec "FFkpfm_tVs0" F2]).
        rewrite <- app_assoc. reflexivity.
      * exists F2, c1, c2, o1, o2. split; [auto|].
        split; [exists tq, [EvComputeElFF 141 c2; EvSaveVec "FFkpfm_t0sV" F1], tf;
                reflexivity|].
        split; [exists (tq ++ [EvComputeElFF 140 c1]),
                  [EvSaveVec "FFkpfm_t0sV" F1], tf;
                rewrite <- app_assoc; reflexivity|].
        split; [exact C1|]. split; [exact C2|].
        intros c Hc.
        apply (main_before_conv _ _ _ _ _ _ Q Sk Sf Hc
                 (tq ++ [EvComputeElFF 140 c1; EvComputeElFF 141 c2;
                         EvSaveVec "FFkpfm_t0sV" F1]) []).
        rewrite <- app_assoc. reflexivity.
  - right.
    destruct Sf as [-> | (c & [-> | (o & F & C & [-> | (E & ->)])])];
      try (in_cases Hin; subst; discriminate Hs).
    + in_cases Hin; subst; try discriminate Hs.
      exists c, o. split; [eauto|]. split; [|exact C].
      exists (tq ++ tk), [], []. rewrite <- app_assoc. reflexivity.
    + in_cases Hin; subst; try discriminate Hs.
      * exists c, o. split; [eauto|]. split; [|exact C].
        exists (tq ++ tk), [], [EvSaveScal "Eel" E].
        rewrite <- app_assoc. reflexivity.
      * exists c, o. split; [eauto|]. split; [|exact C].
        exists (tq ++ tk), [EvSaveVec "FFel" F], [].
        rewrite <- app_assoc. reflexivity.
Qed.

Lemma output_follows_its_convolutions_witness :
  (exists F c1 c2 o1 o2,
      (EvSaveVec "FFkpfm_tVs0" F_tVs0_demo = EvSaveVec "FFkpfm_t0sV" F \/
       EvSaveVec "FFkpfm_tVs0" F_tVs0_demo = EvSaveVec "FFkpfm_tVs0" F) /\
      before (EvComputeElFF 140 c1) (EvSaveVec "FFkpfm_tVs0" F_tVs0_demo)
             (snd (main world_demo args_kpfm)) /\
      before (EvComputeElFF 141 c2) (EvSaveVec "FFkpfm_tVs0" F_tVs0_demo)
             (snd (main world_demo args_kpfm)) /\
      computeElFF world_demo c1 = inr o1 /\ computeElFF world_demo c2 = inr o2 /\
      forall c, In (EvComputeElFF 154 c) (snd (main world_demo args_kpfm)) ->
                before (EvSaveVec "FFkpfm_tVs0" F_tVs0_demo) (EvComputeElFF 154 c)
                       (snd (main world_demo args_kpfm))) \/
  (exists c o,
      ((exists F, EvSaveVec "FFkpfm_tVs0" F_tVs0_demo = EvSaveVec "FFel" F) \/
       (exists E, EvSaveVec "FFkpfm_tVs0" F_tVs0_demo = EvSaveScal "Eel" E)) /\
      before (EvComputeElFF 154 c) (EvSaveVec "FFkpfm_tVs0" F_tVs0_demo)
             (snd (main world_demo args_kpfm)) /\
      computeElFF world_demo c = inr o).
Proof.
  apply (output_follows_its_convolutions world_demo args_kpfm
           (fst (main world_demo args_kpfm))).
  - vm_compute. reflexivity.
  - vm_compute. in_list.
  - reflexivity.
Defined.

(** C6, against the claim: a KPFM run without [--Vref] goes through both
    KPFM convolutions and then ends in Python's [TypeError] for
    [None * float] (line 146), not in an error raised by the script. *)
Lemma missing_vref_counterexample :
  KPFM_sample args_kpfm_no_vref = Some "sample_bias.xsf" /\
  Vref args_kpfm_no_vref = None /\
  fst (main world_demo args_kpfm_no_vref) = inl none_times_float /\
  raised_by_script (fst (main world_demo args_kpfm_no_vref)) = false /\
  exists c1 c2,
    In (EvComputeElFF 140 c1) (snd (main world_demo args_kpfm_no_vref)) /\
    In (EvComputeElFF 141 c2) (snd (main world_demo args_kpfm_no_vref)).
Proof.
  repeat split; try (vm_compute; reflexivity).
  do 2 eexists. split; vm_compute; in_list.
Qed.

Lemma kpfm_normalize_no_vref Vt zpos n F1 F2 :
  kpfm_normalize None Vt zpos (seq 0 (S n)) F1 F2 = inl none_times_float \/
  kpfm_normalize None Vt zpos (seq 0 (S n)) F1 F2 = inl (PyIndexError "FFkpfm_t0sV").
Proof. cbn [seq kpfm_normalize]. destruct (nth_error F1 0); auto. Qed.

(** C6, amended.  No run ends in an error raised by the script.  A run
    without [--Vref] whose two KPFM convolutions have succeeded on a grid
    with at least one z-slice ends at the first pass of the loop of lines
    145-147, in the [TypeError] of [Vref_s * (zpos[0] + 0.1)] (or in an
    [IndexError] when the first output has no slice), and has written no
    file. *)
Theorem missing_vref_type_error w a r tr :
  main w a = (r, tr) ->
  Vref a = None ->
  raised_by_script r = false /\
  forall c2 o2,
    In (EvComputeElFF 141 c2) tr ->
    computeElFF w c2 = inr o2 ->
    (0 < nd0 (cc_nDim c2))%nat ->
    (r = inl none_times_float \/ r = inl (PyIndexError "FFkpfm_t0sV")) /\
    forall e, In e tr -> is_save e = false.
Proof.
  intros H HV. split.
  { pose proof (main_plain w a) as P. rewrite H in P. exact P. }
  intros c2 o2 Hin Hc2 Hn.
  destruct (main_run _ _ _ _ H) as [(e & _ & Q) | R];
    [destruct (conv_not_quiet _ _ _ Q Hin)|].
  destruct R as (p & core & smp & tip0 & rho_tip & tip1 & tpre & rk & tk
                 & Hpre & Qpre & Hk & R).
  assert (HK : In (EvComputeElFF 141 c2) tk).
  { destruct R as [(e & -> & -> & ->) | (tip2 & lv & nd & tf & -> & Hf & ->)];
      apply in_app_or in Hin; destruct Hin as [Hin|Hin];
      try (destruct (conv_not_quiet _ _ _ Qpre Hin)); auto.
    apply in_app_or in Hin. destruct Hin as [Hin|Hin]; auto.
    destruct (final_conv _ _ _ _ _ _ _ _ _ _ Hf Hin); discriminate. }
  unfold kpfm_stage in Hk.
  destruct (KPFM_sample a) as [ks|]; [|inv_prim Hk; destruct HK].
  destruct (kpfm_branch_run _ _ _ _ _ _ _ _ _ Hk) as (rs & ts & Es & Qs & B).
  destruct rs as [e|[[[dV lv] nd] hd]].
  { destruct B as [_ ->]. destruct (conv_not_quiet _ _ _ Qs HK). }
  destruct B as (rt & tt & Et & Qt & B).
  destruct rt as [e|[[Vt drho] sg]].
  { destruct B as [_ ->]. apply in_app_or in HK.
    destruct HK as [HK|HK]; [destruct (conv_not_quiet _ _ _ Qs HK)
                            |destruct (conv_not_quiet _ _ _ Qt HK)]. }
  destruct B as (rc & tc & Ec & B).
  rewrite kpfm_convs_eq in Ec. cbv zeta in Ec.
  assert (Hemit : forall raw1 raw2,
             exists e, kpfm_emit w a smp lv nd (Vref a) Vt raw1 raw2 = (inl e, []) /\
                       (e = none_times_float \/ e = PyIndexError "FFkpfm_t0sV") \/
             nd0 nd = 0%nat).
  { intros raw1 raw2. rewrite kpfm_emit_eq, HV.
    destruct (nd0 nd) as [|n]; [exists none_times_float; auto|].
    destruct (kpfm_normalize_no_vref Vt (zpos_of a lv nd) n raw1 raw2) as [E|E];
      rewrite E; eexists; left; split; eauto. }
  assert (Hq : forall e, In e (tpre ++ ts ++ tt) -> is_save e = false).
  { intros e He. eapply quiet_in; [|exact He].
    rewrite !quietb_app, Qpre, Qs, Qt. reflexivity. }
  destruct (computeElFF w (conv a dV lv nd tip1 None))
    as [msg|[[raw1 E1] tl1]] eqn:C1.
  { exfalso. inversion Ec; subst. destruct B as [_ ->].
    in_cases HK; try (eapply conv_not_quiet; [|eassumption]; assumption).
    discriminate. }
  destruct drho as [d|].
  2:{ exfalso. inversion Ec; subst. destruct B as [_ ->].
      in_cases HK; try (eapply conv_not_quiet; [|eassumption]; assumption).
      discriminate. }
  destruct (computeElFF w (conv a (s_V smp) lv nd d (Some sg)))
    as [msg|[[raw2 E2] tl2]] eqn:C2; inversion Ec; subst rc tc.
  { exfalso. destruct B as [_ ->].
    in_cases HK; try (eapply conv_not_quiet; [|eassumption]; assumption);
      try discriminate.
    inversion HK; subst c2. congruence. }
  destruct B as (re & te & Ee & -> & Hre).
  assert (Hc : c2 = conv a (s_V smp) lv nd d (Some sg)).
  { in_cases HK; try (exfalso; eapply conv_not_quiet; [|eassumption]; assumption);
      try discriminate.
    - inversion HK; reflexivity.
    - exfalso. rewrite kpfm_emit_eq in Ee.
      destruct (kpfm_normalize _ _ _ _ _ _) as [e1|[F1 F2]];
        [inversion Ee; subst; destruct HK|].
      destruct (save_vec_field w "FFkpfm_t0sV" _ _ _ _);
        [inversion Ee; subst; destruct HK|].
      destruct (save_vec_field w "FFkpfm_tVs0" _ _ _ _);
        inversion Ee; subst; in_cases HK; discriminate. }
  subst c2. cbn [conv cc_nDim] in Hn.
  destruct (Hemit raw1 raw2) as (e & [[Ee' He] | Hz]); [|lia].
  rewrite Ee' in Ee. inversion Ee; subst re te.
  destruct R as [(e' & -> & -> & ->) | (tip2 & lv' & nd' & tf & Hrk & _)];
    [|subst rk; discriminate].
  inversion Hre; subst e'.
  split; [destruct He; subst; auto|].
  intros e0 He0. rewrite app_nil_r in He0.
  rewrite !in_app_iff in He0. cbn [In] in He0.
  destruct He0 as [He0 | [He0 | [He0 | [He0 | [He0 | []]]]]];
    try (subst; reflexivity);
    apply Hq; rewrite !in_app_iff; auto.
Qed.

Lemma missing_vref_type_error_witness :
  raised_by_script (fst (main world_demo args_kpfm_no_vref)) = false /\
  forall c2 o2,
    In (EvComputeElFF 141 c2) (snd (main world_demo args_kpfm_no_vref)) ->
    computeElFF world_demo c2 = inr o2 ->
    (0 < nd0 (cc_nDim c2))%nat ->
    (fst (main world_demo args_kpfm_no_vref) = inl none_times_float \/
     fst (main world_demo args_kpfm_no_vref) = inl (PyIndexError "FFkpfm_t0sV")) /\
    forall e, In e (snd (main world_demo args_kpfm_no_vref)) -> is_save e = false.
Proof.
  apply (missing_vref_type_error world_demo args_kpfm_no_vref).
  - vm_compute. reflexivity.
  - reflexivity.
Defined.

Lemma kpfm_tip_unbound w a p sg :
  endswith (lower (KPFM_tip a)) ".xsf" = true \/
  endswith (lower (KPFM_tip a)) ".cube" = true ->
  kpfm_tip w a p None sg = (inl (PyUnboundLocalError "rho_tip"), []).
Proof.
  intro Hext. unfold kpfm_tip. cbv zeta.
  destruct (endswith (lower (KPFM_tip a)) ".xsf"); [reflexivity|].
  destruct Hext as [Hx|Hc]; [discriminate|]. rewrite Hc. reflexivity.
Qed.

(** C10.  A KPFM run that takes the tip density under bias from a file
    ([KPFM_tip] ending in [.xsf] or [.cube], in any letter case) without a
    zero-bias tip density ([--tip_dens]) never completes; when everything
    up to line 108 has gone through, it ends at line 113 or 118 in
    [UnboundLocalError] for [rho_tip], an error of the interpreter and not
    one raised by the script, before any convolution has started. *)
Theorem biased_tip_needs_zero_bias_density w a r tr ks :
  main w a = (r, tr) ->
  tip_dens a = None ->
  KPFM_sample a = Some ks ->
  endswith (lower (KPFM_tip a)) ".xsf" = true \/
  endswith (lower (KPFM_tip a)) ".cube" = true ->
  r <> inr tt /\
  raised_by_script r = false /\
  forall p core smp tip0 rho_tip tip1 tpre x ts,
    prefix_ok w a p core smp tip0 rho_tip tip1 tpre ->
    kpfm_sample w ks (s_V smp) = (inr x, ts) ->
    r = inl (PyUnboundLocalError "rho_tip") /\
    tr = tpre ++ ts /\ quietb tr = true.
Proof.
  intros H Hd Hks Hext.
  assert (Hreach : forall p core smp tip0 rho_tip tip1 tpre x ts,
             prefix_ok w a p core smp tip0 rho_tip tip1 tpre ->
             kpfm_sample w ks (s_V smp) = (inr x, ts) ->
             r = inl (PyUnboundLocalError "rho_tip") /\
             tr = tpre ++ ts /\ quietb tr = true).
  { intros p core smp tip0 rho_tip tip1 tpre x ts
           (t0 & t1 & t2 & t3 & t4 & Hp & Hc & Hs & Ht & Hr & ->) Hx.
    rewrite (tip_density_none w a core tip0 Hd) in Hr.
    inversion Hr; subst rho_tip tip1 t4.
    assert (E : main w a =
                (inl (PyUnboundLocalError "rho_tip"),
                 t0 ++ t1 ++ t2 ++ t3 ++ [] ++ ts ++ [])).
    { unfold main.
      eapply bind_inr; [exact Hp|]. eapply bind_inr; [exact Hc|].
      eapply bind_inr; [exact Hs|]. eapply bind_inr; [exact Ht|].
      eapply bind_inr; [apply tip_density_none; exact Hd|].
      cbv beta iota. apply bind_inl.
      unfold kpfm_stage. rewrite Hks. unfold kpfm_branch. cbv zeta.
      eapply bind_inr; [exact Hx|].
      destruct x as [[[dV lv] nd] hd]. cbv beta iota.
      apply bind_inl. apply kpfm_tip_unbound. exact Hext. }
    rewrite E in H. inversion H; subst r tr.
    rewrite app_nil_r. cbn [app]. repeat split; auto.
    - now rewrite <- !app_assoc.
    - rewrite !quietb_app.
      rewrite (stage_quiet _ _ _ (load_params_quiet w) Hp),
              (stage_quiet _ _ _ (core_prep_quiet w a) Hc),
              (stage_quiet _ _ _ (load_sample_quiet w a) Hs),
              (stage_quiet _ _ _ (tip_script_quiet w p) Ht),
              (stage_quiet _ _ _ (kpfm_sample_quiet w ks (s_V smp)) Hx).
      reflexivity. }
  split; [|split; [|exact Hreach]].
  - intro Hr. subst r.
    destruct (main_run _ _ _ _ H) as [(e & He & _) | R]; [discriminate|].
    destruct R as (p & core & smp & tip0 & rho_tip & tip1 & tpre & rk & tk
                   & Hpre & Qpre & Hk & R).
    destruct R as [(e & _ & He & _) | (tip2 & lv & nd & tf & -> & _)];
      [discriminate|].
    unfold kpfm_stage in Hk. rewrite Hks in Hk.
    destruct (kpfm_branch_run _ _ _ _ _ _ _ _ _ Hk) as (rs & ts & Es & Qs & B).
    destruct rs as [e|x]; [destruct B; discriminate|].
    destruct (Hreach _ _ _ _ _ _ _ _ _ Hpre Es) as [Hr _]. discriminate.
  - pose proof (main_plain w a) as P. rewrite H in P. exact P.
Qed.

Lemma biased_tip_needs_zero_bias_density_witness :
  fst (main world_demo args_kpfm_tip_file) <> inr tt /\
  raised_by_script (fst (main world_demo args_kpfm_tip_file)) = false /\
  forall p core smp tip0 rho_tip tip1 tpre x ts,
    prefix_ok world_demo args_kpfm_tip_file p core smp tip0 rho_tip tip1 tpre ->
    kpfm_sample world_demo "sample_bias.xsf" (s_V smp) = (inr x, ts) ->
    fst (main world_demo args_kpfm_tip_file) = inl (PyUnboundLocalError "rho_tip") /\
    snd (main world_demo args_kpfm_tip_file) = tpre ++ ts /\
    quietb (snd (main world_demo args_kpfm_tip_file)) = true.
Proof.
  apply (biased_tip_needs_zero_bias_density world_demo args_kpfm_tip_file).
  - vm_compute. reflexivity.
  - reflexivity.
  - reflexivity.
  - left. vm_compute. reflexivity.
Defined.

(** C8, against the claim: core subtraction changes the array it is
    handed, the kernel is built from the changed array, and the
    convolution leaves the kernel array it was handed changed. *)
Lemma in_place_counterexample :
  exists rho_left c1 FF E tip_left,
    In (EvSubtractCore rho_file) (snd (main world_demo args_kpfm)) /\
    subtractCoreDensities world_demo rho_file lvec_demo [6%Z] [(0, 0, 0)]
                          [(6%Z, 4%nat); (8%Z, 6%nat)] 0.7 ["tip"]
    = inr rho_left /\
    rho_left <> rho_file /\
    In (EvComputeElFF 140 c1) (snd (main world_demo args_kpfm)) /\
    cc_tip c1 = TipDensity (arr_neg rho_left) /\
    computeElFF world_demo c1 = inr (FF, E, tip_left) /\
    tip_left <> cc_tip c1.
Proof.
  exists [[[0; -1]]; [[-1; 1]]],
         (conv args_kpfm [[[3; 4]]; [[8; 12]]] lvec_demo nDim_demo kernel_demo None).
  do 3 eexists.
  split; [vm_compute; in_list|].
  split; [vm_compute; reflexivity|].
  split; [intro H; discriminate H|].
  split; [vm_compute; in_list|].
  split; [vm_compute; reflexivity|].
  split; [vm_compute; reflexivity|].
  intro H; discriminate H.
Qed.

(** C8, amended.  Every grid is read from its file at most once.  The
    potential the main convolution is given is the loaded array with its
    sign flipped, the one the KPFM branch used.  Whatever [computeElFF] does to the kernel it is handed, with a
    density file the main convolution is given the same kernel as the
    first KPFM convolution, which got a copy of it; without one the two
    share the kernel object, and the main convolution is given it as the
    first left it.  Core subtraction acts through the array it is handed:
    the kernel is the negation of the array as the call of line 85 leaves
    it. *)
Theorem copies_protect_the_kernel w a r tr :
  main w a = (r, tr) ->
  NoDup (grid_loads tr) /\
  (forall c3,
      In (EvComputeElFF 154 c3) tr ->
      exists V0,
        loaded_data (load_by_extension w 64 68 (input a)) = Some V0 /\
        cc_V c3 = arr_imul V0 (-1)) /\
  (forall c2 c3,
      In (EvComputeElFF 141 c2) tr -> In (EvComputeElFF 154 c3) tr ->
      cc_V c3 = cc_V c2) /\
  (forall c1 c3,
      In (EvComputeElFF 140 c1) tr -> In (EvComputeElFF 154 c3) tr ->
      exists o1,
        computeElFF w c1 = inr o1 /\
        cc_tip c3 = if is_some (tip_dens a) then cc_tip c1
                    else after_call (cc_tip c1) (snd o1)) /\
  (forall td line c,
      tip_dens a = Some td -> bSubstractCore a = true ->
      In (EvComputeElFF line c) tr -> line <> 141%nat ->
      exists rho0 lv nd hd v Rs el rho',
        loadXSF w td = inr (rho0, lv, nd, hd) /\
        loadValenceElectronDict w = inr v /\
        getAtomsWhichTouchPBCcell w td (Rcore a) = inr (Rs, el) /\
        subtractCoreDensities w rho0 lv el Rs v (Rcore a) hd = inr rho' /\
        cc_tip c = TipDensity (arr_neg rho')).
Proof.
  intro H. split; [eapply main_loads_nodup; eauto|].
  split; [|split; [|split]].
  - intros c3 H3.
    destruct (main_conv _ _ _ _ _ _ H H3)
      as (p & core & smp & tip0 & rho_tip & tip1 & tpre & Hpre & R3).
    destruct Hpre as (t0 & t1 & t2 & t3 & t4 & _ & _ & Hs & _).
    destruct (load_sample_ok _ _ _ _ Hs) as (V0 & HV0 & HV).
    exists V0. split; [exact HV0|]. rewrite arr_imul_m1, <- HV.
    destruct R3 as [(ks' & dV' & lv' & nd' & hd' & ts' & Vt' & drho' & sg' & tt'
                     & _ & _ & _ & [[Hl _] | [Hl _]])
                   | (_ & tip2 & lv' & nd' & tk & _ & ->)]; try discriminate.
    reflexivity.
  - intros c2 c3 H2 H3.
    destruct (main_conv _ _ _ _ _ _ H H2)
      as (p & core & smp & tip0 & rho_tip & tip1 & tpre & Hpre & R2).
    destruct (main_conv _ _ _ _ _ _ H H3)
      as (p' & core' & smp' & tip0' & rho_tip' & tip1' & tpre' & Hpre' & R3).
    destruct (prefix_ok_det _ _ _ _ _ _ _ _ _ _ _ _ _ _ _ _ Hpre Hpre')
      as (_ & _ & <- & _).
    destruct R2 as [(ks & dV & lv & nd & hd & ts & Vt & drho & sg & tt
                     & _ & _ & _ & [[Hl _] | [_ (d & _ & ->)]])
                   | (Hl & _)]; try discriminate.
    destruct R3 as [(ks' & dV' & lv' & nd' & hd' & ts' & Vt' & drho' & sg' & tt'
                     & _ & _ & _ & [[Hl _] | [Hl _]])
                   | (_ & tip2 & lv' & nd' & tk & _ & ->)]; try discriminate.
    reflexivity.
  - intros c1 c3 H1 H3.
    destruct (main_conv _ _ _ _ _ _ H H1)
      as (p & core & smp & tip0 & rho_tip & tip1 & tpre & Hpre & R1).
    destruct (main_conv _ _ _ _ _ _ H H3)
      as (p' & core' & smp' & tip0' & rho_tip' & tip1' & tpre' & Hpre' & R3).
    destruct (prefix_ok_det _ _ _ _ _ _ _ _ _ _ _ _ _ _ _ _ Hpre Hpre')
      as (<- & _ & <- & _ & <- & <- & _).
    destruct R1 as [(ks & dV & lv & nd & hd & ts & Vt & drho & sg & tt
                     & Hks & Hsm & _ & [[_ ->] | [Hl _]])
                   | (Hl & _)]; try discriminate.
    destruct R3 as [(ks' & dV' & lv' & nd' & hd' & ts' & Vt' & drho' & sg' & tt'
                     & _ & _ & _ & [[Hl _] | [Hl _]])
                   | (_ & tip2 & lv' & nd' & tk & Hst & ->)]; try discriminate.
    destruct (kpfm_stage_result _ _ _ _ _ _ _ _ _ _ Hst)
      as [[Hn _] | (ks' & dV' & hd' & ts' & o1 & Hks' & Hsm' & Ho & ->)];
      [congruence|].
    rewrite Hks in Hks'. inversion Hks'; subst ks'.
    rewrite Hsm in Hsm'. inversion Hsm'; subst dV' lv' nd' hd' ts'.
    exists o1. split; [exact Ho|]. reflexivity.
  - intros td line c Hd Hb Hin Hline.
    destruct (density_kernel _ _ _ _ _ _ _ H Hd Hin Hline)
      as (rho0 & lv & nd & hd & rho' & Hl & Hk & [[Hf _] | (_ & v & Rs & el & Hv & Hr & Hs)]);
      [congruence|].
    exists rho0, lv, nd, hd, v, Rs, el, rho'. auto 10.
Qed.

Lemma copies_protect_the_kernel_witness :
  NoDup (grid_loads (snd (main world_demo args_kpfm))) /\
  (forall c3,
      In (EvComputeElFF 154 c3) (snd (main world_demo args_kpfm)) ->
      exists V0,
        loaded_data (load_by_extension world_demo 64 68 (input args_kpfm))
        = Some V0 /\
        cc_V c3 = arr_imul V0 (-1)) /\
  (forall c2 c3,
      In (EvComputeElFF 141 c2) (snd (main world_demo args_kpfm)) ->
      In (EvComputeElFF 154 c3) (snd (main world_demo args_kpfm)) ->
      cc_V c3 = cc_V c2) /\
  (forall c1 c3,
      In (EvComputeElFF 140 c1) (snd (main world_demo args_kpfm)) ->
      In (EvComputeElFF 154 c3) (snd (main world_demo args_kpfm)) ->
      exists o1,
        computeElFF world_demo c1 = inr o1 /\
        cc_tip c3 = if is_some (tip_dens args_kpfm) then cc_tip c1
                    else after_call (cc_tip c1) (snd o1)) /\
  (forall td line c,
      tip_dens args_kpfm = Some td -> bSubstractCore args_kpfm = true ->
      In (EvComputeElFF line c) (snd (main world_demo args_kpfm)) ->
      line <> 141%nat ->
      exists rho0 lv nd hd v Rs el rho',
        loadXSF world_demo td = inr (rho0, lv, nd, hd) /\
        loadValenceElectronDict world_demo = inr v /\
        getAtomsWhichTouchPBCcell world_demo td (Rcore args_kpfm) = inr (Rs, el) /\
        subtractCoreDensities world_demo rho0 lv el Rs v (Rcore args_kpfm) hd
        = inr rho' /\
        cc_tip c = TipDensity (arr_neg rho')).
Proof.
  apply (copies_protect_the_kernel world_demo args_kpfm
           (fst (main world_demo args_kpfm))).
  vm_compute. reflexivity.
Defined.

End Claims.

(** ** More of [main] *)

Module StringFacts.

Lemma strlen_app (s1 s2 : string) :
  String.length (s1 ++ s2)%string = (String.length s1 + String.length s2)%nat.
Proof. induction s1 as [|c s1 IH]; cbn; [reflexivity | now rewrite IH]. Qed.

Lemma lower_app (s1 s2 : string) : lower (s1 ++ s2)%string = (lower s1 ++ lower s2)%string.
Proof. induction s1 as [|c s1 IH]; cbn; [reflexivity | now rewrite IH]. Qed.

Lemma substring_app_skip (p s : string) (k n : nat) :
  substring (String.length p + k) n (p ++ s)%string = substring k n s.
Proof. induction p as [|c p IH]; cbn; [reflexivity | exact IH]. Qed.

(** Whether a string ends with [suf] is decided by its last characters. *)
Lemma endswith_app (p s suf : string) :
  (String.length suf <= String.length s)%nat ->
  endswith (p ++ s)%string suf = endswith s suf.
Proof.
  intro H. unfold endswith. rewrite strlen_app.
  replace (String.length p + String.length s - String.length suf)%nat
    with (String.length p + (String.length s - String.length suf))%nat by lia.
  rewrite substring_app_skip.
  apply Nat.leb_le in H. rewrite H.
  assert (H' : (String.length suf <=? String.length p + String.length s)%nat = true)
    by (apply Nat.leb_le; apply Nat.leb_le in H; lia).
  rewrite H'. reflexivity.
Qed.

End StringFacts.

Module ExtensionFacts.
Import Pipeline Trace ArrayFacts StageFacts RunFacts BranchFacts EventFacts
       LoadFacts StringFacts Demo Scenarios.

(** X1.  The grid loader is chosen by the last characters of the path, in
    any letter case: a path that ends in [.xsf] is read by [loadXSF], one
    that ends in [.cube] by [loadCUBE]; the path is handed to the loader as
    it was given. *)
Theorem extension_selects_loader w lx lc (p s : string) :
  lower s = ".xsf" \/ lower s = ".cube" ->
  load_by_extension w lx lc (p ++ s)%string =
  if String.eqb (lower s) ".xsf"
  then match loadXSF w (p ++ s)%string with
       | inl msg => (inl (PyExternal msg), [EvLoadGrid lx (p ++ s)%string])
       | inr x => (inr (Some x), [EvLoadGrid lx (p ++ s)%string])
       end
  else match loadCUBE w (p ++ s)%string with
       | inl msg => (inl (PyExternal msg), [EvLoadGrid lc (p ++ s)%string])
       | inr x => (inr (Some x), [EvLoadGrid lc (p ++ s)%string])
       end.
Proof.
  intro H. unfold load_by_extension. rewrite lower_app.
  destruct H as [E|E]; rewrite E.
  - rewrite endswith_app by (cbn; lia).
    cbn [endswith String.length Nat.leb Nat.sub substring andb String.eqb].
    change (endswith ".xsf" ".xsf") with true. cbv iota.
    change (String.eqb ".xsf" ".xsf") with true. cbv iota.
    unfold call, bind, ret. destruct (loadXSF w (p ++ s)%string); reflexivity.
  - rewrite !endswith_app by (cbn; lia).
    change (endswith ".cube" ".xsf") with false.
    change (endswith ".cube" ".cube") with true.
    change (String.eqb ".cube" ".xsf") with false. cbv iota.
    unfold call, bind, ret. destruct (loadCUBE w (p ++ s)%string); reflexivity.
Qed.

Lemma extension_selects_loader_witness :
  load_by_extension world_demo 100 106 ("sample_bias" ++ ".XSF")%string =
  if String.eqb (lower ".XSF") ".xsf"
  then match loadXSF world_demo ("sample_bias" ++ ".XSF")%string with
       | inl msg => (inl (PyExternal msg), [EvLoadGrid 100 ("sample_bias" ++ ".XSF")%string])
       | inr x => (inr (Some x), [EvLoadGrid 100 ("sample_bias" ++ ".XSF")%string])
       end
  else match loadCUBE world_demo ("sample_bias" ++ ".XSF")%string with
       | inl msg => (inl (PyExternal msg), [EvLoadGrid 106 ("sample_bias" ++ ".XSF")%string])
       | inr x => (inr (Some x), [EvLoadGrid 106 ("sample_bias" ++ ".XSF")%string])
       end.
Proof.
  apply (extension_selects_loader world_demo 100 106 "sample_bias" ".XSF").
  left. reflexivity.
Defined.

Lemma load_by_extension_none w lx lc path :
  endswith (lower path) ".xsf" = false ->
  endswith (lower path) ".cube" = false ->
  load_by_extension w lx lc path = (inr None, []).
Proof. unfold load_by_extension. intros -> ->. reflexivity. Qed.

Lemma load_sample_unsupported w a :
  endswith (lower (input a)) ".xsf" = false ->
  endswith (lower (input a)) ".cube" = false ->
  load_sample w a =
  match loadGeometry w (input a) with
  | inl msg => (inl (PyExternal msg), [EvLoadGeometry (input a)])
  | inr _ =>
      (inl (PyTypeError "unsupported operand type(s) for *=: 'NoneType' and 'int'"),
       [EvLoadGeometry (input a)])
  end.
Proof.
  intros Hx Hc. unfold load_sample. rewrite (load_by_extension_none _ _ _ _ Hx Hc).
  unfold call, bind, ret, raise.
  destruct (loadGeometry w (input a)) as [msg|[[at_ nd] lv]]; reflexivity.
Qed.

(** X2.  An input file whose name ends neither in [.xsf] nor in [.cube]
    (in any letter case) is never read as a grid: the run ends in an error
    without a grid loaded, a convolution started or a file written.  When
    [params.ini], the core preparation and the geometry of the input have
    been read, the error is the [TypeError] of line 69 ([V] is still
    [None]) and the geometry is the last thing read. *)
Theorem unsupported_input_extension w a r tr :
  main w a = (r, tr) ->
  endswith (lower (input a)) ".xsf" = false ->
  endswith (lower (input a)) ".cube" = false ->
  r <> inr tt /\ quietb tr = true /\ grid_loads tr = [] /\
  forall p t0 core t1 g,
    load_params w = (inr p, t0) ->
    core_prep w a = (inr core, t1) ->
    loadGeometry w (input a) = inr g ->
    r = inl (PyTypeError "unsupported operand type(s) for *=: 'NoneType' and 'int'") /\
    tr = t0 ++ t1 ++ [EvLoadGeometry (input a)].
Proof.
  intros H Hx Hc.
  pose proof (load_sample_unsupported w a Hx Hc) as Hs.
  unfold main in H.
  inv_bind H as p t0 H0.
  { split; [discriminate|].
    split; [eapply stage_quiet; [apply load_params_quiet|eauto]|].
    split; [apply (stage_loads (fun l => l = []) _ _ _ (load_params_loads w) H0)|].
    intros p t0 core t1 g E0. rewrite H0 in E0. discriminate. }
  pose proof (stage_quiet _ _ _ (load_params_quiet w) H0) as Q0.
  pose proof (stage_loads (fun l => l = []) _ _ _ (load_params_loads w) H0) as L0.
  inv_bind H as core t1 H1.
  { split; [discriminate|].
    split; [rewrite quietb_app, Q0; eapply stage_quiet; [apply core_prep_quiet|eauto]|].
    split; [rewrite grid_loads_app, L0;
            apply (stage_loads (fun l => l = []) _ _ _ (core_prep_loads w a) H1)|].
    intros p' t0' core t1 g _ E1. rewrite H1 in E1. discriminate. }
  pose proof (stage_quiet _ _ _ (core_prep_quiet w a) H1) as Q1.
  pose proof (stage_loads (fun l => l = []) _ _ _ (core_prep_loads w a) H1) as L1.
  rewrite Hs in H.
  destruct (loadGeometry w (input a)) as [msg|g] eqn:Eg; cbn [bind] in H;
    inversion H; subst; clear H.
  - split; [discriminate|]. split; [rewrite !quietb_app, Q0, Q1; reflexivity|].
    split; [rewrite !grid_loads_app, L0, L1; reflexivity|].
    intros p' t0' core' t1' g' _ _ E. discriminate.
  - split; [discriminate|]. split; [rewrite !quietb_app, Q0, Q1; reflexivity|].
    split; [rewrite !grid_loads_app, L0, L1; reflexivity|].
    intros p' t0' core' t1' g' E0 E1 _.
    rewrite H0 in E0. rewrite H1 in E1. inversion E0; inversion E1; subst.
    auto.
Qed.

Lemma unsupported_input_extension_witness :
  fst (main world_demo args_input_txt) <> inr tt /\
  quietb (snd (main world_demo args_input_txt)) = true /\
  grid_loads (snd (main world_demo args_input_txt)) = [] /\
  forall p t0 core t1 g,
    load_params world_demo = (inr p, t0) ->
    core_prep world_demo args_input_txt = (inr core, t1) ->
    loadGeometry world_demo (input args_input_txt) = inr g ->
    fst (main world_demo args_input_txt)
    = inl (PyTypeError "unsupported operand type(s) for *=: 'NoneType' and 'int'") /\
    snd (main world_demo args_input_txt)
    = t0 ++ t1 ++ [EvLoadGeometry (input args_input_txt)].
Proof.
  apply (unsupported_input_extension world_demo args_input_txt).
  - vm_compute. reflexivity.
  - reflexivity.
  - reflexivity.
Defined.

End ExtensionFacts.

Module OrderFacts.
Import Pipeline Trace ArrayFacts StageFacts RunFacts BranchFacts EventFacts
       StageResults LoadFacts Demo.

Lemma in_grid_loads t line path :
  In (EvLoadGrid line path) t -> grid_loads t <> [].
Proof.
  induction t as [|e t IH]; cbn [In]; [contradiction|].
  intros [-> | H]; cbn; [discriminate|].
  intro E. apply app_eq_nil in E. destruct E as [_ E]. exact (IH H E).
Qed.

Lemma core_prep_log w a core t :
  core_prep w a = (inr core, t) ->
  bSubstractCore a = true ->
  exists td, tip_dens a = Some td /\ t = [EvLoadValence; EvAtomsPBC td].
Proof.
  unfold core_prep. intros H Hb. rewrite Hb in H.
  destruct (tip_dens a) as [td|]; [|inv_prim H].
  inv_ok H as v tv Hv. inv_ok H as RsEl tr Hr. inv_prim H.
  inv_prim Hv. inv_prim Hr. exists td. auto.
Qed.

(** X3.  With core subtraction enabled, the table of valence electrons and
    the atoms of the tip that touch the cell border are read before any
    grid file: a run that fails there has not loaded a grid. *)
Theorem core_tables_before_grids w a r tr line path :
  main w a = (r, tr) ->
  bSubstractCore a = true ->
  In (EvLoadGrid line path) tr ->
  exists td,
    tip_dens a = Some td /\
    before EvLoadValence (EvLoadGrid line path) tr /\
    before (EvAtomsPBC td) (EvLoadGrid line path) tr.
Proof.
  intros H Hb Hin. unfold main in H.
  inv_bind H as p t0 H0.
  { destruct (in_grid_loads _ _ _ Hin).
    apply (stage_loads (fun l => l = []) _ _ _ (load_params_loads w) H0). }
  pose proof (stage_loads (fun l => l = []) _ _ _ (load_params_loads w) H0) as L0.
  inv_bind H as core t1 H1.
  { destruct (in_grid_loads _ _ _ Hin). rewrite grid_loads_app, L0.
    apply (stage_loads (fun l => l = []) _ _ _ (core_prep_loads w a) H1). }
  destruct (core_prep_log _ _ _ _ H1 Hb) as (td & Hd & ->).
  exists td. split; [exact Hd|].
  apply in_app_or in Hin. destruct Hin as [Hin|Hin];
    [destruct (in_grid_loads _ _ _ Hin L0)|].
  apply in_app_or in Hin. destruct Hin as [Hin|Hin];
    [cbn [In] in Hin; intuition discriminate|].
  destruct (in_split _ _ Hin) as (l1 & l2 & ->).
  split.
  - exists t0, (EvAtomsPBC td :: l1), l2. reflexivity.
  - exists (t0 ++ [EvLoadValence]), l1, l2. rewrite <- app_assoc. reflexivity.
Qed.

Lemma core_tables_before_grids_witness :
  exists td,
    tip_dens args_kpfm = Some td /\
    before EvLoadValence (EvLoadGrid 64 "sample.xsf") (snd (main world_demo args_kpfm)) /\
    before (EvAtomsPBC td) (EvLoadGrid 64 "sample.xsf")
           (snd (main world_demo args_kpfm)).
Proof.
  apply (core_tables_before_grids world_demo args_kpfm
           (fst (main world_demo args_kpfm))).
  - vm_compute. reflexivity.
  - vm_compute. reflexivity.
  - vm_compute. repeat (first [left; reflexivity | right]).
Defined.

End OrderFacts.

Module OptionFacts.
Import Pipeline Trace RunLog Demo.

(** X4.  Without [--KPFM_sample], [main] makes no use of [--KPFM_tip],
    [--Vref], [--z0] and [borh]: with the same parameters and the same
    collaborators, the run reads, computes and writes the same whatever
    their values. *)
Theorem kpfm_options_unused w a kt vr z b :
  KPFM_sample a = None ->
  main w (with_kpfm_options a kt vr z b) = main w a.
Proof.
  intro H.
  unfold main, core_prep, bSubstractCore, load_sample, tip_density,
    kpfm_stage, final, conv, with_kpfm_options.
  cbn [input output_format Rcore energy tip_dens doDensity tilt KPFM_tip
       KPFM_sample Vref z0 borh].
  rewrite H. reflexivity.
Qed.

Lemma kpfm_options_unused_witness :
  main world_demo (with_kpfm_options args_plain "tip_bias.xsf" (Some 2) 1 (Some true))
  = main world_demo args_plain.
Proof.
  apply (kpfm_options_unused world_demo args_plain). reflexivity.
Defined.

(** X5.  Without [--tip_dens], [main] makes no use of [--doDensity] and
    [--Rcore]: with the same parameters and the same collaborators, the
    run reads, computes and writes the same whatever their values. *)
Theorem core_options_unused w a dd rc :
  tip_dens a = None ->
  main w (with_core_options a dd rc) = main w a.
Proof.
  intro H.
  unfold main, core_prep, bSubstractCore, load_sample, tip_density,
    kpfm_stage, kpfm_branch, kpfm_tip, kpfm_convs, kpfm_emit, zpos_of,
    final, conv, with_core_options.
  cbn [input output_format Rcore energy tip_dens doDensity tilt KPFM_tip
       KPFM_sample Vref z0 borh].
  rewrite H. cbn [is_some]. rewrite !andb_false_r. reflexivity.
Qed.

Lemma core_options_unused_witness :
  main world_demo (with_core_options args_plain true 2) = main world_demo args_plain.
Proof.
  apply (core_options_unused world_demo args_plain). reflexivity.
Defined.

End OptionFacts.

Module GeometryFacts.
Import Pipeline Trace ArrayFacts StageFacts RunFacts BranchFacts EventFacts
       StageResults NormalizeFacts KernelFacts Demo.

Lemma load_sample_grid w a smp t :
  load_sample w a = (inr smp, t) ->
  exists V hd tl,
    load_by_extension w 64 68 (input a)
    = (inr (Some (V, s_lvec smp, s_nDim smp, hd)), tl).
Proof.
  intro H. unfold load_sample in H.
  inv_ok H as g tg Hg. destruct g as [[atoms nd] lv].
  inv_ok H as ld tl Hl.
  destruct ld as [[[[V lv'] nd'] hd]|]; inv_prim H.
  exists V, hd, tl. exact Hl.
Qed.

Lemma kpfm_sample_grid w ks V dV lv nd hd t :
  kpfm_sample w ks V = (inr (dV, lv, nd, hd), t) ->
  exists Vk tl,
    load_by_extension w 100 106 ks = (inr (Some (Vk, lv, nd, hd)), tl).
Proof.
  intro H. unfold kpfm_sample in H.
  inv_ok H as ld tl Hl.
  destruct ld as [[[[Vk lv'] nd'] hd']|]; [|inv_prim H].
  destruct (arr_sub Vk V) as [d|] eqn:E; inv_prim H.
  exists Vk, tl. exact Hl.
Qed.

Lemma kpfm_stage_none w a p smp rho_tip tip :
  KPFM_sample a = None ->
  kpfm_stage w a p smp rho_tip tip = (inr (tip, s_lvec smp, s_nDim smp), []).
Proof. unfold kpfm_stage. intros ->. reflexivity. Qed.

Lemma load_params_ok w p t : load_params w = (inr p, t) -> loadParams w = inr p.
Proof. unfold load_params. intro H. inv_prim H. reflexivity. Qed.

(** X6.  Every convolution of a run is given the lattice vectors and the
    grid dimensions of the grid file read last by lines 57-108: those of
    the potential under bias when [--KPFM_sample] is given (lines 100 and
    106 assign [lvec] and [nDim] again), and those of the input file
    otherwise.  This holds for the main convolution of line 154 too. *)
Theorem convolution_lattice w a r tr line c :
  main w a = (r, tr) ->
  In (EvComputeElFF line c) tr ->
  exists V hd tl,
    match KPFM_sample a with
    | Some ks => load_by_extension w 100 106 ks
    | None => load_by_extension w 64 68 (input a)
    end = (inr (Some (V, cc_lvec c, cc_nDim c, hd)), tl).
Proof.
  intros H Hin.
  destruct (main_conv _ _ _ _ _ _ H Hin)
    as (p & core & smp & tip0 & rho_tip & tip1 & tpre & Hpre & R).
  destruct Hpre as (t0 & t1 & t2 & t3 & t4 & _ & _ & Hs & _).
  destruct R as [(ks & dV & lv & nd & hd & ts & Vt & drho & sg & tt
                  & Hks & Hsm & _ & HC)
                | (-> & tip2 & lv & nd & tk & Hst & ->)].
  - rewrite Hks.
    destruct (kpfm_sample_grid _ _ _ _ _ _ _ _ Hsm) as (Vk & tl & Hl).
    exists Vk, hd, tl.
    destruct HC as [[_ ->] | [_ (d & _ & ->)]]; exact Hl.
  - cbn [conv cc_lvec cc_nDim].
    destruct (kpfm_stage_result _ _ _ _ _ _ _ _ _ _ Hst)
      as [[Hn _] | (ks & dV & hd & ts & o1 & Hks & Hsm & _)].
    + rewrite Hn. rewrite (kpfm_stage_none w a p smp rho_tip tip1 Hn) in Hst.
      inversion Hst; subst. apply (load_sample_grid _ _ _ _ Hs).
    + rewrite Hks.
      destruct (kpfm_sample_grid _ _ _ _ _ _ _ _ Hsm) as (Vk & tl & Hl).
      exists Vk, hd, tl. exact Hl.
Qed.

Lemma convolution_lattice_witness :
  exists V hd tl,
    match KPFM_sample args_kpfm with
    | Some ks => load_by_extension world_demo 100 106 ks
    | None => load_by_extension world_demo 64 68 (input args_kpfm)
    end
    = (inr (Some (V, cc_lvec (conv args_kpfm V_demo lvec_demo nDim_demo kernel_demo None),
                  cc_nDim (conv args_kpfm V_demo lvec_demo nDim_demo kernel_demo None),
                  hd)), tl).
Proof.
  apply (convolution_lattice world_demo args_kpfm
           (fst (main world_demo args_kpfm)) (snd (main world_demo args_kpfm))
           154%nat).
  - vm_compute. reflexivity.
  - vm_compute. repeat (first [left; reflexivity | right]).
Defined.

(** X7.  Every convolution is asked for the energy exactly when
    [--energy] is set and is given the tilt of [--tilt].  Only the
    convolution of line 141 is given a width [sigma]; when the tip under
    bias comes from a file, that width is [PPU.params['sigma']]. *)
Theorem convolution_options w a r tr line c :
  main w a = (r, tr) ->
  In (EvComputeElFF line c) tr ->
  cc_computeVpot c = energy a /\ cc_tilt c = tilt a /\
  (line <> 141%nat -> cc_sigma c = None) /\
  (line = 141%nat -> is_tip_token (KPFM_tip a) = false ->
   exists p, loadParams w = inr p /\ cc_sigma c = Some (p_sigma p)).
Proof.
  intros H Hin.
  destruct (main_conv _ _ _ _ _ _ H Hin)
    as (p & core & smp & tip0 & rho_tip & tip1 & tpre & Hpre & R).
  destruct Hpre as (t0 & t1 & t2 & t3 & t4 & Hp & _).
  apply load_params_ok in Hp.
  destruct R as [(ks & dV & lv & nd & hd & ts & Vt & drho & sg & tt
                  & Hks & Hsm & Htip & [[-> ->] | [-> (d & -> & ->)]])
                | (-> & tip2 & lv & nd & tk & Hst & ->)];
    cbn [conv cc_computeVpot cc_tilt cc_sigma];
    (split; [reflexivity|]); (split; [reflexivity|]).
  - split; [reflexivity | discriminate].
  - split; [intro N; contradiction N; reflexivity|].
    intros _ Htok.
    destruct (kpfm_tip_ok _ _ _ _ _ _ _ _ _ Htip)
      as [[Htok' _] | [_ [(_ & -> & _) | (_ & Hn & _)]]].
    + rewrite Htok in Htok'. discriminate.
    + exists p. auto.
    + discriminate.
  - split; [reflexivity | discriminate].
Qed.

Lemma convolution_options_witness :
  cc_computeVpot (conv args_kpfm V_demo lvec_demo nDim_demo kernel_demo None)
  = energy args_kpfm /\
  cc_tilt (conv args_kpfm V_demo lvec_demo nDim_demo kernel_demo None)
  = tilt args_kpfm /\
  (154%nat <> 141%nat ->
   cc_sigma (conv args_kpfm V_demo lvec_demo nDim_demo kernel_demo None) = None) /\
  (154%nat = 141%nat -> is_tip_token (KPFM_tip args_kpfm) = false ->
   exists p, loadParams world_demo = inr p /\
             cc_sigma (conv args_kpfm V_demo lvec_demo nDim_demo kernel_demo None)
             = Some (p_sigma p)).
Proof.
  apply (convolution_options world_demo args_kpfm
           (fst (main world_demo args_kpfm)) (snd (main world_demo args_kpfm))).
  - vm_compute. reflexivity.
  - vm_compute. repeat (first [left; reflexivity | right]).
Defined.

(** Whether [PPU.params['tip']] names the script [tip.py] (line 71). *)
Lemma tip_script_ok w p tip0 t :
  tip_script w p = (inr tip0, t) ->
  match p_tip p with
  | TipToken s =>
      if String.eqb s ".py" then exec_tip_script w = inr tip0 else tip0 = p_tip p
  | _ => tip0 = p_tip p
  end.
Proof.
  unfold tip_script. intro H.
  destruct (p_tip p) as [s|m|rho]; try (inv_prim H; reflexivity).
  destruct (String.eqb s ".py"); inv_prim H; auto.
Qed.

(** X8.  Without a tip density file and without the KPFM branch, the
    kernel of the main convolution is [PPU.params['tip']] as the
    parameters give it; when that is the string ['.py'], it is what the
    script [tip.py] defines. *)
Theorem kernel_from_parameters w a r tr c :
  main w a = (r, tr) ->
  tip_dens a = None ->
  KPFM_sample a = None ->
  In (EvComputeElFF 154 c) tr ->
  exists p,
    loadParams w = inr p /\
    match p_tip p with
    | TipToken s =>
        if String.eqb s ".py" then exec_tip_script w = inr (cc_tip c)
        else cc_tip c = p_tip p
    | _ => cc_tip c = p_tip p
    end.
Proof.
  intros H Hd Hk Hin.
  destruct (main_conv _ _ _ _ _ _ H Hin)
    as (p & core & smp & tip0 & rho_tip & tip1 & tpre & Hpre & R).
  destruct Hpre as (t0 & t1 & t2 & t3 & t4 & Hp & _ & _ & Hts & Htd & _).
  exists p. split; [exact (load_params_ok _ _ _ Hp)|].
  rewrite (tip_density_none _ _ core tip0 Hd) in Htd. inversion Htd; subst.
  destruct R as [(ks & dV & lv & nd & hd & ts & Vt & drho & sg & tt & Hks & _)
                | (_ & tip2 & lv & nd & tk & Hst & ->)].
  { rewrite Hk in Hks. discriminate. }
  rewrite (kpfm_stage_none w a p smp None tip1 Hk) in Hst.
  inversion Hst; subst. cbn [conv cc_tip].
  exact (tip_script_ok _ _ _ _ Hts).
Qed.

Lemma kernel_from_parameters_witness :
  exists p,
    loadParams world_demo = inr p /\
    match p_tip p with
    | TipToken s =>
        if String.eqb s ".py"
        then exec_tip_script world_demo
             = inr (cc_tip (conv args_plain V_demo lvec_demo nDim_demo (TipToken "s") None))
        else cc_tip (conv args_plain V_demo lvec_demo nDim_demo (TipToken "s") None)
             = p_tip p
    | _ => cc_tip (conv args_plain V_demo lvec_demo nDim_demo (TipToken "s") None)
           = p_tip p
    end.
Proof.
  apply (kernel_from_parameters world_demo args_plain
           (fst (main world_demo args_plain)) (snd (main world_demo args_plain))).
  - vm_compute. reflexivity.
  - reflexivity.
  - reflexivity.
  - vm_compute. repeat (first [left; reflexivity | right]).
Defined.

End GeometryFacts.

Module OutputFacts.
Import Pipeline Trace RunLog ArrayFacts StageFacts RunFacts BranchFacts
       EventFacts SaveFacts Demo.

Lemma final_outputs w a smp lv nd tip r t :
  final w a smp lv nd tip = (r, t) ->
  (forall n F, In (EvSaveVec n F) t ->
     n = "FFel" /\
     exists E tl, computeElFF w (conv a (s_V smp) lv nd tip None) = inr (F, E, tl)) /\
  (forall n E, In (EvSaveScal n E) t ->
     n = "Eel" /\ energy a = true /\
     exists F tl,
       computeElFF w (conv a (s_V smp) lv nd tip None) = inr (F, E, tl) /\
       In (EvSaveVec "FFel" F) t).
Proof.
  intro H. rewrite final_eq in H. cbv zeta in H.
  destruct (computeElFF w _) as [msg|[[FFel Eel] tl]] eqn:C.
  { inversion H; subst. split; intros n X Hin; in_cases Hin; discriminate. }
  destruct (save_vec_field w "FFel" _ _ _ _).
  { inversion H; subst. split; intros n X Hin; in_cases Hin; discriminate. }
  destruct (energy a).
  - destruct (save_scal_field w "Eel" _ _ _ _); inversion H; subst;
      split; intros n X Hin; in_cases Hin; try discriminate;
      inversion Hin; subst; eauto 8.
    split; [reflexivity|]. split; [reflexivity|].
    exists FFel, tl. split; [reflexivity|]. cbn [In]. auto.
  - inversion H; subst.
    split; intros n X Hin; in_cases Hin; try discriminate;
      inversion Hin; subst; eauto 8.
Qed.

(** X9.  The file [FFel] holds the force field exactly as the main
    convolution of line 154 returned it, and [Eel] the energy that the
    same call returned; [Eel] is written only with [--energy], and only
    after [FFel]. *)
Theorem main_outputs_as_computed w a r tr :
  main w a = (r, tr) ->
  (forall F, In (EvSaveVec "FFel" F) tr ->
     exists c E tl,
       In (EvComputeElFF 154 c) tr /\ computeElFF w c = inr (F, E, tl)) /\
  (forall n E, In (EvSaveScal n E) tr ->
     n = "Eel" /\ energy a = true /\
     exists c F tl,
       In (EvComputeElFF 154 c) tr /\ computeElFF w c = inr (F, E, tl) /\
       before (EvSaveVec "FFel" F) (EvSaveScal n E) tr).
Proof.
  intro H.
  destruct (main_run _ _ _ _ H) as [(e & _ & Q) | R].
  { split; [intros F Hin | intros n E Hin];
      destruct (save_not_quiet _ _ Q Hin eq_refl). }
  destruct R as (p & core & smp & tip0 & rho_tip & tip1 & tpre & rk & tk
                 & Hpre & Qpre & Hk & R).
  assert (HK : forall e, In e tk -> is_save e = true ->
               e = EvSaveVec "FFel" (match e with EvSaveVec _ F => F | _ => [] end) \/
               (exists n E, e = EvSaveScal n E) -> False).
  { intros e Hi Hs He. unfold kpfm_stage in Hk.
    destruct (KPFM_sample a) as [ks|]; [|inv_prim Hk; destruct Hi].
    destruct (kpfm_branch_saved _ _ _ _ _ _ _ _ _ _ Hk Hi Hs)
      as (c1 & raw1 & c2 & raw2 & Vt & F1 & F2 & _ & _ & _ & [E|E]);
      subst e; destruct He as [He | (n & E' & He)]; discriminate. }
  destruct R as [(e & -> & -> & ->) | (tip2 & lv & nd & tf & -> & Hf & ->)].
  - split; [intros F Hin | intros n E Hin];
      (apply in_app_or in Hin; destruct Hin as [Hin|Hin];
       [destruct (save_not_quiet _ _ Qpre Hin eq_refl)|]);
      exfalso; apply (HK _ Hin eq_refl); eauto.
  - destruct (final_outputs _ _ _ _ _ _ _ _ Hf) as [HF HE].
    assert (Hc : forall F E tl,
               computeElFF w (conv a (s_V smp) lv nd tip2 None) = inr (F, E, tl) ->
               exists rest,
                 tf = EvComputeElFF 154 (conv a (s_V smp) lv nd tip2 None) :: rest).
    { intros F E tl C. rewrite final_eq in Hf. cbv zeta in Hf. rewrite C in Hf.
      destruct (save_vec_field w "FFel" _ _ _ _);
        [inversion Hf; subst; eauto|].
      destruct (energy a);
        [destruct (save_scal_field w "Eel" _ _ _ _)|]; inversion Hf; subst; eauto. }
    split.
    + intros F Hin.
      apply in_app_or in Hin. destruct Hin as [Hin|Hin];
        [destruct (save_not_quiet _ _ Qpre Hin eq_refl)|].
      apply in_app_or in Hin. destruct Hin as [Hin|Hin];
        [exfalso; apply (HK _ Hin eq_refl); eauto|].
      destruct (HF _ _ Hin) as (_ & E & tl & C).
      destruct (Hc _ _ _ C) as (rest & ->).
      exists (conv a (s_V smp) lv nd tip2 None), E, tl.
      split; [|exact C]. rewrite !in_app_iff. cbn [In]. auto.
    + intros n E Hin.
      apply in_app_or in Hin. destruct Hin as [Hin|Hin];
        [destruct (save_not_quiet _ _ Qpre Hin eq_refl)|].
      apply in_app_or in Hin. destruct Hin as [Hin|Hin];
        [exfalso; apply (HK _ Hin eq_refl); eauto|].
      destruct (HE _ _ Hin) as (-> & He & F & tl & C & HinF).
      split; [reflexivity|]. split; [exact He|].
      destruct (Hc _ _ _ C) as (rest & Etf).
      exists (conv a (s_V smp) lv nd tip2 None), F, tl.
      split; [rewrite Etf, !in_app_iff; cbn [In]; auto|].
      split; [exact C|]. clear Etf Hc HinF.
      rewrite final_eq in Hf. cbv zeta in Hf. rewrite C in Hf.
      destruct (save_vec_field w "FFel" _ _ _ _);
        [inversion Hf; subst; in_cases Hin; discriminate Hin|].
      rewrite He in Hf.
      destruct (save_scal_field w "Eel" _ _ _ _); inversion Hf; subst;
        in_cases Hin; try discriminate Hin.
      inversion Hin; subst.
      exists (tpre ++ tk ++ [EvComputeElFF 154 (conv a (s_V smp) lv nd tip2 None)]),
             [], [].
      rewrite <- !app_assoc. reflexivity.
Qed.

Lemma main_outputs_as_computed_witness :
  (forall F, In (EvSaveVec "FFel" F) (snd (main world_demo args_kpfm)) ->
     exists c E tl,
       In (EvComputeElFF 154 c) (snd (main world_demo args_kpfm)) /\
       computeElFF world_demo c = inr (F, E, tl)) /\
  (forall n E, In (EvSaveScal n E) (snd (main world_demo args_kpfm)) ->
     n = "Eel" /\ energy args_kpfm = true /\
     exists c F tl,
       In (EvComputeElFF 154 c) (snd (main world_demo args_kpfm)) /\
       computeElFF world_demo c = inr (F, E, tl) /\
       before (EvSaveVec "FFel" F) (EvSaveScal n E) (snd (main world_demo args_kpfm))).
Proof.
  apply (main_outputs_as_computed world_demo args_kpfm
           (fst (main world_demo args_kpfm))).
  vm_compute. reflexivity.
Defined.

Lemma conv_lines_app t1 t2 : conv_lines (t1 ++ t2) = conv_lines t1 ++ conv_lines t2.
Proof. apply flat_map_app. Qed.

Lemma saved_names_app t1 t2 :
  saved_names (t1 ++ t2) = saved_names t1 ++ saved_names t2.
Proof. apply flat_map_app. Qed.

Lemma quiet_log t : quietb t = true -> conv_lines t = [] /\ saved_names t = [].
Proof.
  induction t as [|e t IH]; [auto|].
  cbn [quietb forallb]. intro H. apply andb_true_iff in H. destruct H as [He Ht].
  destruct (IH Ht) as [Ec Es].
  unfold conv_lines, saved_names in *. cbn [flat_map]. rewrite Ec, Es.
  destruct e; cbn in He; try discriminate; auto.
Qed.

(** X10.  A run that completes has made exactly the convolutions of lines
    140, 141 (with [--KPFM_sample] only) and 154, in this order, and has
    written exactly [FFkpfm_t0sV], [FFkpfm_tVs0] (with [--KPFM_sample]
    only), [FFel] and, with [--energy], [Eel], in this order. *)
Theorem complete_run_log w a tr :
  main w a = (inr tt, tr) ->
  conv_lines tr
  = (if is_some (KPFM_sample a) then [140; 141] else [])%nat ++ [154%nat] /\
  saved_names tr
  = (if is_some (KPFM_sample a) then ["FFkpfm_t0sV"; "FFkpfm_tVs0"] else [])
    ++ "FFel" :: (if energy a then ["Eel"] else []).
Proof.
  intro H.
  destruct (main_run _ _ _ _ H) as [(e & E & _) | R]; [discriminate|].
  destruct R as (p & core & smp & tip0 & rho_tip & tip1 & tpre & rk & tk
                 & Hpre & Qpre & Hk & R).
  destruct R as [(e & _ & E & _) | (tip2 & lv & nd & tf & -> & Hf & ->)];
    [discriminate|].
  destruct (quiet_log _ Qpre) as [Cpre Spre].
  rewrite !conv_lines_app, !saved_names_app, Cpre, Spre. cbn [app].
  assert (Hfin : conv_lines tf = [154%nat] /\
                 saved_names tf = "FFel" :: (if energy a then ["Eel"] else [])).
  { rewrite final_eq in Hf. cbv zeta in Hf.
    destruct (computeElFF w _) as [msg|[[FFel Eel] tl]]; [discriminate|].
    destruct (save_vec_field w "FFel" _ _ _ _); [discriminate|].
    destruct (energy a);
      [destruct (save_scal_field w "Eel" _ _ _ _); [discriminate|]|];
      inversion Hf; subst; auto. }
  destruct Hfin as [-> ->].
  unfold kpfm_stage in Hk.
  destruct (KPFM_sample a) as [ks|]; cbn [is_some];
    [|inv_prim Hk; auto].
  destruct (kpfm_branch_run _ _ _ _ _ _ _ _ _ Hk) as (rs & ts & Es & Qs & R).
  destruct rs as [e|[[[dV lv'] nd'] hd]]; [destruct R; discriminate|].
  destruct R as (rt & tt & Et & Qt & R).
  destruct rt as [e|[[Vt drho] sg]]; [destruct R; discriminate|].
  destruct R as (rc & tc & Ec & R).
  destruct rc as [e|[[raw1 raw2] tip']]; [destruct R; discriminate|].
  destruct R as (re & te & Ee & -> & R).
  destruct re as [e|u]; [discriminate|].
  destruct (quiet_log _ Qs) as [Cs Ss]. destruct (quiet_log _ Qt) as [Ct St].
  rewrite !conv_lines_app, !saved_names_app, Cs, Ss, Ct, St. cbn [app].
  rewrite kpfm_convs_eq in Ec. cbv zeta in Ec.
  destruct (computeElFF w _) as [msg|[[r1 E1] tl]]; [discriminate|].
  destruct drho as [d|]; [|discriminate].
  destruct (computeElFF w _) as [msg|[[r2 E2] tl2]]; [discriminate|].
  inversion Ec; subst tc.
  rewrite kpfm_emit_eq in Ee.
  destruct (kpfm_normalize _ _ _ _ _ _) as [e1|[F1 F2]]; [discriminate|].
  destruct (save_vec_field w "FFkpfm_t0sV" _ _ _ _); [discriminate|].
  destruct (save_vec_field w "FFkpfm_tVs0" _ _ _ _); [discriminate|].
  inversion Ee; subst te. auto.
Qed.

Lemma complete_run_log_witness :
  conv_lines (snd (main world_demo args_kpfm))
  = (if is_some (KPFM_sample args_kpfm) then [140; 141] else [])%nat ++ [154%nat] /\
  saved_names (snd (main world_demo args_kpfm))
  = (if is_some (KPFM_sample args_kpfm) then ["FFkpfm_t0sV"; "FFkpfm_tVs0"] else [])
    ++ "FFel" :: (if energy args_kpfm then ["Eel"] else []).
Proof.
  apply (complete_run_log world_demo args_kpfm). vm_compute. reflexivity.
Defined.

End OutputFacts.

Module FileFacts.
Import Pipeline Trace RunLog ArrayFacts StageFacts RunFacts BranchFacts
       EventFacts SaveFacts Demo.

Lemma load_sample_geometry w a smp t :
  load_sample w a = (inr smp, t) ->
  exists atoms nd,
    loadGeometry w (input a) = inr (atoms, nd, s_lvec_samp smp) /\
    s_head_samp smp = primcoords2Xsf w atoms (s_lvec_samp smp).
Proof.
  intro H. unfold load_sample in H.
  inv_ok H as g tg Hg. destruct g as [[atoms nd] lv].
  inv_ok H as ld tl Hl.
  destruct ld as [[[[V lv'] nd'] hd]|]; inv_prim H.
  inv_prim Hg. exists atoms, nd. cbn. auto.
Qed.

Lemma final_written w a smp lv nd tip r t e :
  final w a smp lv nd tip = (r, t) ->
  In e t ->
  written_with w e (s_lvec_samp smp) (output_format a) (s_head_samp smp).
Proof.
  intros H Hin. rewrite final_eq in H. cbv zeta in H.
  destruct (computeElFF w _) as [msg|[[FFel Eel] tl]].
  { inversion H; subst. in_cases Hin. subst. exact I. }
  destruct (save_vec_field w "FFel" _ _ _ _) as [msg|[]] eqn:S1.
  { inversion H; subst. in_cases Hin. subst. exact I. }
  destruct (energy a).
  - destruct (save_scal_field w "Eel" _ _ _ _) as [msg|[]] eqn:S2;
      inversion H; subst; in_cases Hin; subst; cbn; auto.
  - inversion H; subst. in_cases Hin; subst; cbn; auto.
Qed.

Lemma kpfm_branch_written w a p smp rho_tip tip ks r t e :
  kpfm_branch w a p smp rho_tip tip ks = (r, t) ->
  In e t -> is_save e = true ->
  written_with w e (s_lvec_samp smp) (output_format a) (s_head_samp smp).
Proof.
  intros H Hin Hs.
  destruct (kpfm_branch_run _ _ _ _ _ _ _ _ _ H) as (rs & ts & Es & Qs & R).
  destruct rs as [e0|[[[dV lv] nd] hd]].
  { destruct R as [_ ->]. destruct (save_not_quiet _ _ Qs Hin Hs). }
  destruct R as (rt & tt & Et & Qt & R).
  destruct rt as [e0|[[Vt drho] sg]].
  { destruct R as [_ ->]. apply in_app_or in Hin.
    destruct Hin as [Hin|Hin]; [destruct (save_not_quiet _ _ Qs Hin Hs)
                               |destruct (save_not_quiet _ _ Qt Hin Hs)]. }
  destruct R as (rc & tc & Ec & R).
  assert (Hc : In e tc -> False).
  { intro Hi. rewrite kpfm_convs_eq in Ec. cbv zeta in Ec.
    destruct (computeElFF w (conv a dV lv nd tip None)) as [msg|[[raw1 E1] tl1]].
    { inversion Ec; subst. in_cases Hi. subst. discriminate Hs. }
    destruct drho as [d|].
    2:{ inversion Ec; subst. in_cases Hi. subst. discriminate Hs. }
    destruct (computeElFF w (conv a (s_V smp) lv nd d (Some sg)))
      as [msg|[[raw2 E2] tl2]]; inversion Ec; subst; in_cases Hi; subst;
      discriminate Hs. }
  destruct rc as [e0|[[raw1 raw2] tip']].
  { destruct R as [_ ->]. exfalso. in_cases Hin.
    - exact (save_not_quiet _ _ Qs Hin Hs).
    - exact (save_not_quiet _ _ Qt Hin Hs).
    - exact (Hc Hin). }
  destruct R as (re & te & Ee & -> & _).
  in_cases Hin.
  - destruct (save_not_quiet _ _ Qs Hin Hs).
  - destruct (save_not_quiet _ _ Qt Hin Hs).
  - destruct (Hc Hin).
  - rewrite kpfm_emit_eq in Ee.
    destruct (kpfm_normalize _ _ _ _ _ _) as [e1|[F1 F2]];
      [inversion Ee; subst; destruct Hin|].
    destruct (save_vec_field w "FFkpfm_t0sV" _ _ _ _) as [msg|[]] eqn:S1;
      [inversion Ee; subst; destruct Hin|].
    destruct (save_vec_field w "FFkpfm_tVs0" _ _ _ _) as [msg|[]] eqn:S2;
      inversion Ee; subst; in_cases Hin; subst; cbn; auto.
Qed.

(** X11.  Every file of a run, the KPFM maps included, is written with the
    lattice that [loadGeometry] read from the input file, in the format of
    [--output_format], and with the header built from the atoms of the
    input file: the lattice of the grid files is not used for the
    output. *)
Theorem files_use_input_geometry w a r tr e :
  main w a = (r, tr) ->
  In e tr -> is_save e = true ->
  exists atoms nd lvec_samp,
    loadGeometry w (input a) = inr (atoms, nd, lvec_samp) /\
    written_with w e lvec_samp (output_format a) (primcoords2Xsf w atoms lvec_samp).
Proof.
  intros H Hin Hs.
  destruct (main_run _ _ _ _ H) as [(e0 & _ & Q) | R];
    [destruct (save_not_quiet _ _ Q Hin Hs)|].
  destruct R as (p & core & smp & tip0 & rho_tip & tip1 & tpre & rk & tk
                 & Hpre & Qpre & Hk & R).
  destruct Hpre as (t0 & t1 & t2 & t3 & t4 & _ & _ & Hsm & _).
  destruct (load_sample_geometry _ _ _ _ Hsm) as (atoms & nd & Hg & Hh).
  exists atoms, nd, (s_lvec_samp smp). split; [exact Hg|]. rewrite <- Hh.
  assert (HK : In e tk ->
               written_with w e (s_lvec_samp smp) (output_format a) (s_head_samp smp)).
  { intro Hi. unfold kpfm_stage in Hk.
    destruct (KPFM_sample a) as [ks|]; [|inv_prim Hk; destruct Hi].
    exact (kpfm_branch_written _ _ _ _ _ _ _ _ _ _ Hk Hi Hs). }
  destruct R as [(e0 & -> & -> & ->) | (tip2 & lv & nd' & tf & -> & Hf & ->)].
  - apply in_app_or in Hin. destruct Hin as [Hin|Hin];
      [destruct (save_not_quiet _ _ Qpre Hin Hs) | exact (HK Hin)].
  - apply in_app_or in Hin. destruct Hin as [Hin|Hin];
      [destruct (save_not_quiet _ _ Qpre Hin Hs)|].
    apply in_app_or in Hin. destruct Hin as [Hin|Hin]; [exact (HK Hin)|].
    exact (final_written _ _ _ _ _ _ _ _ _ Hf Hin).
Qed.

Lemma files_use_input_geometry_witness :
  exists atoms nd lvec_samp,
    loadGeometry world_demo (input args_kpfm) = inr (atoms, nd, lvec_samp) /\
    written_with world_demo (EvSaveVec "FFkpfm_t0sV" F_t0sV_demo) lvec_samp
                 (output_format args_kpfm)
                 (primcoords2Xsf world_demo atoms lvec_samp).
Proof.
  apply (files_use_input_geometry world_demo args_kpfm
           (fst (main world_demo args_kpfm)) (snd (main world_demo args_kpfm))).
  - vm_compute. reflexivity.
  - vm_compute. repeat (first [left; reflexivity | right]).
  - reflexivity.
Defined.

End FileFacts.

Module TipModelFacts.
Import Pipeline Trace RunLog ArrayFacts StageFacts RunFacts BranchFacts
       EventFacts StageResults SaveFacts KernelFacts ExtensionFacts
       GeometryFacts Demo Scenarios.

(** A run whose stages before line 89 went through and whose KPFM branch
    raised ends with the error of the branch. *)
Lemma main_from_prefix w a p core smp tip0 rho_tip tip1 tpre e tk :
  prefix_ok w a p core smp tip0 rho_tip tip1 tpre ->
  kpfm_stage w a p smp rho_tip tip1 = (inl e, tk) ->
  main w a = (inl e, tpre ++ tk).
Proof.
  intros (t0 & t1 & t2 & t3 & t4 & Hp & Hc & Hs & Ht & Hr & ->) Hk.
  rewrite <- !app_assoc. unfold main.
  eapply bind_inr; [exact Hp|]. eapply bind_inr; [exact Hc|].
  eapply bind_inr; [exact Hs|]. eapply bind_inr; [exact Ht|].
  eapply bind_inr; [exact Hr|]. cbv beta iota.
  apply bind_inl. exact Hk.
Qed.

Lemma kpfm_sample_unsupported w ks V :
  endswith (lower ks) ".xsf" = false ->
  endswith (lower ks) ".cube" = false ->
  kpfm_sample w ks V =
  (inl (PyTypeError "unsupported operand type(s) for -: 'NoneType' and 'float'"), []).
Proof.
  intros Hx Hc. unfold kpfm_sample.
  rewrite (load_by_extension_none _ _ _ _ Hx Hc). reflexivity.
Qed.

(** X12.  A potential under bias ([--KPFM_sample]) whose name ends neither
    in [.xsf] nor in [.cube] is never read: the run ends in an error
    without a convolution started or a file written, and when everything
    before line 89 has gone through, the error is the [TypeError] of line
    108 ([V_kpfm] is still [None]) and nothing more is read. *)
Theorem unsupported_kpfm_sample_extension w a r tr ks :
  main w a = (r, tr) ->
  KPFM_sample a = Some ks ->
  endswith (lower ks) ".xsf" = false ->
  endswith (lower ks) ".cube" = false ->
  r <> inr tt /\ quietb tr = true /\
  forall p core smp tip0 rho_tip tip1 tpre,
    prefix_ok w a p core smp tip0 rho_tip tip1 tpre ->
    r = inl (PyTypeError "unsupported operand type(s) for -: 'NoneType' and 'float'") /\
    tr = tpre.
Proof.
  intros H Hks Hx Hc.
  assert (Hst : forall p smp rho_tip tip,
             kpfm_stage w a p smp rho_tip tip =
             (inl (PyTypeError "unsupported operand type(s) for -: 'NoneType' and 'float'"),
              [])).
  { intros p smp rho_tip tip. unfold kpfm_stage. rewrite Hks.
    unfold kpfm_branch. cbv zeta.
    now rewrite (kpfm_sample_unsupported w ks (s_V smp) Hx Hc). }
  assert (Hreach : forall p core smp tip0 rho_tip tip1 tpre,
             prefix_ok w a p core smp tip0 rho_tip tip1 tpre ->
             r = inl (PyTypeError
                        "unsupported operand type(s) for -: 'NoneType' and 'float'") /\
             tr = tpre).
  { intros p core smp tip0 rho_tip tip1 tpre Hpre.
    rewrite (main_from_prefix _ _ _ _ _ _ _ _ _ _ _ Hpre (Hst _ _ _ _)) in H.
    inversion H; subst. rewrite app_nil_r. auto. }
  destruct (main_run _ _ _ _ H) as [(e & -> & Q) | R].
  { split; [discriminate|]. split; [exact Q | exact Hreach]. }
  destruct R as (p & core & smp & tip0 & rho_tip & tip1 & tpre & rk & tk
                 & Hpre & Qpre & Hk & R).
  destruct (Hreach _ _ _ _ _ _ _ Hpre) as [-> ->].
  split; [discriminate|]. split; [exact Qpre | exact Hreach].
Qed.

Lemma unsupported_kpfm_sample_extension_witness :
  fst (main world_demo args_kpfm_sample_txt) <> inr tt /\
  quietb (snd (main world_demo args_kpfm_sample_txt)) = true /\
  forall p core smp tip0 rho_tip tip1 tpre,
    prefix_ok world_demo args_kpfm_sample_txt p core smp tip0 rho_tip tip1 tpre ->
    fst (main world_demo args_kpfm_sample_txt)
    = inl (PyTypeError "unsupported operand type(s) for -: 'NoneType' and 'float'") /\
    snd (main world_demo args_kpfm_sample_txt) = tpre.
Proof.
  apply (unsupported_kpfm_sample_extension world_demo args_kpfm_sample_txt
           (fst (main world_demo args_kpfm_sample_txt))
           (snd (main world_demo args_kpfm_sample_txt)) "sample_bias.txt").
  - vm_compute. reflexivity.
  - reflexivity.
  - reflexivity.
  - reflexivity.
Defined.

Lemma kpfm_tip_cube_no_borh w a p rho_tip sg :
  endswith (lower (KPFM_tip a)) ".xsf" = false ->
  endswith (lower (KPFM_tip a)) ".cube" = true ->
  borh a = None ->
  kpfm_tip w a p rho_tip sg =
  (inl (match rho_tip with
        | Some _ => PyAttributeError "'Namespace' object has no attribute 'borh'"
        | None => PyUnboundLocalError "rho_tip"
        end), []).
Proof.
  intros Hx Hc Hb. unfold kpfm_tip. cbv zeta. rewrite Hx, Hc, Hb.
  destruct rho_tip; reflexivity.
Qed.

(** X13.  A tip density under bias in a [.cube] file ([--KPFM_tip]) cannot
    be used when the command line has no attribute [borh], and [main]
    declares no such option: the run never completes and starts no
    convolution, and with [--tip_dens] given, when everything up to line
    108 has gone through, it ends in [AttributeError] at line 119, before
    the [.cube] file is read. *)
Theorem cube_tip_needs_borh w a r tr ks td :
  main w a = (r, tr) ->
  KPFM_sample a = Some ks ->
  tip_dens a = Some td ->
  endswith (lower (KPFM_tip a)) ".xsf" = false ->
  endswith (lower (KPFM_tip a)) ".cube" = true ->
  borh a = None ->
  r <> inr tt /\ quietb tr = true /\
  forall p core smp tip0 rho_tip tip1 tpre x ts,
    prefix_ok w a p core smp tip0 rho_tip tip1 tpre ->
    kpfm_sample w ks (s_V smp) = (inr x, ts) ->
    r = inl (PyAttributeError "'Namespace' object has no attribute 'borh'") /\
    tr = tpre ++ ts.
Proof.
  intros H Hks Hd Hx Hc Hb.
  assert (Hreach : forall p core smp tip0 rho_tip tip1 tpre x ts,
             prefix_ok w a p core smp tip0 rho_tip tip1 tpre ->
             kpfm_sample w ks (s_V smp) = (inr x, ts) ->
             r = inl (PyAttributeError "'Namespace' object has no attribute 'borh'") /\
             tr = tpre ++ ts).
  { intros p core smp tip0 rho_tip tip1 tpre x ts Hpre Hs.
    assert (Hrho : exists rho, rho_tip = Some rho).
    { destruct Hpre as (t0 & t1 & t2 & t3 & t4 & _ & _ & _ & _ & Hr & _).
      destruct (tip_density_ok _ _ _ _ _ _ _ _ Hr Hd)
        as (rho0 & lv & nd & hd & rho' & _ & -> & _). eauto. }
    destruct Hrho as (rho & ->).
    assert (Hk : kpfm_stage w a p smp (Some rho) tip1 =
                 (inl (PyAttributeError "'Namespace' object has no attribute 'borh'"),
                  ts ++ [])).
    { unfold kpfm_stage. rewrite Hks. unfold kpfm_branch. cbv zeta.
      eapply bind_inr; [exact Hs|]. destruct x as [[[dV lv] nd] hd].
      cbv beta iota. apply bind_inl.
      apply (kpfm_tip_cube_no_borh w a p (Some rho) (p_sigma p) Hx Hc Hb). }
    rewrite (main_from_prefix _ _ _ _ _ _ _ _ _ _ _ Hpre Hk) in H.
    inversion H; subst. rewrite app_nil_r. auto. }
  split; [|split; [|exact Hreach]].
  - intro Hr. subst r.
    destruct (main_run _ _ _ _ H) as [(e & He & _) | R]; [discriminate|].
    destruct R as (p & core & smp & tip0 & rho_tip & tip1 & tpre & rk & tk
                   & Hpre & Qpre & Hk & R).
    destruct R as [(e & _ & He & _) | (tip2 & lv & nd & tf & -> & _)];
      [discriminate|].
    unfold kpfm_stage in Hk. rewrite Hks in Hk.
    destruct (kpfm_branch_run _ _ _ _ _ _ _ _ _ Hk) as (rs & ts & Es & Qs & B).
    destruct rs as [e|x]; [destruct B; discriminate|].
    destruct (Hreach _ _ _ _ _ _ _ _ _ Hpre Es) as [Hr _]. discriminate.
  - destruct (main_run _ _ _ _ H) as [(e & _ & Q) | R]; [exact Q|].
    destruct R as (p & core & smp & tip0 & rho_tip & tip1 & tpre & rk & tk
                   & Hpre & Qpre & Hk & R).
    unfold kpfm_stage in Hk. rewrite Hks in Hk.
    destruct (kpfm_branch_run _ _ _ _ _ _ _ _ _ Hk) as (rs & ts & Es & Qs & B).
    destruct rs as [e|x].
    + destruct B as [-> ->].
      destruct R as [(e' & _ & _ & ->) | (tip2 & lv & nd & tf & E & _)];
        [|discriminate].
      rewrite quietb_app, Qpre, Qs. reflexivity.
    + destruct (Hreach _ _ _ _ _ _ _ _ _ Hpre Es) as [_ ->].
      rewrite quietb_app, Qpre, Qs. reflexivity.
Qed.

Lemma cube_tip_needs_borh_witness :
  fst (main world_demo args_kpfm_tip_cube) <> inr tt /\
  quietb (snd (main world_demo args_kpfm_tip_cube)) = true /\
  forall p core smp tip0 rho_tip tip1 tpre x ts,
    prefix_ok world_demo args_kpfm_tip_cube p core smp tip0 rho_tip tip1 tpre ->
    kpfm_sample world_demo "sample_bias.xsf" (s_V smp) = (inr x, ts) ->
    fst (main world_demo args_kpfm_tip_cube)
    = inl (PyAttributeError "'Namespace' object has no attribute 'borh'") /\
    snd (main world_demo args_kpfm_tip_cube) = tpre ++ ts.
Proof.
  apply (cube_tip_needs_borh world_demo args_kpfm_tip_cube
           (fst (main world_demo args_kpfm_tip_cube))
           (snd (main world_demo args_kpfm_tip_cube)) "sample_bias.xsf" "tip.xsf").
  - vm_compute. reflexivity.
  - reflexivity.
  - reflexivity.
  - reflexivity.
  - reflexivity.
  - reflexivity.
Defined.

Lemma kpfm_tip_no_model w a p rho_tip sg :
  endswith (lower (KPFM_tip a)) ".xsf" = false ->
  endswith (lower (KPFM_tip a)) ".cube" = false ->
  is_tip_token (KPFM_tip a) = false \/ probe_entry (p_probeType p) = None ->
  exists Vt, kpfm_tip w a p rho_tip sg = (inr (Vt, None, sg), []).
Proof.
  intros Hx Hc Hm. unfold kpfm_tip. cbv zeta. rewrite Hx, Hc.
  destruct (is_tip_token (KPFM_tip a)).
  - destruct Hm as [Hm|Hm]; [discriminate|].
    rewrite probe_table_entry, Hm. eexists. reflexivity.
  - eexists. reflexivity.
Qed.

(** X14.  When [--KPFM_tip] names neither a file nor one of the tokens, or
    names a token while [probeType] is none of ['8'], ['47'], ['54'], no
    tip model under bias is assigned: the run never completes and writes
    no file.  The only convolution it can start is that of line 140, and
    when that one succeeds the run ends in [UnboundLocalError] for
    [drho_kpfm] at line 141. *)
Theorem unknown_tip_model w a r tr ks :
  main w a = (r, tr) ->
  KPFM_sample a = Some ks ->
  endswith (lower (KPFM_tip a)) ".xsf" = false ->
  endswith (lower (KPFM_tip a)) ".cube" = false ->
  is_tip_token (KPFM_tip a) = false \/
  (exists p, loadParams w = inr p /\ probe_entry (p_probeType p) = None) ->
  r <> inr tt /\
  (forall e, In e tr -> is_save e = false) /\
  (forall line c,
      In (EvComputeElFF line c) tr ->
      line = 140%nat /\
      forall o, computeElFF w c = inr o ->
                r = inl (PyUnboundLocalError "drho_kpfm")).
Proof.
  intros H Hks Hx Hc Hm.
  destruct (main_run _ _ _ _ H) as [(e & -> & Q) | R].
  { split; [discriminate|]. split.
    - intros e0 Hin. apply (quiet_in _ _ Q Hin).
    - intros line c Hin. destruct (conv_not_quiet _ _ _ Q Hin). }
  destruct R as (p & core & smp & tip0 & rho_tip & tip1 & tpre & rk & tk
                 & Hpre & Qpre & Hk & R).
  assert (Hm' : is_tip_token (KPFM_tip a) = false \/
                probe_entry (p_probeType p) = None).
  { destruct Hm as [Hm | (p' & Hp' & Hm)]; [left; exact Hm|]. right.
    destruct Hpre as (t0 & t1 & t2 & t3 & t4 & Hp & _).
    apply load_params_ok in Hp. rewrite Hp in Hp'. inversion Hp'; subst. exact Hm. }
  assert (B : exists e,
             rk = inl e /\
             (quietb tk = true \/
              exists ts c1,
                quietb ts = true /\ tk = ts ++ [EvComputeElFF 140 c1] /\
                forall o, computeElFF w c1 = inr o ->
                          e = PyUnboundLocalError "drho_kpfm")).
  { unfold kpfm_stage in Hk. rewrite Hks in Hk.
    destruct (kpfm_branch_run _ _ _ _ _ _ _ _ _ Hk) as (rs & ts & Es & Qs & B).
    destruct rs as [e|[[[dV lv] nd] hd]].
    { destruct B as [-> ->]. eauto. }
    destruct B as (rt & tt & Et & Qt & B).
    destruct (kpfm_tip_no_model w a p rho_tip (p_sigma p) Hx Hc Hm') as (Vt & Et').
    rewrite Et' in Et. inversion Et; subst rt tt. clear Et.
    destruct B as (rc & tc & Ec & B).
    rewrite kpfm_convs_eq in Ec. cbv zeta in Ec.
    destruct (computeElFF w (conv a dV lv nd tip1 None))
      as [msg|[[raw1 E1] tl]] eqn:C1; inversion Ec; subst rc tc;
      destruct B as [-> ->]; eexists; (split; [reflexivity|]); right;
      exists ts, (conv a dV lv nd tip1 None); (split; [exact Qs|]);
      (split; [reflexivity|]).
    - intros o Ho. rewrite C1 in Ho. discriminate.
    - reflexivity. }
  destruct B as (e & -> & B).
  destruct R as [(e' & E & -> & ->) | (tip2 & lv & nd & tf & E & _)];
    [inversion E; subst e'|discriminate].
  split; [discriminate|].
  destruct B as [Qk | (ts & c1 & Qs & -> & Hu)].
  - assert (Q : quietb (tpre ++ tk) = true) by (rewrite quietb_app, Qpre, Qk; reflexivity).
    split.
    + intros e0 Hin. apply (quiet_in _ _ Q Hin).
    + intros line c Hin. destruct (conv_not_quiet _ _ _ Q Hin).
  - assert (Q : quietb (tpre ++ ts) = true) by (rewrite quietb_app, Qpre, Qs; reflexivity).
    split.
    + intros e0 Hin. rewrite app_assoc in Hin. apply in_app_or in Hin.
      destruct Hin as [Hin|Hin]; [apply (quiet_in _ _ Q Hin)|].
      in_cases Hin. subst e0. reflexivity.
    + intros line c Hin. rewrite app_assoc in Hin. apply in_app_or in Hin.
      destruct Hin as [Hin|Hin]; [destruct (conv_not_quiet _ _ _ Q Hin)|].
      in_cases Hin. inversion Hin; subst. split; [reflexivity|].
      intros o Ho. f_equal. exact (Hu o Ho).
Qed.

Lemma unknown_tip_model_witness :
  fst (main world_demo args_kpfm_unknown_tip) <> inr tt /\
  (forall e, In e (snd (main world_demo args_kpfm_unknown_tip)) -> is_save e = false) /\
  (forall line c,
      In (EvComputeElFF line c) (snd (main world_demo args_kpfm_unknown_tip)) ->
      line = 140%nat /\
      forall o, computeElFF world_demo c = inr o ->
                fst (main world_demo args_kpfm_unknown_tip)
                = inl (PyUnboundLocalError "drho_kpfm")).
Proof.
  apply (unknown_tip_model world_demo args_kpfm_unknown_tip
           (fst (main world_demo args_kpfm_unknown_tip))
           (snd (main world_demo args_kpfm_unknown_tip)) "sample_bias.xsf").
  - vm_compute. reflexivity.
  - reflexivity.
  - reflexivity.
  - reflexivity.
  - left. reflexivity.
Defined.

End TipModelFacts.

Module LoopFacts.
Import Pipeline Trace ArrayFacts NormalizeFacts.

Lemma set_slice_length {A : Type} (F : list A) (i : nat) (s : A) :
  List.length (set_slice F i s) = List.length F.
Proof.
  revert i. induction F as [|x F IH]; intros [|i]; cbn; auto.
Qed.

Lemma kpfm_normalize_range (vs vt : Q) (zpos : list Q) :
  forall (m k : nat) (F1 F2 : vgrid),
    (k <= List.length F1)%nat -> (k <= List.length F2)%nat ->
    match kpfm_normalize (Some vs) (Some (Some vt)) zpos (seq k m) F1 F2 with
    | inr (F1', F2') =>
        (k + m <= List.length F1)%nat /\ (k + m <= List.length F2)%nat /\
        List.length F1' = List.length F1 /\ List.length F2' = List.length F2 /\
        forall i : nat,
          (i < k \/ k + m <= i)%nat ->
          nth_error F1' i = nth_error F1 i /\ nth_error F2' i = nth_error F2 i
    | inl e =>
        (List.length F1 < k + m \/ List.length F2 < k + m)%nat /\
        e = if (List.length F1 <=? List.length F2)%nat
            then PyIndexError "FFkpfm_t0sV" else PyIndexError "FFkpfm_tVs0"
    end.
Proof.
  induction m as [|m IH]; intros k F1 F2 H1 H2.
  - cbn. repeat split; auto; lia.
  - cbn [seq kpfm_normalize].
    destruct (nth_error F1 k) as [s1|] eqn:E1.
    2:{ apply nth_error_None in E1. split; [lia|].
        assert (L : (List.length F1 <=? List.length F2)%nat = true)
          by (apply Nat.leb_le; lia).
        now rewrite L. }
    assert (L1 : (k < List.length F1)%nat)
      by (apply nth_error_Some; congruence).
    destruct (nth_error F2 k) as [s2|] eqn:E2.
    2:{ apply nth_error_None in E2. split; [lia|].
        assert (L : (List.length F1 <=? List.length F2)%nat = false)
          by (apply Nat.leb_gt; lia).
        now rewrite L. }
    assert (L2 : (k < List.length F2)%nat)
      by (apply nth_error_Some; congruence).
    specialize (IH (S k)
                   (set_slice F1 k (slice_div s1 (vs * (nth k zpos 0 + 0.1))))
                   (set_slice F2 k (slice_div s2 (vt * (nth k zpos 0 + 0.1))))).
    rewrite !set_slice_length in IH. specialize (IH L1 L2).
    destruct (kpfm_normalize _ _ _ _ _ _) as [e|[F1' F2']].
    + destruct IH as [Hl He]. split; [lia | exact He].
    + destruct IH as (A1 & A2 & B1 & B2 & Hi).
      repeat split; try lia.
      * destruct (Hi i) as [Hi1 _]; [lia|]. rewrite Hi1.
        apply nth_error_set_slice_other. lia.
      * destruct (Hi i) as [_ Hi2]; [lia|]. rewrite Hi2.
        apply nth_error_set_slice_other. lia.
Qed.

(** X15.  The loop of lines 145-147 over [range(nDim[0])] goes through
    exactly when both force fields have at least [nDim[0]] slices.  Then it
    keeps the number of slices of both and leaves every slice from
    [nDim[0]] on as it was.  Otherwise it ends in [IndexError], raised for
    the field with fewer slices (for [FFkpfm_t0sV] when both have the
    same). *)
Theorem normalization_needs_all_slices (vs vt : Q) (zpos : list Q) (n : nat)
        (F1 F2 : vgrid) :
  match kpfm_normalize (Some vs) (Some (Some vt)) zpos (seq 0 n) F1 F2 with
  | inr (F1', F2') =>
      (n <= List.length F1)%nat /\ (n <= List.length F2)%nat /\
      List.length F1' = List.length F1 /\ List.length F2' = List.length F2 /\
      forall i : nat,
        (n <= i)%nat ->
        nth_error F1' i = nth_error F1 i /\ nth_error F2' i = nth_error F2 i
  | inl e =>
      (List.length F1 < n \/ List.length F2 < n)%nat /\
      e = if (List.length F1 <=? List.length F2)%nat
          then PyIndexError "FFkpfm_t0sV" else PyIndexError "FFkpfm_tVs0"
  end.
Proof.
  pose proof (kpfm_normalize_range vs vt zpos n 0 F1 F2 (Nat.le_0_l _) (Nat.le_0_l _))
    as H.
  destruct (kpfm_normalize _ _ _ _ _ _) as [e|[F1' F2']]; cbn [Nat.add] in H.
  - exact H.
  - destruct H as (A1 & A2 & B1 & B2 & Hi). repeat split; auto; apply Hi; lia.
Qed.

End LoopFacts.

Module RaiseFacts.
Import Pipeline Trace ErrorFacts.

(** X18.  No run ends with an exception raised by the script itself: the
    [raise Exception] of line 53, the only [raise] of [main], is never
    executed, whatever the command line and whatever the called functions
    do.  Every error of a run comes from the interpreter or from a called
    function. *)
Theorem script_never_raises w a msg : fst (main w a) <> inl (PyException msg).
Proof.
  intro H. pose proof (main_plain w a) as P.
  rewrite H in P. cbn [raised_by_script] in P. discriminate P.
Qed.

End RaiseFacts.

(** ** The charge-ring GUI *)

Module GuiFacts.
Import ChargeRingsGUI StringFacts.

Section Related.

Variables A B C : Type.
Variable RA : A -> A -> Prop.
Variable RC : C -> C -> Prop.
Variable f : A -> B -> option C.
Hypothesis Hf : forall a a' b c,
    RA a a' -> f a b = Some c -> exists c', f a' b = Some c' /\ RC c c'.

Lemma zipM_rel : forall la la' lb lc,
    Forall2 RA la la' -> zipM f la lb = Some lc ->
    exists lc', zipM f la' lb = Some lc' /\ Forall2 RC lc lc'.
Proof.
  intros la la' lb lc H. revert lb lc.
  induction H as [|a a' la la' Ha H IH]; intros [|b lb] lc E; cbn in E;
    try discriminate.
  - inversion E; subst. exists []. split; [reflexivity | constructor].
  - destruct (f a b) as [c|] eqn:Ef; [|discriminate].
    destruct (zipM f la lb) as [cs|] eqn:Ez; [|discriminate].
    inversion E; subst.
    destruct (Hf _ _ _ _ Ha Ef) as (c' & Ef' & Rc).
    destruct (IH _ _ Ez) as (cs' & Ez' & Rcs).
    exists (c' :: cs'). cbn. rewrite Ef', Ez'. split; [reflexivity|].
    constructor; assumption.
Qed.

Lemma mapM_rel_left : forall a a' lb lc,
    RA a a' -> mapM (f a) lb = Some lc ->
    exists lc', mapM (f a') lb = Some lc' /\ Forall2 RC lc lc'.
Proof.
  intros a a' lb. induction lb as [|b lb IH]; intros lc Ha E; cbn in E.
  - inversion E; subst. exists []. split; [reflexivity | constructor].
  - destruct (f a b) as [c|] eqn:Ef; [|discriminate].
    destruct (mapM (f a) lb) as [cs|] eqn:Em; [|discriminate].
    inversion E; subst.
    destruct (Hf _ _ _ _ Ha Ef) as (c' & Ef' & Rc).
    destruct (IH _ Ha eq_refl) as (cs' & Em' & Rcs).
    exists (c' :: cs'). cbn. rewrite Ef', Em'. split; [reflexivity|].
    constructor; assumption.
Qed.

Lemma mapM_rel_right : forall la la' b lc,
    Forall2 RA la la' -> mapM (fun a => f a b) la = Some lc ->
    exists lc', mapM (fun a => f a b) la' = Some lc' /\ Forall2 RC lc lc'.
Proof.
  intros la la' b lc H. revert lc.
  induction H as [|a a' la la' Ha H IH]; intros lc E; cbn in E.
  - inversion E; subst. exists []. split; [reflexivity | constructor].
  - destruct (f a b) as [c|] eqn:Ef; [|discriminate].
    destruct (mapM (fun a => f a b) la) as [cs|] eqn:Em; [|discriminate].
    inversion E; subst.
    destruct (Hf _ _ _ _ Ha Ef) as (c' & Ef' & Rc).
    destruct (IH _ eq_refl) as (cs' & Em' & Rcs).
    exists (c' :: cs'). cbn. rewrite Ef', Em'. split; [reflexivity|].
    constructor; assumption.
Qed.

(** Broadcasting looks at the lengths of its operands only: related
    operands are paired the same way. *)
Lemma broadcast_rel : forall la la' lb lc,
    Forall2 RA la la' -> broadcast f la lb = Some lc ->
    exists lc', broadcast f la' lb = Some lc' /\ Forall2 RC lc lc'.
Proof.
  intros la la' lb lc H E.
  destruct H as [|a a' la la' Ha H].
  - destruct lb as [|b [|b' lb]]; cbn in E |- *.
    + inversion E; subst. exists []. split; [reflexivity | constructor].
    + inversion E; subst. exists []. split; [reflexivity | constructor].
    + discriminate.
  - destruct H as [|a2 a2' la la' Ha2 H].
    + cbn [broadcast] in E |- *. apply (mapM_rel_left _ _ _ _ Ha E).
    + assert (H2 : Forall2 RA (a :: a2 :: la) (a' :: a2' :: la'))
        by (repeat constructor; assumption).
      destruct lb as [|b [|b' lb]].
      * cbn in E. discriminate.
      * cbn [broadcast] in E |- *. apply (mapM_rel_right _ _ _ _ H2 E).
      * cbn [broadcast] in E |- *. apply (zipM_rel _ _ _ _ H2 E).
Qed.

End Related.

Lemma Forall2_map_same {A B : Type} (R : B -> B -> Prop) (f g : A -> B) (l : list A) :
  (forall x, R (f x) (g x)) -> Forall2 R (map f l) (map g l).
Proof. intro H. induction l; cbn; constructor; auto. Qed.

Lemma Forall2_map_both {A B : Type} (RA : A -> A -> Prop) (RB : B -> B -> Prop)
      (f : A -> B) (l l' : list A) :
  (forall x y, RA x y -> RB (f x) (f y)) ->
  Forall2 RA l l' -> Forall2 RB (map f l) (map f l').
Proof. intros H F. induction F; cbn; constructor; auto. Qed.

Lemma sum_scaled (k : Q) (l l' : list Q) :
  Forall2 (fun x y => x == k * y) l l' ->
  fold_right Qplus 0 l == k * fold_right Qplus 0 l'.
Proof.
  induction 1 as [|x y l l' Hxy H IH]; cbn [fold_right].
  - ring.
  - rewrite Hxy, IH. ring.
Qed.

(** X16.  The image [getSTM_map] computes for a charge perturbation [dQ]
    is, pixel by pixel, the unperturbed image (the sum over the sites of
    [Q * T]) multiplied by [1 + dQ]. *)
Theorem getSTM_map_scales (Qsite T : grid Q) (dQ : Q) (I : list (list Q)) :
  getSTM_map Qsite T dQ = Some I ->
  exists I0,
    getSTM_map Qsite T 0 = Some I0 /\
    Forall2 (Forall2 (fun x y => x == (1 + dQ) * y)) I I0.
Proof.
  unfold getSTM_map, arr_mul. cbv zeta. intro H.
  set (R := fun x y : Q => x == (1 + dQ) * y).
  destruct (broadcast _ (grid_map (fun q => q * (1 + dQ)) Qsite) T)
    as [P|] eqn:E; [|discriminate].
  cbn [option_map] in H. inversion H; subst I. clear H.
  assert (H0 : Forall2 (Forall2 (Forall2 R))
                       (grid_map (fun q => q * (1 + dQ)) Qsite)
                       (grid_map (fun q => q * (1 + 0)) Qsite)).
  { unfold grid_map. apply Forall2_map_same. intro s.
    apply Forall2_map_same. intro l. apply Forall2_map_same. intro q.
    unfold R. ring. }
  assert (F3 : forall a a' b c, R a a' -> Some (a * b) = Some c ->
                                exists c', Some (a' * b) = Some c' /\ R c c').
  { intros a a' b c Ha Hc. inversion Hc; subst. eexists. split; [reflexivity|].
    unfold R in *. rewrite Ha. ring. }
  pose proof (broadcast_rel _ _ _ R R (fun x y => Some (x * y)) F3) as B1.
  pose proof (broadcast_rel _ _ _ _ _ _ B1) as B2.
  pose proof (broadcast_rel _ _ _ _ _ _ B2) as B3.
  destruct (B3 _ _ _ _ H0 E) as (P0 & E0 & HP).
  exists (sum_last P0). rewrite E0. split; [reflexivity|].
  unfold sum_last.
  apply (Forall2_map_both (Forall2 (Forall2 R))); [|exact HP].
  intros s s' Hs.
  apply (Forall2_map_both (Forall2 R)); [|exact Hs].
  intros l l' Hl. apply sum_scaled. exact Hl.
Qed.

Lemma getSTM_map_scales_witness :
  exists I0,
    getSTM_map [[[1; 2]; [0; 1]]] [[[3; 4]; [5; 6]]] 0 = Some I0 /\
    Forall2 (Forall2 (fun x y => x == (1 + (1 # 2)) * y))
            [[1 * (1 + (1 # 2)) * 3 + (2 * (1 + (1 # 2)) * 4 + 0);
              0 * (1 + (1 # 2)) * 5 + (1 * (1 + (1 # 2)) * 6 + 0)]] I0.
Proof.
  apply (getSTM_map_scales [[[1; 2]; [0; 1]]] [[[3; 4]; [5; 6]]] (1 # 2)).
  reflexivity.
Defined.

(** X17.  [save_parameters] writes nothing when the dialog was cancelled.
    Otherwise it dumps the values it was given into a file whose name ends
    in [.json]: the chosen name when that ends in [.json] already, and the
    chosen name followed by [.json] otherwise.  Saving under the name
    written changes the name no more. *)
Theorem save_parameters_json {P : Type} (values : P) (filename : string) :
  match save_parameters values filename with
  | None => filename = ""
  | Some (f, v) =>
      filename <> "" /\ v = values /\
      endswith f ".json" = true /\
      f = (if endswith filename ".json" then filename
           else (filename ++ ".json")%string) /\
      save_parameters values f = Some (f, values)
  end.
Proof.
  unfold save_parameters. cbv zeta.
  destruct (String.eqb filename "") eqn:E0.
  { apply String.eqb_eq. exact E0. }
  apply String.eqb_neq in E0.
  split; [exact E0|]. split; [reflexivity|].
  destruct (endswith filename ".json") eqn:Ej; cbn [negb].
  - split; [exact Ej|]. split; [reflexivity|].
    destruct (String.eqb filename "") eqn:E1;
      [apply String.eqb_eq in E1; contradiction|].
    rewrite Ej. reflexivity.
  - assert (Ea : endswith (filename ++ ".json")%string ".json" = true)
      by (rewrite endswith_app by (cbn; lia); reflexivity).
    split; [exact Ea|]. split; [reflexivity|].
    destruct (String.eqb (filename ++ ".json")%string "") eqn:E1.
    + apply String.eqb_eq in E1. destruct filename; discriminate.
    + rewrite Ea. reflexivity.
Qed.

End GuiFacts.

(** ** The correlation *)

Module FFTConvolutionFacts.
Import mathcomp.boot.boot mathcomp.order.order mathcomp.algebra.algebra
       mathcomp.field.algC mathcomp.field.cyclotomic.
Import GRing.Theory Num.Theory.
Import FFTConvolution.
Local Close Scope Q_scope.
Local Close Scope list_scope.
Local Close Scope string_scope.
Local Open Scope ring_scope.

Lemma omega_prim n : n.+1.-primitive_root (omega n).
Proof. exact: (svalP (C_prim_root_exists (ltn0Sn n))). Qed.

Lemma omegaX1 n : omega n ^+ n.+1 = 1.
Proof. exact: prim_expr_order (omega_prim n). Qed.

Lemma omega_neq0 n : omega n != 0.
Proof. by rewrite (prim_root_eq0 (omega_prim n)). Qed.

(** Exponents of [omega n] count modulo [n+1]. *)
Lemma omegaXD n (k : nat) (r s : 'I_n.+1) :
  omega n ^+ (k * (r + s)%R) = omega n ^+ (k * r) * omega n ^+ (k * s).
Proof.
rewrite -exprD -mulnDr !exprM /= expr_mod //.
by rewrite -exprM mulnC exprM omegaX1 expr1n.
Qed.

Lemma norm_omega n : `|omega n| = 1.
Proof.
apply/eqP; rewrite -(@pexpr_eq1 _ _ n.+1) //.
by rewrite -normrX omegaX1 normr1.
Qed.

Lemma conj_omegaX n m : (omega n ^+ m)^* = (omega n ^+ m)^-1.
Proof. by rewrite invC_norm normrX norm_omega expr1n expr1n invr1 mul1r. Qed.

(** The powers of a root of unity other than 1 sum to zero. *)
Lemma omega_sum n (r : 'I_n.+1) :
  \sum_(k < n.+1) omega n ^+ (k * r) = (n.+1)%:R * (r == 0)%:R.
Proof.
have [->|r_neq0] := eqVneq r 0.
  rewrite mulr1 (eq_bigr (fun=> 1)) ?sumr_const ?card_ord //.
  by move=> k _; rewrite muln0 expr0.
rewrite mulr0; pose z := omega n ^+ r.
have z_neq1 : z - 1 != 0.
  rewrite subr_eq0 -[1](expr0 (omega n)) (eq_prim_root_expr (omega_prim n)).
  by rewrite mod0n modn_small.
have -> : \sum_(k < n.+1) omega n ^+ (k * r) = \sum_(k < n.+1) z ^+ k.
  by apply: eq_bigr => k _; rewrite mulnC exprM.
have := subrX1 z n.+1; rewrite -exprM mulnC exprM omegaX1 expr1n subrr.
by move/esym/eqP; rewrite mulf_eq0 (negPf z_neq1) /= => /eqP.
Qed.

Lemma rearrange (x y a b c : algC) :
  x * a * (y * b) * c = x * y * (b * a * c).
Proof. by ring. Qed.

Section Grid.
Variables nz ny nx : nat.
Local Notation voxel := (voxel nz ny nx).
Local Notation nvox := (nvox nz ny nx).

Lemma phaseD (k r s : voxel) : phase k (r + s) = phase k r * phase k s.
Proof.
case: r s => [[rz ry] rx] [[sz sy] sx]; rewrite /phase /= !omegaXD.
by ring.
Qed.

Lemma phase0 (k : voxel) : phase k 0 = 1.
Proof. by rewrite /phase /= !muln0 !expr0 !mulr1. Qed.

Lemma phase_conj (k r : voxel) : (phase k r)^* = (phase k r)^-1.
Proof. by rewrite /phase !rmorphM /= !conj_omegaX !invfM. Qed.

Lemma phase_neq0 (k r : voxel) : phase k r != 0.
Proof. by rewrite /phase !mulf_neq0 // expf_neq0 // omega_neq0. Qed.

Lemma phaseN (k r : voxel) : phase k (- r) = (phase k r)^-1.
Proof.
apply: (mulIf (phase_neq0 k r)).
by rewrite -phaseD addNr phase0 mulVf // phase_neq0.
Qed.

(** Orthogonality: the phases of a voxel other than the origin sum to
    zero over the frequencies. *)
Lemma phase_sum (r : voxel) :
  \sum_(k : voxel) phase k r = nvox%:R * (r == 0)%:R.
Proof.
case: r => [[rz ry] rx]; rewrite /phase /=.
rewrite -(pair_bigA _ (fun (p : 'I_nz.+1 * 'I_ny.+1) (kx : 'I_nx.+1) =>
            omega nz ^+ (p.1 * rz) * omega ny ^+ (p.2 * ry)
            * omega nx ^+ (kx * rx))) /=.
rewrite -(pair_bigA _ (fun (kz : 'I_nz.+1) (ky : 'I_ny.+1) =>
            \sum_(kx < nx.+1) omega nz ^+ (kz * rz) * omega ny ^+ (ky * ry)
                              * omega nx ^+ (kx * rx))) /=.
have -> : \sum_(i < nz.+1) \sum_(j < ny.+1) \sum_(kx < nx.+1)
            omega nz ^+ (i * rz) * omega ny ^+ (j * ry) * omega nx ^+ (kx * rx)
        = (\sum_(i < nz.+1) omega nz ^+ (i * rz))
          * (\sum_(j < ny.+1) omega ny ^+ (j * ry))
          * (\sum_(k < nx.+1) omega nx ^+ (k * rx)).
  rewrite !mulr_suml; apply: eq_bigr => i _.
  rewrite [X in X * _]mulr_sumr mulr_suml; apply: eq_bigr => j _.
  by rewrite mulr_sumr.
rewrite !omega_sum /FFTConvolution.nvox !natrM.
have -> : ((rz, ry, rx) == 0) = (rz == 0) && (ry == 0) && (rx == 0) by [].
by case: (rz == 0); case: (ry == 0); case: (rx == 0);
  rewrite /= ?mulr0 ?mul0r ?mulr1.
Qed.

(** The conjugate of the transform of real samples. *)
Lemma conj_fftn_real (f : voxel -> rat) (k : voxel) :
  (fftn (fun r => ratr (f r)) k)^* = \sum_r ratr (f r) * phase k r.
Proof.
rewrite /fftn rmorph_sum; apply: eq_bigr => r _.
by rewrite rmorphM fmorphV /= phase_conj invrK conj_Creal // rpred_rat.
Qed.

Lemma nvox_neq0 : nvox%:R != 0 :> algC.
Proof. by rewrite pnatr_eq0 /FFTConvolution.nvox !muln_eq0. Qed.

(** The convolution theorem, before the inverse transform is scaled. *)
Lemma correlate_sum (V rho : voxel -> rat) (R : voxel) :
  \sum_k (fftn (fun r => ratr (V r)) k * (fftn (fun r => ratr (rho r)) k)^*)
          * phase k R
  = nvox%:R * ratr (\sum_(r : voxel) rho (r - R) * V r).
Proof.
pose Vc r : algC := ratr (V r); pose rc r : algC := ratr (rho r).
have -> : \sum_k (fftn Vc k * (fftn rc k)^*) * phase k R
        = \sum_(r : voxel) \sum_(s : voxel) \sum_k
            Vc r * rc s * phase k (s - r + R).
  transitivity (\sum_k \sum_(r : voxel) \sum_(s : voxel)
                  Vc r * rc s * phase k (s - r + R)).
    apply: eq_bigr => k _.
    rewrite conj_fftn_real /fftn big_distrlr /= mulr_suml.
    apply: eq_bigr => r _; rewrite mulr_suml; apply: eq_bigr => s _.
    by rewrite !phaseD phaseN; exact: rearrange.
  by rewrite exchange_big /=; apply: eq_bigr => r _; rewrite exchange_big.
rewrite rmorph_sum mulr_sumr; apply: eq_bigr => r _.
under eq_bigr => s _ do rewrite -mulr_sumr phase_sum.
rewrite (bigD1 (r - R)) //= big1 ?addr0 => [s neq_s|].
  have -> : s - r + R = s - (r - R) by rewrite opprB addrA addrAC.
  by rewrite subr_eq0 (negPf neq_s) !mulr0.
rewrite [r - R]addrC addrK addNr eqxx mulr1 rmorphM /Vc /rc /=.
by rewrite mulrC [ratr (V r) * _]mulrC.
Qed.

(** C1.  For a potential [V] and a kernel [rho] on the same grid, the
    energy the transforms deliver at voxel [R] is the cross-correlation
    [sum over r of rho(r - R) * V(r)], and at the zero-offset voxel it is
    the dot product of [rho] and [V]. *)
Theorem correlate_is_cross_correlation (V rho : voxel -> rat) :
  (forall R : voxel, correlate V rho R = ratr (cross_correlation V rho R)) /\
  correlate V rho 0 = ratr (dot_product V rho).
Proof.
have E R : correlate V rho R = ratr (cross_correlation V rho R).
  rewrite /correlate /ifftn correlate_sum mulKf ?nvox_neq0 //.
  by apply/Creal_ReP; rewrite rpred_rat.
split=> //; rewrite E /cross_correlation /dot_product; congr ratr.
by apply: eq_bigr => r _; rewrite subr0.
Qed.

End Grid.

End FFTConvolutionFacts.
